(** * The experiment/build file reader of the cerebellum simulator

    A shallow embedding of [src/cxx_tools/file_io/file_parse.cpp]: the
    tokenizer, the lexer, the region / variable-section / definition parsers
    and the trial-hierarchy resolver, followed by the properties proved about
    them.

    Conventions of the embedding:
    - [std::string] is [string]; [std::vector<T>] is [list T]; an iterator
      into the token vector is an index [nat], dereferenced with [!!];
    - the string-keyed maps of the parsed file are [gmap string _];
    - [ct_uint32_t] is a [Z] reduced modulo [2^32] at every assignment;
    - a function that can leave through [exit], through an exception of the
      standard library, through an out-of-range read, or that may loop,
      returns an [outcome]; loops and recursion that the source does not
      bound take a [fuel] argument and answer [OutOfFuel] when it is spent. *)

From Stdlib Require Import ZArith Ascii String List Lia.
From stdpp Require Import base option list gmap strings fin_maps.

Local Open Scope string_scope.
Local Open Scope list_scope.

(** ** Outcomes *)

(** The two exceptions [std::stoi] and [std::stof] throw. *)
Inductive exn := invalid_argument | out_of_range.

Inductive outcome (A : Type) : Type :=
| Ok (a : A)            (* normal return *)
| Exit (code : Z)       (* exit(code) after a diagnostic on std::cerr *)
| Throw (e : exn)       (* an exception nobody catches *)
| Undefined             (* a read or write outside a vector or array *)
| OutOfFuel.            (* the model's step budget is spent *)
Arguments Ok {A} a.
Arguments Exit {A} code.
Arguments Throw {A} e.
Arguments Undefined {A}.
Arguments OutOfFuel {A}.

Global Instance outcome_ret : MRet outcome := fun A a => Ok a.

Global Instance outcome_bind : MBind outcome := fun A B k m =>
  match m with
  | Ok a => k a
  | Exit c => Exit c
  | Throw e => Throw e
  | Undefined => Undefined
  | OutOfFuel => OutOfFuel
  end.

(** ** Data model (declared in file_parse.h) *)

(** Modelled from the spec: file_parse.h is not part of the sources at hand.
    The enumeration is the spec's closed tag set; its constructors carry the
    names the code uses. *)
Inductive lexeme :=
| NONE | BEGIN_MARKER | END_MARKER | REGION | REGION_TYPE | TYPE_NAME
| VAR_IDENTIFIER | VAR_VALUE | DEF | DEF_TYPE | SINGLE_COMMENT
| DOUBLE_COMMENT_BEGIN | DOUBLE_COMMENT_END | NEW_LINE.

Global Instance lexeme_eq_dec : EqDecision lexeme.
Proof. solve_decision. Defined.

Record lexed_token := LexedToken { lex : lexeme; raw_token : string }.

Record variable := Variable_ { type_name : string; identifier : string; value : string }.

Record pair := Pair { first : string; second : string }.

Global Instance pair_eq_dec : EqDecision pair.
Proof. solve_decision. Defined.

Global Instance lexed_token_eq_dec : EqDecision lexed_token.
Proof. solve_decision. Defined.

(** A value-initialised [variable] or [pair]: every string empty. *)
Definition empty_variable : variable := Variable_ "" "" "".
Definition empty_pair : pair := Pair "" "".

Record parsed_var_section := ParsedVarSection { param_map : gmap string variable }.

Record parsed_trial_section := ParsedTrialSection {
  trial_map : gmap string (gmap string variable);
  block_map : gmap string (list pair);
  session_map : gmap string (list pair);
  experiment : list pair
}.

Record parsed_expt_file := ParsedExptFile {
  parsed_var_sections : gmap string parsed_var_section;
  parsed_trial_info : parsed_trial_section
}.

Record parsed_build_file := ParsedBuildFile {
  build_var_sections : gmap string parsed_var_section
}.

Definition empty_trial_section : parsed_trial_section :=
  ParsedTrialSection ∅ ∅ ∅ [].
Definition empty_expt_file : parsed_expt_file :=
  ParsedExptFile ∅ empty_trial_section.
Definition empty_build_file : parsed_build_file := ParsedBuildFile ∅.

(** ** Regular expressions

    [std::regex_match] asks whether the whole token belongs to the language
    of the pattern.  The two patterns of the file use character classes,
    sequence, [?], [*], [+] and [{1}] only, so membership is decided here
    with derivatives. *)

Inductive regex :=
| Eps
| Class (p : ascii -> bool)
| Seq (r1 r2 : regex)
| Alt (r1 r2 : regex)
| Star (r : regex)
| Void.

Definition Opt (r : regex) : regex := Alt r Eps.
Definition Plus (r : regex) : regex := Seq r (Star r).

Fixpoint nullable (r : regex) : bool :=
  match r with
  | Eps => true
  | Class _ => false
  | Seq r1 r2 => nullable r1 && nullable r2
  | Alt r1 r2 => nullable r1 || nullable r2
  | Star _ => true
  | Void => false
  end.

Fixpoint deriv (c : ascii) (r : regex) : regex :=
  match r with
  | Eps => Void
  | Class p => if p c then Eps else Void
  | Seq r1 r2 =>
      if nullable r1 then Alt (Seq (deriv c r1) r2) (deriv c r2)
      else Seq (deriv c r1) r2
  | Alt r1 r2 => Alt (deriv c r1) (deriv c r2)
  | Star r1 => Seq (deriv c r1) (Star r1)
  | Void => Void
  end.

Fixpoint regex_match (s : string) (r : regex) : bool :=
  match s with
  | EmptyString => nullable r
  | String c s' => regex_match s' (deriv c r)
  end.

Definition in_range (lo hi c : ascii) : bool :=
  ((N_of_ascii lo <=? N_of_ascii c) && (N_of_ascii c <=? N_of_ascii hi))%N.

Definition is_char (x c : ascii) : bool := Ascii.eqb x c.

(** [[a-zA-Z_]], [[a-zA-Z0-9_]], [[0-9]], [[+-]], [[.]], [[e]] *)
Definition cls_alpha_ (c : ascii) : bool :=
  in_range "a" "z" c || in_range "A" "Z" c || is_char "_" c.
Definition cls_alnum_ (c : ascii) : bool :=
  in_range "a" "z" c || in_range "A" "Z" c || in_range "0" "9" c || is_char "_" c.
Definition cls_digit (c : ascii) : bool := in_range "0" "9" c.
Definition cls_sign (c : ascii) : bool := is_char "+" c || is_char "-" c.
Definition cls_dot (c : ascii) : bool := is_char "." c.
Definition cls_e (c : ascii) : bool := is_char "e" c.

Definition var_id_regex_str : string := "[a-zA-Z_]{1}[a-zA-Z0-9_]*".
Definition var_val_regex_str : string := "[+-]?([0-9]*[.])?[0-9]*([e][+-]?[0-9]+)?".

(** The compiled form of [var_id_regex_str]. *)
Definition var_id_regex : regex :=
  Seq (Class cls_alpha_) (Star (Class cls_alnum_)).

(** The compiled form of [var_val_regex_str]. *)
Definition var_val_regex : regex :=
  Seq (Opt (Class cls_sign))
   (Seq (Opt (Seq (Star (Class cls_digit)) (Class cls_dot)))
    (Seq (Star (Class cls_digit))
     (Opt (Seq (Class cls_e)
           (Seq (Opt (Class cls_sign)) (Plus (Class cls_digit))))))).

(** ** Lexeme tables *)

(** [std::map] built from an initializer list: a later entry with a key
    already present is ignored, so lookup is the first match in source
    order. *)
Fixpoint map_find {V} (m : list (string * V)) (k : string) : option V :=
  match m with
  | [] => None
  | (k', v) :: m' => if decide (k' = k) then Some v else map_find m' k
  end.

Definition token_defs : list (string * lexeme) :=
  [ ("begin", BEGIN_MARKER);
    ("end", END_MARKER);
    ("filetype", REGION);
    ("section", REGION);
    ("build", REGION_TYPE);
    ("run", REGION_TYPE);
    ("connectivity", REGION_TYPE);
    ("activity", REGION_TYPE);
    ("trial_def", REGION_TYPE);
    ("mf_input", REGION_TYPE);
    ("trial_spec", REGION_TYPE);
    ("activity", REGION_TYPE);
    ("int", TYPE_NAME);
    ("float", TYPE_NAME);
    ("[a-zA-Z_]{1}[a-zA-Z0-9_]*", VAR_IDENTIFIER);
    ("[+-]?([0-9]*[.])?[0-9]*([e][+-]?[0-9]+)?", VAR_VALUE);
    ("def", DEF);
    ("trial", DEF_TYPE);
    ("block", DEF_TYPE);
    ("session", DEF_TYPE);
    ("experiment", DEF_TYPE);
    ("//", SINGLE_COMMENT);
    ("/*", DOUBLE_COMMENT_BEGIN);
    ("*/", DOUBLE_COMMENT_END) ].

(** [token_defs[k]]: the value at [k], a value-initialised lexeme when the
    key is absent. *)
Definition token_defs_at (k : string) : lexeme :=
  default NONE (map_find token_defs k).

(** ** Tokenizer *)

Definition tokenized_file := list (list string).

(** [std::isspace] in the "C" locale: space, and the controls 9 to 13. *)
Definition isspace (c : ascii) : bool :=
  is_char " " c || in_range (ascii_of_nat 9) (ascii_of_nat 13) c.

Definition is_newline (c : ascii) : bool := is_char (ascii_of_nat 10) c.

(** The lines [getline] delivers one after the other: the text up to each
    line feed, and a last unterminated piece when it is not empty. *)
Fixpoint read_lines (buf : string) : list string :=
  match buf with
  | EmptyString => []
  | String c rest =>
      if is_newline c then EmptyString :: read_lines rest
      else match read_lines rest with
           | [] => [String c EmptyString]
           | l :: ls => String c l :: ls
           end
  end.

(** [while (line_buf >> token) line_tokens.push_back(token)]: [token] is the
    run of characters read since the last white space. *)
Fixpoint extract_tokens (line_buf : string) (token : string) : list string :=
  match line_buf with
  | EmptyString => if decide (token = "") then [] else [token]
  | String c rest =>
      if isspace c then
        if decide (token = "") then extract_tokens rest ""
        else token :: extract_tokens rest ""
      else extract_tokens rest (token +:+ String c EmptyString)
  end.

Fixpoint tokenize_lines (lines : list string) (t_file : tokenized_file) : tokenized_file :=
  match lines with
  | [] => t_file
  | line :: lines' =>
      if decide (line = "") then tokenize_lines lines' t_file
      else tokenize_lines lines' (t_file ++ [extract_tokens line ""])
  end.

(** [in_file] is the content found at the path, [None] when the file cannot
    be opened. *)
Definition tokenize_file (in_file : option string) (t_file : tokenized_file)
  : outcome tokenized_file :=
  match in_file with
  | None => Exit 3
  | Some buf => Ok (tokenize_lines (read_lines buf) t_file)
  end.

(** ** Lexer *)

(** Modelled from the spec: the declaration of [lexed_token] is in the absent
    file_parse.h; a token that no rule classifies keeps the lexeme the
    declaration gives it, which the spec states to be [NONE]. *)
Definition default_lex : lexeme := NONE.

Definition lex_raw_token (raw_token : string) : lexed_token :=
  let l :=
    match map_find token_defs raw_token with
    | Some l => l
    | None =>
        if regex_match raw_token var_id_regex then token_defs_at var_id_regex_str
        else if regex_match raw_token var_val_regex then token_defs_at var_val_regex_str
        else default_lex
    end in
  LexedToken l raw_token.

Definition new_line_token : lexed_token := LexedToken NEW_LINE (String (ascii_of_nat 10) "").

Definition lex_line (line : list string) : list lexed_token :=
  map lex_raw_token line ++ [new_line_token].

Fixpoint lex_lines (lines : tokenized_file) (l_file : list lexed_token) : list lexed_token :=
  match lines with
  | [] => l_file
  | line :: lines' => lex_lines lines' (l_file ++ lex_line line)
  end.

Definition lex_tokenized_file (t_file : tokenized_file) (l_file : list lexed_token)
  : list lexed_token :=
  lex_lines t_file l_file.

(** ** Parsers

    [ltp], the lexed-token pointer, is an index into [l_file].  [parse_def]
    inserts tokens into the vector it walks, so every parser takes the vector
    and hands it back. *)

Definition deref (l_file : list lexed_token) (ltp : nat) : outcome lexed_token :=
  match l_file !! ltp with
  | Some t => Ok t
  | None => Undefined
  end.

(** [while (ltp->lex != NEW_LINE) ltp++;] with [rest] the tokens from [ltp]
    on. *)
Fixpoint scan_to_new_line (rest : list lexed_token) (ltp : nat) : outcome nat :=
  match rest with
  | [] => Undefined
  | t :: rest' =>
      if decide (lex t = NEW_LINE) then Ok ltp
      else scan_to_new_line rest' (S ltp)
  end.

Definition skip_comment (l_file : list lexed_token) (ltp : nat) : outcome nat :=
  scan_to_new_line (drop ltp l_file) ltp.

(** *** parse_def *)

Record def_state := DefState {
  ds_ltp : nat;
  ds_l_file : list lexed_token;
  ds_e_file : parsed_expt_file;
  curr_pair : pair;
  curr_trial : gmap string variable;
  curr_block : list pair;
  curr_session : list pair;
  prev_lex : lexeme;
  curr_var : variable
}.

Definition set_ltp (p : nat) (s : def_state) : def_state :=
  DefState p (ds_l_file s) (ds_e_file s) (curr_pair s) (curr_trial s)
           (curr_block s) (curr_session s) (prev_lex s) (curr_var s).
Definition set_l_file (l : list lexed_token) (s : def_state) : def_state :=
  DefState (ds_ltp s) l (ds_e_file s) (curr_pair s) (curr_trial s)
           (curr_block s) (curr_session s) (prev_lex s) (curr_var s).
Definition set_e_file (e : parsed_expt_file) (s : def_state) : def_state :=
  DefState (ds_ltp s) (ds_l_file s) e (curr_pair s) (curr_trial s)
           (curr_block s) (curr_session s) (prev_lex s) (curr_var s).
Definition set_curr_pair (p : pair) (s : def_state) : def_state :=
  DefState (ds_ltp s) (ds_l_file s) (ds_e_file s) p (curr_trial s)
           (curr_block s) (curr_session s) (prev_lex s) (curr_var s).
Definition set_curr_trial (t : gmap string variable) (s : def_state) : def_state :=
  DefState (ds_ltp s) (ds_l_file s) (ds_e_file s) (curr_pair s) t
           (curr_block s) (curr_session s) (prev_lex s) (curr_var s).
Definition set_curr_block (b : list pair) (s : def_state) : def_state :=
  DefState (ds_ltp s) (ds_l_file s) (ds_e_file s) (curr_pair s) (curr_trial s)
           b (curr_session s) (prev_lex s) (curr_var s).
Definition set_curr_session (b : list pair) (s : def_state) : def_state :=
  DefState (ds_ltp s) (ds_l_file s) (ds_e_file s) (curr_pair s) (curr_trial s)
           (curr_block s) b (prev_lex s) (curr_var s).
Definition set_prev_lex (l : lexeme) (s : def_state) : def_state :=
  DefState (ds_ltp s) (ds_l_file s) (ds_e_file s) (curr_pair s) (curr_trial s)
           (curr_block s) (curr_session s) l (curr_var s).
Definition set_curr_var (v : variable) (s : def_state) : def_state :=
  DefState (ds_ltp s) (ds_l_file s) (ds_e_file s) (curr_pair s) (curr_trial s)
           (curr_block s) (curr_session s) (prev_lex s) v.

Definition set_experiment (x : list pair) (pt : parsed_trial_section) : parsed_trial_section :=
  ParsedTrialSection (trial_map pt) (block_map pt) (session_map pt) x.
Definition set_trial_info (pt : parsed_trial_section) (e : parsed_expt_file) : parsed_expt_file :=
  ParsedExptFile (parsed_var_sections e) pt.

(** [e_file.parsed_trial_info.experiment.push_back(p)] *)
Definition experiment_push_back (p : pair) (e : parsed_expt_file) : parsed_expt_file :=
  set_trial_info
    (set_experiment (experiment (parsed_trial_info e) ++ [p]) (parsed_trial_info e)) e.

(** The three-way [if] that files a finished pair under the definition
    being read. *)
Definition push_pair (def_type : string) (p : pair) (s : def_state) : def_state :=
  if decide (def_type = "block") then set_curr_block (curr_block s ++ [p]) s
  else if decide (def_type = "session") then set_curr_session (curr_session s ++ [p]) s
  else if decide (def_type = "experiment") then
    set_e_file (experiment_push_back p (ds_e_file s)) s
  else s.

Definition shadow_token : lexed_token := LexedToken VAR_VALUE "1".

(** [ltp = l_file.tokens.insert(ltp, shadow_token); ltp--;] *)
Definition insert_shadow (s : def_state) : outcome def_state :=
  let l_file' := take (ds_ltp s) (ds_l_file s) ++ shadow_token :: drop (ds_ltp s) (ds_l_file s) in
  match ds_ltp s with
  | O => Undefined
  | S p => Ok (set_ltp p (set_l_file l_file' s))
  end.

(** The [switch (ltp->lex)] of the loop body, [t] being [*ltp]. *)
Definition parse_def_switch (def_type : string) (t : lexed_token) (s : def_state)
  : outcome def_state :=
  match lex t with
  | TYPE_NAME =>
      if decide (def_type = "trial") then
        Ok (set_curr_var
              (Variable_ (raw_token t) (identifier (curr_var s)) (value (curr_var s))) s)
      else Ok s
  | VAR_IDENTIFIER =>
      if decide (def_type = "trial") then
        if decide (prev_lex s ≠ TYPE_NAME) then Ok s
        else Ok (set_curr_var
                   (Variable_ (type_name (curr_var s)) (raw_token t) (value (curr_var s))) s)
      else
        if decide (first (curr_pair s) ≠ "") then insert_shadow s
        else Ok (set_curr_pair (Pair (raw_token t) (second (curr_pair s))) s)
  | VAR_VALUE =>
      if decide (prev_lex s ≠ VAR_IDENTIFIER ∧ prev_lex s ≠ NEW_LINE) then Ok s
      else
        if decide (def_type = "trial") then
          let v := Variable_ (type_name (curr_var s)) (identifier (curr_var s)) (raw_token t) in
          Ok (set_curr_var empty_variable
                (set_curr_trial (<[identifier v := v]> (curr_trial s)) s))
        else
          let p := Pair (first (curr_pair s)) (raw_token t) in
          Ok (set_curr_pair empty_pair (push_pair def_type p (set_curr_pair p s)))
  | SINGLE_COMMENT =>
      ltp' ← skip_comment (ds_l_file s) (ds_ltp s);
      Ok (set_ltp ltp' s)
  | _ => Ok s
  end.

(** The test after [ltp++], [t2] being the token [ltp] has reached: at the
    [end] of a definition other than a trial, an identifier still without
    a value gets the count 1 and is filed. *)
Definition close_last_pair (def_type : string) (t2 : lexed_token) (s : def_state)
  : def_state :=
  if decide (lex t2 = END_MARKER ∧ def_type ≠ "trial"
             ∧ first (curr_pair s) ≠ "" ∧ second (curr_pair s) = "") then
    let p := Pair (first (curr_pair s)) "1" in
    push_pair def_type p (set_curr_pair p s)
  else s.

(** One turn of the [while] loop of [parse_def]: the switch, then
    [prev_lex = ltp->lex; ltp++;] and the test above. *)
Definition parse_def_iter (def_type : string) (s : def_state) : outcome def_state :=
  t ← deref (ds_l_file s) (ds_ltp s);
  s1 ← parse_def_switch def_type t s;
  t1 ← deref (ds_l_file s1) (ds_ltp s1);
  let s2 := set_ltp (S (ds_ltp s1)) (set_prev_lex (lex t1) s1) in
  t2 ← deref (ds_l_file s2) (ds_ltp s2);
  Ok (close_last_pair def_type t2 s2).

Fixpoint parse_def_loop (fuel : nat) (def_type : string) (s : def_state)
  : outcome def_state :=
  match fuel with
  | O => OutOfFuel
  | S fuel' =>
      t ← deref (ds_l_file s) (ds_ltp s);
      if decide (lex t = END_MARKER) then Ok s
      else s' ← parse_def_iter def_type s; parse_def_loop fuel' def_type s'
  end.

Definition init_def_state (ltp : nat) (l_file : list lexed_token) (e_file : parsed_expt_file)
  : def_state :=
  DefState ltp l_file e_file empty_pair ∅ [] [] NONE empty_variable.

(** The assignments after the loop. *)
Definition store_def (def_type def_label : string) (s : def_state) : parsed_expt_file :=
  let e := ds_e_file s in
  let pt := parsed_trial_info e in
  if decide (def_type = "trial") then
    set_trial_info (ParsedTrialSection (<[def_label := curr_trial s]> (trial_map pt))
                      (block_map pt) (session_map pt) (experiment pt)) e
  else if decide (def_type = "block") then
    set_trial_info (ParsedTrialSection (trial_map pt)
                      (<[def_label := curr_block s]> (block_map pt))
                      (session_map pt) (experiment pt)) e
  else if decide (def_type = "session") then
    set_trial_info (ParsedTrialSection (trial_map pt) (block_map pt)
                      (<[def_label := curr_session s]> (session_map pt))
                      (experiment pt)) e
  else e.

Definition parse_def (fuel : nat) (ltp : nat) (l_file : list lexed_token)
    (e_file : parsed_expt_file) (def_type def_label : string)
  : outcome (nat * list lexed_token * parsed_expt_file) :=
  s ← parse_def_loop fuel def_type (init_def_state ltp l_file e_file);
  Ok (ds_ltp s, ds_l_file s, store_def def_type def_label s).

(** *** parse_var_section

    The experiment-file and the build-file overloads run the same loop and
    differ in the document that receives the section. *)

Definition param_insert (k : string) (v : variable) (sec : parsed_var_section)
  : parsed_var_section :=
  ParsedVarSection (<[k := v]> (param_map sec)).

Fixpoint parse_var_section_loop (fuel : nat) (l_file : list lexed_token) (ltp : nat)
    (curr_section : parsed_var_section) : outcome (nat * parsed_var_section) :=
  match fuel with
  | O => OutOfFuel
  | S fuel' =>
      t ← deref l_file ltp;
      if decide (lex t = END_MARKER) then Ok (ltp, curr_section)
      else
        '(ltp1, sec1) ←
          (if decide (lex t = TYPE_NAME) then
             next_lt ← deref l_file (ltp + 1);
             if decide (lex next_lt = VAR_IDENTIFIER) then
               second_next_lt ← deref l_file (ltp + 2);
               if decide (lex second_next_lt = VAR_VALUE) then
                 let v := Variable_ (raw_token t) (raw_token next_lt)
                                    (raw_token second_next_lt) in
                 Ok (ltp + 2, param_insert (raw_token next_lt) v curr_section)
               else Ok (ltp, curr_section)
             else Ok (ltp, curr_section)
           else if decide (lex t = SINGLE_COMMENT) then
             ltp' ← skip_comment l_file ltp; Ok (ltp', curr_section)
           else Ok (ltp, curr_section));
        parse_var_section_loop fuel' l_file (S ltp1) sec1
  end.

Definition parse_var_section (fuel : nat) (ltp : nat) (l_file : list lexed_token)
    (e_file : parsed_expt_file) (region_type : string)
  : outcome (nat * list lexed_token * parsed_expt_file) :=
  '(ltp', sec) ← parse_var_section_loop fuel l_file ltp (ParsedVarSection ∅);
  Ok (ltp', l_file,
      ParsedExptFile (<[region_type := sec]> (parsed_var_sections e_file))
                     (parsed_trial_info e_file)).

Definition parse_var_section_build (fuel : nat) (ltp : nat) (l_file : list lexed_token)
    (b_file : parsed_build_file) (region_type : string)
  : outcome (nat * list lexed_token * parsed_build_file) :=
  '(ltp', sec) ← parse_var_section_loop fuel l_file ltp (ParsedVarSection ∅);
  Ok (ltp', l_file, ParsedBuildFile (<[region_type := sec]> (build_var_sections b_file))).

(** *** parse_trial_section *)

Fixpoint parse_trial_section (fuel : nat) (ltp : nat) (l_file : list lexed_token)
    (e_file : parsed_expt_file) : outcome (nat * list lexed_token * parsed_expt_file) :=
  match fuel with
  | O => OutOfFuel
  | S fuel' =>
      t ← deref l_file ltp;
      if decide (lex t = END_MARKER) then Ok (ltp, l_file, e_file)
      else
        '(ltp1, l_file1, e_file1) ←
          (if decide (lex t = DEF) then
             next_lt ← deref l_file (ltp + 1);
             if decide (lex next_lt = DEF_TYPE) then
               second_next_lt ← deref l_file (ltp + 2);
               if decide (lex second_next_lt = VAR_IDENTIFIER) then
                 parse_def fuel' (ltp + 4) l_file e_file
                           (raw_token next_lt) (raw_token second_next_lt)
               else Ok (ltp, l_file, e_file)
             else Ok (ltp, l_file, e_file)
           else if decide (lex t = SINGLE_COMMENT) then
             ltp' ← skip_comment l_file ltp; Ok (ltp', l_file, e_file)
           else Ok (ltp, l_file, e_file));
        parse_trial_section fuel' (S ltp1) l_file1 e_file1
  end.

(** *** parse_region

    [parse_region] is the dispatch; [parse_region_scan] is the [while] loop
    of its last branch, which calls [parse_region] again for every nested
    region. *)

Fixpoint parse_region (fuel : nat) (ltp : nat) (l_file : list lexed_token)
    (e_file : parsed_expt_file) (region_type : string) {struct fuel}
  : outcome (nat * list lexed_token * parsed_expt_file) :=
  match fuel with
  | O => OutOfFuel
  | S fuel' =>
      if decide (region_type = "mf_input" ∨ region_type = "activity"
                 ∨ region_type = "trial_spec") then
        parse_var_section fuel' ltp l_file e_file region_type
      else if decide (region_type = "trial_def") then
        parse_trial_section fuel' ltp l_file e_file
      else parse_region_scan fuel' ltp l_file e_file
  end
with parse_region_scan (fuel : nat) (ltp : nat) (l_file : list lexed_token)
    (e_file : parsed_expt_file) {struct fuel}
  : outcome (nat * list lexed_token * parsed_expt_file) :=
  match fuel with
  | O => OutOfFuel
  | S fuel' =>
      t ← deref l_file ltp;
      if decide (lex t = END_MARKER) then Ok (ltp, l_file, e_file)
      else
        '(ltp1, l_file1, e_file1) ←
          (if decide (lex t = BEGIN_MARKER) then
             next_lt ← deref l_file (ltp + 1);
             if decide (lex next_lt = REGION) then
               second_next_lt ← deref l_file (ltp + 2);
               if decide (lex second_next_lt = REGION_TYPE) then
                 parse_region fuel' (ltp + 4) l_file e_file (raw_token second_next_lt)
               else if decide (lex t = SINGLE_COMMENT) then
                 ltp' ← skip_comment l_file ltp; Ok (ltp', l_file, e_file)
               else Ok (ltp, l_file, e_file)
             else if decide (lex t = SINGLE_COMMENT) then
               ltp' ← skip_comment l_file ltp; Ok (ltp', l_file, e_file)
             else Ok (ltp, l_file, e_file)
           else if decide (lex t = SINGLE_COMMENT) then
             ltp' ← skip_comment l_file ltp; Ok (ltp', l_file, e_file)
           else Ok (ltp, l_file, e_file));
        parse_region_scan fuel' (S ltp1) l_file1 e_file1
  end.

Fixpoint parse_region_build (fuel : nat) (ltp : nat) (l_file : list lexed_token)
    (b_file : parsed_build_file) (region_type : string) {struct fuel}
  : outcome (nat * list lexed_token * parsed_build_file) :=
  match fuel with
  | O => OutOfFuel
  | S fuel' =>
      if decide (region_type = "connectivity") then
        parse_var_section_build fuel' ltp l_file b_file region_type
      else if decide (region_type = "activity") then
        parse_var_section_build fuel' ltp l_file b_file region_type
      else parse_region_build_scan fuel' ltp l_file b_file
  end
with parse_region_build_scan (fuel : nat) (ltp : nat) (l_file : list lexed_token)
    (b_file : parsed_build_file) {struct fuel}
  : outcome (nat * list lexed_token * parsed_build_file) :=
  match fuel with
  | O => OutOfFuel
  | S fuel' =>
      t ← deref l_file ltp;
      if decide (lex t = END_MARKER) then Ok (ltp, l_file, b_file)
      else
        '(ltp1, l_file1, b_file1) ←
          (if decide (lex t = BEGIN_MARKER) then
             next_lt ← deref l_file (ltp + 1);
             if decide (lex next_lt = REGION) then
               second_next_lt ← deref l_file (ltp + 2);
               if decide (lex second_next_lt = REGION_TYPE) then
                 parse_region_build fuel' (ltp + 4) l_file b_file (raw_token second_next_lt)
               else if decide (lex t = SINGLE_COMMENT) then
                 ltp' ← skip_comment l_file ltp; Ok (ltp', l_file, b_file)
               else Ok (ltp, l_file, b_file)
             else if decide (lex t = SINGLE_COMMENT) then
               ltp' ← skip_comment l_file ltp; Ok (ltp', l_file, b_file)
             else Ok (ltp, l_file, b_file)
           else if decide (lex t = SINGLE_COMMENT) then
             ltp' ← skip_comment l_file ltp; Ok (ltp', l_file, b_file)
           else Ok (ltp, l_file, b_file));
        parse_region_build_scan fuel' (S ltp1) l_file1 b_file1
  end.

(** *** The two entry points *)

(** The loop that looks for the first [begin]:
    [while (ltp->lex != BEGIN_MARKER) { if (ltp->lex == SINGLE_COMMENT)
    { while (ltp->lex != NEW_LINE) ltp++; } else if (ltp->lex != NEW_LINE)
    exit(1); ltp++; }].  Every turn moves [ltp] forward, so the walk is
    written by recursion on the tokens from [ltp] on; [in_comment] tells that
    the inner loop is running. *)
Fixpoint find_first_begin (in_comment : bool) (rest : list lexed_token) (ltp : nat)
  : outcome nat :=
  match rest with
  | [] => Undefined
  | t :: rest' =>
      if in_comment then
        find_first_begin (negb (bool_decide (lex t = NEW_LINE))) rest' (S ltp)
      else if decide (lex t = BEGIN_MARKER) then Ok ltp
      else if decide (lex t = SINGLE_COMMENT) then find_first_begin true rest' (S ltp)
      else if decide (lex t ≠ NEW_LINE) then Exit 1
      else find_first_begin false rest' (S ltp)
  end.

Definition parse_lexed_expt_file (fuel : nat) (l_file : list lexed_token)
    (e_file : parsed_expt_file) : outcome (list lexed_token * parsed_expt_file) :=
  ltp ← find_first_begin false l_file 0;
  next_lt ← deref l_file (ltp + 1);
  if decide (lex next_lt = REGION) then
    if decide (raw_token next_lt ≠ "filetype") then Exit 2
    else
      second_next_lt ← deref l_file (ltp + 2);
      if decide (raw_token second_next_lt ≠ "run") then Exit 3
      else
        '(_, l_file', e_file') ←
          parse_region fuel (ltp + 4) l_file e_file (raw_token second_next_lt);
        Ok (l_file', e_file')
  else Exit 4.

Definition parse_lexed_build_file (fuel : nat) (l_file : list lexed_token)
    (b_file : parsed_build_file) : outcome (list lexed_token * parsed_build_file) :=
  ltp ← find_first_begin false l_file 0;
  next_lt ← deref l_file (ltp + 1);
  if decide (lex next_lt = REGION) then
    if decide (raw_token next_lt ≠ "filetype") then Exit 2
    else
      second_next_lt ← deref l_file (ltp + 2);
      if decide (raw_token second_next_lt ≠ "build") then Exit 3
      else
        '(_, l_file', b_file') ←
          parse_region_build fuel (ltp + 4) l_file b_file (raw_token second_next_lt);
        Ok (l_file', b_file')
  else Exit 4.

(** ** Trial hierarchy resolver *)

Definition to_uint32 (z : Z) : Z := (z mod 2 ^ 32)%Z.

Definition INT_MIN : Z := (- 2 ^ 31)%Z.
Definition INT_MAX : Z := (2 ^ 31 - 1)%Z.

Fixpoint skip_space (s : string) : string :=
  match s with
  | EmptyString => EmptyString
  | String c s' => if isspace c then skip_space s' else s
  end.

Definition digit_val (c : ascii) : Z := (Z.of_N (N_of_ascii c) - 48)%Z.

(** The decimal digits at the head of [s]: their value, and [None] when
    there is none; then what follows them. *)
Fixpoint read_digits (s : string) (acc : option Z) : option Z * string :=
  match s with
  | EmptyString => (acc, EmptyString)
  | String c s' =>
      if cls_digit c then read_digits s' (Some (10 * default 0 acc + digit_val c))%Z
      else (acc, s)
  end.

Definition read_sign (s : string) : bool * string :=
  match s with
  | String c s' =>
      if is_char "-" c then (true, s')
      else if is_char "+" c then (false, s')
      else (false, s)
  | EmptyString => (false, s)
  end.

(** [std::stoi(str)]: leading white space, an optional sign, decimal digits;
    [invalid_argument] when no digit is there, [out_of_range] when the value
    does not fit an [int].  What follows the digits is ignored. *)
Definition stoi (str : string) : outcome Z :=
  let '(neg, s) := read_sign (skip_space str) in
  match fst (read_digits s None) with
  | None => Throw invalid_argument
  | Some v =>
      let n := if neg then (- v)%Z else v in
      if decide (INT_MIN ≤ n ≤ INT_MAX)%Z then Ok n else Throw out_of_range
  end.

(** A decimal literal [dec_mant * 10 ^ dec_exp]. *)
Record decimal := Decimal { dec_mant : Z; dec_exp : Z }.

Fixpoint count_digits (s : string) : Z :=
  match s with
  | EmptyString => 0
  | String c s' => if cls_digit c then (1 + count_digits s')%Z else 0%Z
  end.

(** [std::stof(str)] on decimal literals: sign, digits with an optional
    fraction, an optional exponent.  The result is the literal read, before
    it is rounded to a [float]; the range check of the conversion and the
    spellings of infinities, NaNs and hexadecimal literals are left out. *)
Definition stof (str : string) : outcome decimal :=
  let '(neg, s) := read_sign (skip_space str) in
  let '(ip, s1) := read_digits s None in
  let '(fp, nfrac, s2) :=
    match s1 with
    | String c r =>
        if cls_dot c then
          let '(fp, s2) := read_digits r ip in
          (if decide (count_digits r = 0%Z) then ip else fp, count_digits r, s2)
        else (ip, 0%Z, s1)
    | EmptyString => (ip, 0%Z, s1)
    end in
  match fp with
  | None => Throw invalid_argument
  | Some m =>
      let ex :=
        match s2 with
        | String c r =>
            if is_char "e" c || is_char "E" c then
              let '(eneg, r') := read_sign r in
              match fst (read_digits r' None) with
              | Some e => if eneg then (- e)%Z else e
              | None => 0%Z
              end
            else 0%Z
        | EmptyString => 0%Z
        end in
      Ok (Decimal (if neg then (- m)%Z else m) (ex - nfrac))
  end.

(** *** calculate_num_trials *)

(** The [for] loop of [calculate_num_trials_helper]; [rec] is the helper
    itself, called on a session or block with [temp_count] as its
    accumulator.  The result is [temp_sum]. *)
Fixpoint sum_counts (rec : list pair -> Z -> outcome Z) (pt_section : parsed_trial_section)
    (in_vec : list pair) (temp_sum : Z) : outcome Z :=
  match in_vec with
  | [] => Ok temp_sum
  | vec_pair :: rest =>
      c ← stoi (second vec_pair);
      let temp_count := to_uint32 c in
      temp_count' ←
        match session_map pt_section !! first vec_pair with
        | Some v => rec v temp_count
        | None =>
            match block_map pt_section !! first vec_pair with
            | Some v => rec v temp_count
            | None => Ok temp_count
            end
        end;
      sum_counts rec pt_section rest (to_uint32 (temp_sum + temp_count'))
  end.

(** Returns the new value of the reference parameter [temp_num_trials]. *)
Fixpoint calculate_num_trials_helper (fuel : nat) (pt_section : parsed_trial_section)
    (in_vec : list pair) (temp_num_trials : Z) : outcome Z :=
  match fuel with
  | O => OutOfFuel
  | S fuel' =>
      temp_sum ← sum_counts (calculate_num_trials_helper fuel' pt_section)
                            pt_section in_vec 0;
      Ok (to_uint32 (temp_num_trials * temp_sum))
  end.

Definition calculate_num_trials (fuel : nat) (pt_section : parsed_trial_section)
  : outcome Z :=
  calculate_num_trials_helper fuel pt_section (experiment pt_section) 1.

(** *** trials_data *)

Record trials_data := TrialsData {
  num_trials : Z;
  trial_names : list string;
  use_pfpc_plasts : list Z;
  use_mfnc_plasts : list Z;
  use_css : list Z;
  cs_onsets : list Z;
  cs_lens : list Z;
  cs_percents : list decimal;
  use_uss : list Z;
  us_onsets : list Z
}.

Definition set_trial_names (names : list string) (td : trials_data) : trials_data :=
  TrialsData (num_trials td) names (use_pfpc_plasts td) (use_mfnc_plasts td)
             (use_css td) (cs_onsets td) (cs_lens td) (cs_percents td)
             (use_uss td) (us_onsets td).

(** [calloc]: every array has [num_trials] zeroed cells; a zeroed name is
    read as the empty string. *)
Definition allocate_trials_data (td : trials_data) (count : Z) : trials_data :=
  let n := Z.to_nat count in
  TrialsData (num_trials td) (replicate n "") (replicate n 0%Z) (replicate n 0%Z)
             (replicate n 0%Z) (replicate n 0%Z) (replicate n 0%Z)
             (replicate n (Decimal 0 0)) (replicate n 0%Z) (replicate n 0%Z).

(** [std::find(td.trial_names, td.trial_names + td.num_trials, "")] *)
Fixpoint find_empty (names : list string) (i : nat) : option nat :=
  match names with
  | [] => None
  | x :: names' => if decide (x = "") then Some i else find_empty names' (S i)
  end.

(** [while (first_empty != initial_empty + this_num_trials)
    { *first_empty = label; first_empty++; }] with [n] cells left to write;
    no test keeps the pointer inside the array. *)
Fixpoint write_names (names : list string) (first_empty : nat) (n : nat) (label : string)
  : outcome (list string) :=
  match n with
  | O => Ok names
  | S n' =>
      if decide (first_empty < length names) then
        write_names (<[first_empty := label]> names) (S first_empty) n' label
      else Undefined
  end.

(** [for (ct_uint32_t i = 0; i < bound; i++) body] *)
Fixpoint for_loop {A} (n : nat) (body : A -> outcome A) (a : A) : outcome A :=
  match n with
  | O => Ok a
  | S n' => a' ← body a; for_loop n' body a'
  end.

(** The [for] loop of [initialize_trial_names_helper] over [in_vec]; [rec]
    is the helper itself.  The state is the array [td.trial_names]. *)
Fixpoint expand_names (rec : list string -> list pair -> outcome (list string))
    (pt_section : parsed_trial_section) (names : list string) (in_vec : list pair)
  : outcome (list string) :=
  match in_vec with
  | [] => Ok names
  | vec_pair :: rest =>
      names' ←
        match trial_map pt_section !! first vec_pair with
        | Some _ =>
            match find_empty names 0 with
            | Some first_empty =>
                c ← stoi (second vec_pair);
                let this_num_trials := to_uint32 c in
                write_names names first_empty (Z.to_nat this_num_trials) (first vec_pair)
            | None => Ok names
            end
        | None =>
            c ← stoi (second vec_pair);
            for_loop (Z.to_nat (to_uint32 c))
              (fun names =>
                 match block_map pt_section !! first vec_pair with
                 | Some v => rec names v
                 | None =>
                     match session_map pt_section !! first vec_pair with
                     | Some v => rec names v
                     | None => Ok names
                     end
                 end) names
        end;
      expand_names rec pt_section names' rest
  end.

Fixpoint initialize_trial_names_helper (fuel : nat) (pt_section : parsed_trial_section)
    (names : list string) (in_vec : list pair) : outcome (list string) :=
  match fuel with
  | O => OutOfFuel
  | S fuel' =>
      expand_names (initialize_trial_names_helper fuel' pt_section) pt_section names in_vec
  end.

(** [pt_section.trial_map[name][field].value]; an absent trial or field
    reads as a value-initialised [variable].  (The entry [operator[]] adds
    to the map in that case is not kept: nothing reads the map afterwards.) *)
Definition trial_field (pt_section : parsed_trial_section) (name field : string) : string :=
  value (default empty_variable (default ∅ (trial_map pt_section !! name) !! field)).

(** The body of the loop of [initialize_trials_data] for index [i]. *)
Definition initialize_trial (pt_section : parsed_trial_section) (i : nat) (td : trials_data)
  : outcome trials_data :=
  let name := default "" (trial_names td !! i) in
  a ← stoi (trial_field pt_section name "use_cs");
  b ← stoi (trial_field pt_section name "use_pfpc_plast");
  c ← stoi (trial_field pt_section name "use_mfnc_plast");
  d ← stoi (trial_field pt_section name "cs_onset");
  e ← stoi (trial_field pt_section name "cs_len");
  f ← stof (trial_field pt_section name "cs_percent");
  g ← stoi (trial_field pt_section name "use_us");
  h ← stoi (trial_field pt_section name "us_onset");
  Ok (TrialsData (num_trials td) (trial_names td)
        (<[i := to_uint32 b]> (use_pfpc_plasts td))
        (<[i := to_uint32 c]> (use_mfnc_plasts td))
        (<[i := to_uint32 a]> (use_css td))
        (<[i := to_uint32 d]> (cs_onsets td))
        (<[i := to_uint32 e]> (cs_lens td))
        (<[i := f]> (cs_percents td))
        (<[i := to_uint32 g]> (use_uss td))
        (<[i := to_uint32 h]> (us_onsets td))).

Fixpoint initialize_trials (pt_section : parsed_trial_section) (idx : list nat)
    (td : trials_data) : outcome trials_data :=
  match idx with
  | [] => Ok td
  | i :: idx' => td' ← initialize_trial pt_section i td; initialize_trials pt_section idx' td'
  end.

Definition initialize_trials_data (fuel : nat) (td : trials_data)
    (pt_section : parsed_trial_section) : outcome trials_data :=
  names ← initialize_trial_names_helper fuel pt_section (trial_names td)
            (experiment pt_section);
  initialize_trials pt_section (seq 0 (Z.to_nat (num_trials td)))
                    (set_trial_names names td).

Definition translate_parsed_trials (fuel : nat) (pe_file : parsed_expt_file)
    (td : trials_data) : outcome trials_data :=
  n ← calculate_num_trials fuel (parsed_trial_info pe_file);
  let td1 := TrialsData n (trial_names td) (use_pfpc_plasts td) (use_mfnc_plasts td)
               (use_css td) (cs_onsets td) (cs_lens td) (cs_percents td)
               (use_uss td) (us_onsets td) in
  initialize_trials_data fuel (allocate_trials_data td1 n) (parsed_trial_info pe_file).

Definition empty_trials_data : trials_data := TrialsData 0 [] [] [] [] [] [] [] [] [].

(** The whole chain from the text of an experiment file to the trial table. *)
Definition read_experiment (fuel : nat) (in_file : option string) : outcome trials_data :=
  t_file ← tokenize_file in_file [];
  let l_file := lex_tokenized_file t_file [] in
  '(_, e_file) ← parse_lexed_expt_file fuel l_file empty_expt_file;
  translate_parsed_trials fuel e_file empty_trials_data.

(** * Notions used by the statements *)

(** ** Lexer *)

(** The keys of [token_defs] that are words of the language: all but the
    two pattern strings. *)
Definition keywords : list string :=
  [ "begin"; "end"; "filetype"; "section"; "build"; "run"; "connectivity";
    "activity"; "trial_def"; "mf_input"; "trial_spec"; "int"; "float"; "def";
    "trial"; "block"; "session"; "experiment"; "//"; "/*"; "*/" ].

(** The classification order as the specification words it: a token found
    by the exact lookup is never a [VAR_IDENTIFIER] or a [VAR_VALUE]; a
    token not found is an identifier when the identifier pattern matches,
    else a value when the value pattern matches, else [NONE]. *)
Definition lookup_first_as_specified : Prop :=
  forall raw : string,
    (is_Some (map_find token_defs raw) ->
       lex (lex_raw_token raw) ≠ VAR_IDENTIFIER ∧ lex (lex_raw_token raw) ≠ VAR_VALUE)
    ∧ (map_find token_defs raw = None ->
       lex (lex_raw_token raw) =
         if regex_match raw var_id_regex then VAR_IDENTIFIER
         else if regex_match raw var_val_regex then VAR_VALUE
         else NONE).

(** ** Tokenizer *)

Fixpoint no_space (s : string) : bool :=
  match s with
  | EmptyString => true
  | String c s' => negb (isspace c) && no_space s'
  end.

Fixpoint all_space (s : string) : bool :=
  match s with
  | EmptyString => true
  | String c s' => isspace c && all_space s'
  end.

(** [s] is empty or begins with white space. *)
Definition token_boundary (s : string) : Prop :=
  match s with
  | EmptyString => True
  | String c _ => isspace c = true
  end.

(** [delimited line toks]: [toks] are the maximal runs of characters other
    than white space of [line], from left to right. *)
Inductive delimited : string -> list string -> Prop :=
| delimited_end : delimited "" []
| delimited_space c s toks :
    isspace c = true -> delimited s toks -> delimited (String c s) toks
| delimited_token tok s toks :
    tok ≠ "" -> no_space tok = true -> token_boundary s ->
    delimited s toks -> delimited (tok +:+ s) (tok :: toks).

(** Blank lines as the specification words it: no line of the output is
    empty. *)
Definition no_empty_raw_line_as_specified : Prop :=
  forall (buf : string) (t_file : tokenized_file),
    tokenize_file (Some buf) [] = Ok t_file -> [] ∉ t_file.

(** ** File header *)

(** The lexed form of a file. *)
Definition lex_text (buf : string) : list lexed_token :=
  lex_tokenized_file (tokenize_lines (read_lines buf) []) [].

(** The header the entry points accept: the first [begin] is followed by
    the region [filetype] and by the region type [kind]. *)
Definition header_is (kind : string) (l_file : list lexed_token) : Prop :=
  exists ltp next_lt second_next_lt,
    find_first_begin false l_file 0 = Ok ltp
    ∧ l_file !! (ltp + 1) = Some next_lt
    ∧ lex next_lt = REGION ∧ raw_token next_lt = "filetype"
    ∧ l_file !! (ltp + 2) = Some second_next_lt
    ∧ raw_token second_next_lt = kind.

(** ** Example files *)

Definition line_feed : string := String (ascii_of_nat 10) "".

(** The text of a file from its lines. *)
Definition file_text (lines : list string) : string :=
  fold_right (fun line text => line +:+ line_feed +:+ text) "" lines.

(** An experiment file whose [trial_def] section defines the trial [t1],
    with its eight fields, followed by [defs]. *)
Definition experiment_file (defs : list string) : string :=
  file_text
    ([ "begin filetype run";
       "  begin section trial_def";
       "    def trial t1";
       "      int use_cs 1";
       "      int cs_onset 100";
       "      int cs_len 500";
       "      float cs_percent 100";
       "      int use_pfpc_plast 1";
       "      int use_mfnc_plast 0";
       "      int use_us 1";
       "      int us_onset 450";
       "    end" ]
     ++ defs
     ++ [ "  end";
          "end" ]).

(** The layouts of the tokens [def experiment t1 5 end] over lines. *)
Definition unlabelled_experiment_layouts : list (list string) :=
  [ [ "    def experiment  t1 5 end" ];
    [ "    def experiment  t1 5"; "    end" ];
    [ "    def experiment  t1"; "      5"; "    end" ];
    [ "    def experiment"; "      t1 5"; "    end" ];
    [ "    def experiment"; "      t1 5 end" ];
    [ "    def"; "experiment"; "t1"; "5"; "end" ] ].

(** The layout the parser reads: the header [def experiment <label>] on a
    line of its own. *)
Definition labelled_experiment : list string :=
  [ "    def experiment e1"; "      t1 5"; "    end" ].

(** The end-to-end example as the specification words it, for a layout
    [defs] of the experiment definition. *)
Definition example_resolves_as_specified (defs : list string) : Prop :=
  exists fuel td,
    read_experiment fuel (Some (experiment_file defs)) = Ok td
    ∧ num_trials td = 5%Z
    ∧ trial_names td = ["t1"; "t1"; "t1"; "t1"; "t1"]
    ∧ use_css td = [1; 1; 1; 1; 1]%Z
    ∧ cs_onsets td = [100; 100; 100; 100; 100]%Z.

(** ** Fuel *)

(** [o1 ⊑ o2]: [o2] is what [o1] becomes with more fuel. *)
Definition refines {A} (o1 o2 : outcome A) : Prop := o1 = OutOfFuel ∨ o1 = o2.
Infix "⊑" := refines (at level 70).

(** ** Unresolved labels *)

(** [label] names no trial, no block and no session. *)
Definition unresolved (pt : parsed_trial_section) (label : string) : Prop :=
  trial_map pt !! label = None
  ∧ block_map pt !! label = None
  ∧ session_map pt !! label = None.

(** ** The trial count *)

(** [total pt in_vec n]: [n] is the number of trials [in_vec] stands for,
    read off the hierarchy as the specification words it: the sum over the
    pairs of [in_vec] of the pair's count times the total of the session or
    block its label names, or of the count alone when the label names
    neither.  Counts are the integers [std::stoi] reads; the sum is taken in
    the integers, without wrap-around. *)
Inductive total (pt : parsed_trial_section) : list pair -> Z -> Prop :=
| total_nil : total pt [] 0
| total_session p rest c v t n :
    stoi (second p) = Ok c ->
    session_map pt !! first p = Some v ->
    total pt v t -> total pt rest n ->
    total pt (p :: rest) (c * t + n)
| total_block p rest c v t n :
    stoi (second p) = Ok c ->
    session_map pt !! first p = None ->
    block_map pt !! first p = Some v ->
    total pt v t -> total pt rest n ->
    total pt (p :: rest) (c * t + n)
| total_leaf p rest c n :
    stoi (second p) = Ok c ->
    session_map pt !! first p = None ->
    block_map pt !! first p = None ->
    total pt rest n ->
    total pt (p :: rest) (c + n).

(** The list the count computation descends into at [label], if any: the
    session of that name, else the block of that name. *)
Definition container (pt : parsed_trial_section) (label : string) : option (list pair) :=
  match session_map pt !! label with
  | Some v => Some v
  | None => block_map pt !! label
  end.

(** The reference graph has no cycle: [rank] decreases along every
    reference from a session or block to a session or block. *)
Definition acyclic (pt : parsed_trial_section) (rank : string -> nat) : Prop :=
  forall label v p,
    container pt label = Some v -> p ∈ v ->
    is_Some (container pt (first p)) -> rank (first p) < rank label.

(** Every count of the hierarchy is one [std::stoi] reads. *)
Definition counts_readable (pt : parsed_trial_section) : Prop :=
  (forall p, p ∈ experiment pt -> exists c, stoi (second p) = Ok c)
  ∧ (forall label v p, container pt label = Some v -> p ∈ v ->
       exists c, stoi (second p) = Ok c).

(** The hierarchy of the specification's example: [A] and [C] are trials,
    [B] is a block holding [(C, 4)], the experiment is [(A, 2); (B, 3)]. *)
Definition example_hierarchy : parsed_trial_section :=
  ParsedTrialSection {[ "A" := ∅; "C" := ∅ ]} {[ "B" := [Pair "C" "4"] ]} ∅
                     [Pair "A" "2"; Pair "B" "3"].

(** ** A definition the parser never leaves *)

(** Every [begin] of this file has its [end]; it defines one block and
    refers to nothing.  The block holds a comment between [/*] and [*/]. *)
Definition commented_block_file : string :=
  file_text
    [ "begin filetype run";
      "  begin section trial_def";
      "    def block b1";
      "      t1 /* acquisition */ 2";
      "    end";
      "  end";
      "end" ].

(** ** The body of a definition *)

(** The state of [parse_def] with the token vector split at [ltp]: [pre]
    are the tokens before [ltp], [rest] those from [ltp] on. *)
Definition cursor (pre rest : list lexed_token) (e : parsed_expt_file) (cp : pair)
    (ct : gmap string variable) (cb cs : list pair) (pl : lexeme) (cv : variable)
  : def_state :=
  DefState (length pre) (pre ++ rest) e cp ct cb cs pl cv.

(** What [push_pair] does to each of the three places a pair can go. *)
Definition file_block (def_type : string) (cb : list pair) (p : pair) : list pair :=
  if decide (def_type = "block") then cb ++ [p] else cb.
Definition file_session (def_type : string) (cs : list pair) (p : pair) : list pair :=
  if decide (def_type = "block") then cs
  else if decide (def_type = "session") then cs ++ [p] else cs.
Definition file_experiment (def_type : string) (e : parsed_expt_file) (p : pair)
  : parsed_expt_file :=
  if decide (def_type = "block") then e
  else if decide (def_type = "session") then e
  else if decide (def_type = "experiment") then experiment_push_back p e else e.

(** The body of a block, session or experiment definition, token by
    token: [NEW_LINE] sentinels, comments running to the end of their line,
    identifiers and value tokens. *)
Inductive body_item :=
| ItemNewLine
| ItemComment (words : list lexed_token)
| ItemIdentifier (label : string)
| ItemValue (v : string).

Definition item_tokens (i : body_item) : list lexed_token :=
  match i with
  | ItemNewLine => [new_line_token]
  | ItemComment words => LexedToken SINGLE_COMMENT "//" :: words ++ [new_line_token]
  | ItemIdentifier label => [LexedToken VAR_IDENTIFIER label]
  | ItemValue v => [LexedToken VAR_VALUE v]
  end.

Definition body_tokens (body : list body_item) : list lexed_token :=
  concat (map item_tokens body).

(** The body follows the grammar [VarIdentifier [VarValue]]: a value token
    comes only for an identifier that has none yet ([waiting] is that
    identifier), with nothing but sentinels and comments in between.  A
    label is a token, hence not empty; the words of a comment are the
    tokens of its line, none of them the sentinel. *)
Fixpoint body_wf (waiting : option string) (body : list body_item) : Prop :=
  match body with
  | [] => True
  | ItemNewLine :: body' => body_wf waiting body'
  | ItemComment words :: body' =>
      Forall (fun t => lex t ≠ NEW_LINE) words ∧ body_wf waiting body'
  | ItemIdentifier label :: body' => label ≠ "" ∧ body_wf (Some label) body'
  | ItemValue _ :: body' => is_Some waiting ∧ body_wf None body'
  end.

(** The pair filed for an identifier that gets no value. *)
Definition waiting_pairs (waiting : option string) : list pair :=
  match waiting with
  | Some label => [Pair label "1"]
  | None => []
  end.

(** The pairs the specification expects from a body, [waiting] being the
    identifier read last if it has no value yet: one pair per identifier, in
    order, with the value token that follows the identifier, or with ["1"]
    when the identifier is followed by another identifier or by the end of
    the body. *)
Fixpoint body_pairs (waiting : option string) (body : list body_item) : list pair :=
  match body with
  | [] => waiting_pairs waiting
  | ItemIdentifier label :: body' => waiting_pairs waiting ++ body_pairs (Some label) body'
  | ItemValue v :: body' =>
      match waiting with
      | Some label => Pair label v :: body_pairs None body'
      | None => body_pairs None body'
      end
  | _ :: body' => body_pairs waiting body'
  end.

Definition end_token : lexed_token := LexedToken END_MARKER "end".

(** The pair under construction while an identifier waits for its value. *)
Definition waiting_pair (waiting : option string) : pair :=
  match waiting with
  | Some label => Pair label ""
  | None => empty_pair
  end.

(** A token the switch of [parse_def] has no case for, a type name
    included outside a trial definition. *)
Definition inert (l : lexeme) : Prop :=
  l ≠ VAR_IDENTIFIER ∧ l ≠ VAR_VALUE ∧ l ≠ SINGLE_COMMENT.

(** The token [ltp] stands on when [body] is still to be read, [t_end]
    being the [end] of the definition. *)
Definition next_token (t_end : lexed_token) (body : list body_item) : lexed_token :=
  hd t_end (body_tokens body ++ [t_end]).

(** What the loop of [parse_def] relies on while an identifier waits for
    its value: the token before [ltp] is that identifier or a [NEW_LINE],
    and [prev_lex] is its lexeme. *)
Definition waiting_ok (waiting : option string) (pre : list lexed_token) (pl : lexeme)
  : Prop :=
  match waiting with
  | None => True
  | Some label =>
      label ≠ "" ∧ (pl = VAR_IDENTIFIER ∨ pl = NEW_LINE)
      ∧ exists pre0 before, pre = pre0 ++ [before] ∧ lex before = pl
  end.

(** ** What the parsers leave behind *)

(** [l'] is [l] with shadow tokens inserted: nothing else was added,
    nothing was removed or reordered. *)
Definition shadowed (l l' : list lexed_token) : Prop :=
  l `sublist_of` l'
  ∧ filter (fun t => t ≠ shadow_token) l' = filter (fun t => t ≠ shadow_token) l.

(** [at_end l ltp]: [ltp] stands on an [END_MARKER] of [l]. *)
Definition at_end (l : list lexed_token) (ltp : nat) : Prop :=
  exists t, l !! ltp = Some t ∧ lex t = END_MARKER.

(** An experiment file with two blocks, one of them with identifiers
    without a count, used to exercise the statements. *)
Definition two_block_file : string :=
  file_text
    [ "begin filetype run";
      "  begin section trial_def";
      "    def block b1";
      "      t1 2";
      "      t2 t3";
      "    end";
      "    def block b2";
      "      b1";
      "    end";
      "  end";
      "end" ].

(** ** The body of a variable section or of a trial definition *)

(** Token by token: [NEW_LINE] sentinels, comments running to the end of
    their line, declarations [<type> <identifier> <value>], a type name that
    no declaration follows, and any other token. *)
Inductive section_item :=
| SecNewLine
| SecComment (words : list lexed_token)
| SecDecl (ty id v : string)
| SecBareType (ty : string)
| SecOther (t : lexed_token).

Definition section_item_tokens (i : section_item) : list lexed_token :=
  match i with
  | SecNewLine => [new_line_token]
  | SecComment words => LexedToken SINGLE_COMMENT "//" :: words ++ [new_line_token]
  | SecDecl ty id v =>
      [LexedToken TYPE_NAME ty; LexedToken VAR_IDENTIFIER id; LexedToken VAR_VALUE v]
  | SecBareType ty => [LexedToken TYPE_NAME ty]
  | SecOther t => [t]
  end.

Definition section_tokens (body : list section_item) : list lexed_token :=
  concat (map section_item_tokens body).

(** The two tokens behind a type name do not make a declaration. *)
Definition no_declaration (following : list lexed_token) : Prop :=
  match following with
  | n :: s :: _ => ¬ (lex n = VAR_IDENTIFIER ∧ lex s = VAR_VALUE)
  | _ => True
  end.

(** A body as [parse_var_section] reads it, [t_end] being the [end] of the
    section: the words of a comment are not sentinels, a lone type name is
    not followed by an identifier and a value, and a token on its own is no
    type name, no comment marker and no [end]. *)
Fixpoint section_wf (t_end : lexed_token) (body : list section_item) : Prop :=
  match body with
  | [] => True
  | i :: body' =>
      match i with
      | SecComment words => Forall (fun t => lex t ≠ NEW_LINE) words
      | SecBareType _ => no_declaration (section_tokens body' ++ [t_end])
      | SecOther t =>
          lex t ≠ TYPE_NAME ∧ lex t ≠ SINGLE_COMMENT ∧ lex t ≠ END_MARKER
      | _ => True
      end
      ∧ section_wf t_end body'
  end.

(** The variables a body declares, in order. *)
Fixpoint section_decls (body : list section_item) : list variable :=
  match body with
  | [] => []
  | SecDecl ty id v :: body' => Variable_ ty id v :: section_decls body'
  | _ :: body' => section_decls body'
  end.

(** [m[identifier] = v] for each of [vs], from left to right. *)
Definition declare_all (vs : list variable) (m : gmap string variable)
  : gmap string variable :=
  fold_left (fun m v => <[identifier v := v]> m) vs m.

(** The body of a trial definition that follows the grammar: sentinels,
    comments and declarations only. *)
Fixpoint trial_wf (body : list section_item) : Prop :=
  match body with
  | [] => True
  | SecNewLine :: body' => trial_wf body'
  | SecComment words :: body' => Forall (fun t => lex t ≠ NEW_LINE) words ∧ trial_wf body'
  | SecDecl _ _ _ :: body' => trial_wf body'
  | _ :: _ => False
  end.

(** ** What may stand before the first [begin] *)

(** Sentinels and comments only. *)
Fixpoint blank_wf (lead : list section_item) : Prop :=
  match lead with
  | [] => True
  | SecNewLine :: lead' => blank_wf lead'
  | SecComment words :: lead' => Forall (fun t => lex t ≠ NEW_LINE) words ∧ blank_wf lead'
  | _ :: _ => False
  end.

(** ** The name expansion *)

(** [expansion pt in_vec names]: [names] is the depth-first expansion of
    [in_vec], with the look-up order of [initialize_trial_names_helper]: a
    label that names a trial stands for as many copies of itself as its
    count says, a label that names a block, else a session, for as many
    copies of that list's expansion.  The count is the [ct_uint32_t] the
    loops compare against. *)
Inductive expansion (pt : parsed_trial_section) : list pair -> list string -> Prop :=
| expansion_nil : expansion pt [] []
| expansion_trial p rest c fields names :
    trial_map pt !! first p = Some fields ->
    stoi (second p) = Ok c ->
    expansion pt rest names ->
    expansion pt (p :: rest) (replicate (Z.to_nat (to_uint32 c)) (first p) ++ names)
| expansion_block p rest c v inner names :
    trial_map pt !! first p = None ->
    block_map pt !! first p = Some v ->
    stoi (second p) = Ok c ->
    expansion pt v inner -> expansion pt rest names ->
    expansion pt (p :: rest) (concat (replicate (Z.to_nat (to_uint32 c)) inner) ++ names)
| expansion_session p rest c v inner names :
    trial_map pt !! first p = None ->
    block_map pt !! first p = None ->
    session_map pt !! first p = Some v ->
    stoi (second p) = Ok c ->
    expansion pt v inner -> expansion pt rest names ->
    expansion pt (p :: rest) (concat (replicate (Z.to_nat (to_uint32 c)) inner) ++ names).


(** ** The rows of the trial table *)







(** ** An experiment file, token by token *)

(** A definition of the trial section: [def <type> <label>], one more token
    that [ltp += 4] steps over without a look, the body, [end]. *)
Inductive definition :=
| DefTrial (label : string) (skipped : lexed_token) (body : list section_item)
| DefContainer (def_type label : string) (skipped : lexed_token) (body : list body_item).

Definition def_header (def_type label : string) (skipped : lexed_token) : list lexed_token :=
  [LexedToken DEF "def"; LexedToken DEF_TYPE def_type; LexedToken VAR_IDENTIFIER label;
   skipped].

Definition definition_tokens (d : definition) : list lexed_token :=
  match d with
  | DefTrial label skipped body =>
      def_header "trial" label skipped ++ section_tokens body ++ [end_token]
  | DefContainer def_type label skipped body =>
      def_header def_type label skipped ++ body_tokens body ++ [end_token]
  end.

Definition definition_wf (d : definition) : Prop :=
  match d with
  | DefTrial _ _ body => trial_wf body
  | DefContainer def_type _ _ body =>
      def_type ∈ ["block"; "session"; "experiment"] ∧ body_wf None body
  end.

(** What a definition adds to the document: a trial its fields, a block or
    a session its pairs, each under its label and in place of what the label
    held; an experiment its pairs behind those already there. *)
Definition define (d : definition) (e : parsed_expt_file) : parsed_expt_file :=
  let pt := parsed_trial_info e in
  match d with
  | DefTrial label _ body =>
      set_trial_info
        (ParsedTrialSection (<[label := declare_all (section_decls body) ∅]> (trial_map pt))
           (block_map pt) (session_map pt) (experiment pt)) e
  | DefContainer def_type label _ body =>
      let pairs := body_pairs None body in
      if decide (def_type = "block") then
        set_trial_info
          (ParsedTrialSection (trial_map pt) (<[label := pairs]> (block_map pt))
             (session_map pt) (experiment pt)) e
      else if decide (def_type = "session") then
        set_trial_info
          (ParsedTrialSection (trial_map pt) (block_map pt)
             (<[label := pairs]> (session_map pt)) (experiment pt)) e
      else
        set_trial_info
          (ParsedTrialSection (trial_map pt) (block_map pt) (session_map pt)
             (experiment pt ++ pairs)) e
  end.

(** The trial section between its header and its [end]: definitions, with
    comments and tokens that start nothing (the sentinels among them) around
    them. *)
Inductive trial_item :=
| TsSkip (t : lexed_token)
| TsComment (words : list lexed_token)
| TsDef (d : definition).

Definition trial_item_tokens (i : trial_item) : list lexed_token :=
  match i with
  | TsSkip t => [t]
  | TsComment words => LexedToken SINGLE_COMMENT "//" :: words ++ [new_line_token]
  | TsDef d => definition_tokens d
  end.

Definition trial_items_tokens (items : list trial_item) : list lexed_token :=
  concat (map trial_item_tokens items).

Definition trial_item_wf (i : trial_item) : Prop :=
  match i with
  | TsSkip t => lex t ≠ END_MARKER ∧ lex t ≠ DEF ∧ lex t ≠ SINGLE_COMMENT
  | TsComment words => Forall (fun t => lex t ≠ NEW_LINE) words
  | TsDef d => definition_wf d
  end.

Definition trial_item_document (e : parsed_expt_file) (i : trial_item) : parsed_expt_file :=
  match i with
  | TsDef d => define d e
  | _ => e
  end.

(** The regions between [begin filetype run] and the [end] of the file:
    variable sections and trial sections, each [begin section <type>], one
    more token that is stepped over, the content, [end]. *)
Inductive region :=
| RgSkip (t : lexed_token)
| RgComment (words : list lexed_token)
| RgVar (region_type : string) (skipped : lexed_token) (body : list section_item)
| RgTrials (skipped : lexed_token) (items : list trial_item).

Definition region_header (region_type : string) (skipped : lexed_token)
  : list lexed_token :=
  [LexedToken BEGIN_MARKER "begin"; LexedToken REGION "section";
   LexedToken REGION_TYPE region_type; skipped].

Definition region_tokens (r : region) : list lexed_token :=
  match r with
  | RgSkip t => [t]
  | RgComment words => LexedToken SINGLE_COMMENT "//" :: words ++ [new_line_token]
  | RgVar region_type skipped body =>
      region_header region_type skipped ++ section_tokens body ++ [end_token]
  | RgTrials skipped items =>
      region_header "trial_def" skipped ++ trial_items_tokens items ++ [end_token]
  end.

Definition regions_tokens (regions : list region) : list lexed_token :=
  concat (map region_tokens regions).

Definition region_wf (r : region) : Prop :=
  match r with
  | RgSkip t => lex t ≠ END_MARKER ∧ lex t ≠ BEGIN_MARKER ∧ lex t ≠ SINGLE_COMMENT
  | RgComment words => Forall (fun t => lex t ≠ NEW_LINE) words
  | RgVar region_type _ body =>
      region_type ∈ ["mf_input"; "activity"; "trial_spec"] ∧ section_wf end_token body
  | RgTrials _ items => Forall trial_item_wf items
  end.

Definition region_document (e : parsed_expt_file) (r : region) : parsed_expt_file :=
  match r with
  | RgVar region_type _ body =>
      ParsedExptFile
        (<[region_type := ParsedVarSection (declare_all (section_decls body) ∅)]>
           (parsed_var_sections e))
        (parsed_trial_info e)
  | RgTrials _ items => fold_left trial_item_document items e
  | _ => e
  end.

(** The whole file: sentinels and comments, the header, the regions, the
    [end] of the file, and whatever follows it. *)
Definition run_file_tokens (lead : list section_item) (skipped : lexed_token)
    (regions : list region) (suf : list lexed_token) : list lexed_token :=
  section_tokens lead
  ++ [LexedToken BEGIN_MARKER "begin"; LexedToken REGION "filetype";
      LexedToken REGION_TYPE "run"; skipped]
  ++ regions_tokens regions ++ end_token :: suf.

(** An experiment file with a variable section and a trial section, comments
    before the header and behind a declaration. *)
Definition sample_run_file : string :=
  file_text
    [ "// a session of two kinds of trials";
      "begin filetype run";
      "  begin section mf_input";
      "    int num_mf 4096 // mossy fibres";
      "    float rate 0.5";
      "  end";
      "  begin section trial_def";
      "    def trial t1";
      "      int use_cs 1";
      "      int cs_onset 100";
      "    end";
      "    def block b1";
      "      t1 2";
      "    end";
      "    def experiment e1";
      "      b1 3";
      "      t1";
      "    end";
      "  end";
      "end" ].

(** ** A build file, token by token *)

(** The regions of a build file: variable sections [connectivity] and
    [activity]. *)
Definition build_region_wf (r : region) : Prop :=
  match r with
  | RgSkip t => lex t ≠ END_MARKER ∧ lex t ≠ BEGIN_MARKER ∧ lex t ≠ SINGLE_COMMENT
  | RgComment words => Forall (fun t => lex t ≠ NEW_LINE) words
  | RgVar region_type _ body =>
      region_type ∈ ["connectivity"; "activity"] ∧ section_wf end_token body
  | RgTrials _ _ => False
  end.

Definition build_region_document (b : parsed_build_file) (r : region) : parsed_build_file :=
  match r with
  | RgVar region_type _ body =>
      ParsedBuildFile
        (<[region_type := ParsedVarSection (declare_all (section_decls body) ∅)]>
           (build_var_sections b))
  | _ => b
  end.

Definition build_file_tokens (lead : list section_item) (skipped : lexed_token)
    (regions : list region) (suf : list lexed_token) : list lexed_token :=
  section_tokens lead
  ++ [LexedToken BEGIN_MARKER "begin"; LexedToken REGION "filetype";
      LexedToken REGION_TYPE "build"; skipped]
  ++ regions_tokens regions ++ end_token :: suf.

(** A build file with its two sections and a second [activity] section. *)
Definition sample_build_file : string :=
  file_text
    [ "begin filetype build";
      "  begin section connectivity";
      "    int mf_x 128";
      "    int mf_y 32";
      "  end";
      "  begin section activity";
      "    float threshold 0.25";
      "  end";
      "  // the later section takes the place of the earlier";
      "  begin section activity";
      "    float leak 0.5";
      "  end";
      "end" ].

(** ** The shape of identifiers and values *)

(** The language of a pattern, as the grammar of regular expressions
    defines it. *)
Inductive matches : regex -> string -> Prop :=
| matches_eps : matches Eps ""
| matches_class p c : p c = true -> matches (Class p) (String c "")
| matches_seq r1 r2 s1 s2 :
    matches r1 s1 -> matches r2 s2 -> matches (Seq r1 r2) (s1 +:+ s2)
| matches_alt_l r1 r2 s : matches r1 s -> matches (Alt r1 r2) s
| matches_alt_r r1 r2 s : matches r2 s -> matches (Alt r1 r2) s
| matches_star_nil r : matches (Star r) ""
| matches_star_app r s1 s2 :
    matches r s1 -> matches (Star r) s2 -> matches (Star r) (s1 +:+ s2).

Fixpoint all_chars (p : ascii -> bool) (s : string) : bool :=
  match s with
  | EmptyString => true
  | String c s' => p c && all_chars p s'
  end.

(** A letter or an underscore, then letters, digits and underscores. *)
Definition identifier_shape (raw : string) : Prop :=
  exists c rest,
    raw = String c rest ∧ cls_alpha_ c = true ∧ all_chars cls_alnum_ rest = true.

Definition sign_shape (s : string) : Prop := s = "" ∨ s = "+" ∨ s = "-".

(** An optional sign; optionally digits and a dot; digits; optionally an
    exponent [e], with an optional sign and at least one digit.  Every part
    may be missing. *)
Definition value_shape (raw : string) : Prop :=
  exists sgn lead digits expo,
    raw = sgn +:+ lead +:+ digits +:+ expo
    ∧ sign_shape sgn
    ∧ (lead = "" ∨ exists d, lead = d +:+ "." ∧ all_chars cls_digit d = true)
    ∧ all_chars cls_digit digits = true
    ∧ (expo = ""
       ∨ exists sg d, expo = "e" +:+ sg +:+ d ∧ sign_shape sg
                      ∧ d ≠ "" ∧ all_chars cls_digit d = true).

(** ** Printing

    [tokenized_file_to_str] and [lexed_file_to_str] write one entry per
    token into a string stream; the stream is the string built so far. *)

(** The look-up table of the names of the lexemes.  [NEW_LINE] has no
    entry. *)
Definition lex_string_look_up : list (lexeme * string) :=
  [ (NONE, "NONE");
    (BEGIN_MARKER, "BEGIN_MARKER");
    (END_MARKER, "END_MARKER");
    (REGION, "REGION");
    (REGION_TYPE, "REGION_TYPE");
    (TYPE_NAME, "TYPE_NAME");
    (VAR_IDENTIFIER, "VAR_IDENTIFIER");
    (VAR_VALUE, "VAR_VALUE");
    (DEF, "DEF");
    (DEF_TYPE, "DEF_TYPE");
    (SINGLE_COMMENT, "SINGLE_COMMENT");
    (DOUBLE_COMMENT_BEGIN, "DOUBLE_COMMENT_BEGIN");
    (DOUBLE_COMMENT_END, "DOUBLE_COMMENT_END") ].

(** [lex_string_look_up[l]]: the name at [l], the empty string when the
    key is absent (the entry [operator[]] then adds holds the same empty
    string). *)
Definition lex_string_look_up_at (l : lexeme) : string :=
  default "" (snd <$> find (fun entry => bool_decide (fst entry = l)) lex_string_look_up).

Definition tokenized_file_to_str (t_file : tokenized_file) : string :=
  let tokenized_file_buf := "[" +:+ line_feed in
  let tokenized_file_buf :=
    fold_left
      (fun buf line =>
         fold_left (fun buf token => buf +:+ "['" +:+ token +:+ "']," +:+ line_feed)
                   line buf)
      t_file tokenized_file_buf in
  tokenized_file_buf +:+ "]" +:+ line_feed.

Definition lexed_file_to_str (l_file : list lexed_token) : string :=
  let lexed_file_buf := "[" +:+ line_feed in
  let lexed_file_buf :=
    fold_left
      (fun buf token =>
         let buf := buf +:+ "['" in
         let buf := buf +:+ lex_string_look_up_at (lex token) +:+ "', '" in
         buf +:+ raw_token token +:+ "']," +:+ line_feed)
      l_file lexed_file_buf in
  lexed_file_buf +:+ "]" +:+ line_feed.

(** Tokens as the tokenizer makes them: not empty, without white space. *)
Definition tokenizer_lines (t_file : tokenized_file) : Prop :=
  Forall (Forall (fun tok => tok ≠ "" ∧ no_space tok = true)) t_file.

(** The entry of a token, and the entries of a list. *)
Definition token_entry (token : string) : string :=
  "['" +:+ token +:+ "']," +:+ line_feed.

Definition entries {A} (entry : A -> string) (l : list A) : string :=
  fold_right (fun a text => entry a +:+ text) "" l.

Definition lexed_entry (token : lexed_token) : string :=
  "['" +:+ lex_string_look_up_at (lex token) +:+ "', '" +:+ raw_token token
  +:+ "']," +:+ line_feed.

(** The lexed file of a tokenized file, as the tokens and the ends of the
    lines ([None]) one after the other. *)
Definition line_items (t_file : tokenized_file) : list (option string) :=
  concat (map (fun line => map Some line ++ [None]) t_file).

Definition item_token (item : option string) : lexed_token :=
  match item with
  | Some raw => lex_raw_token raw
  | None => new_line_token
  end.

(** ** How a run can end *)

(** The run neither calls [exit] nor throws: it returns, reads or writes
    outside a vector, or goes on for ever. *)
Definition quiet {A} (o : outcome A) : Prop :=
  match o with
  | Exit _ | Throw _ => False
  | _ => True
  end.

(** The run does not call [exit]. *)
Definition no_exit {A} (o : outcome A) : Prop :=
  match o with
  | Exit _ => False
  | _ => True
  end.

(** ** Reference cycles *)

(** [trap pt P]: every list of [P] holds a pair whose label names, as a
    session or a block, a list of [P] again; the lists on a reference cycle
    are such a set. *)
Definition trap (pt : parsed_trial_section) (P : list pair -> Prop) : Prop :=
  forall v, P v ->
    exists p v', p ∈ v ∧ container pt (first p) = Some v' ∧ P v'.

(** A block that refers to itself. *)
Definition self_reference : parsed_trial_section :=
  ParsedTrialSection ∅ {[ "b" := [Pair "b" "1"] ]} ∅ [Pair "b" "1"].

(** * Properties *)

(** ** The lexer *)

Section Lexer.

Lemma map_find_in {V} (m : list (string * V)) k v :
  map_find m k = Some v -> (k, v) ∈ m.
Proof.
  induction m as [|[k' v'] m IH]; simpl; [discriminate|].
  destruct (decide (k' = k)) as [->|_].
  - intros [= ->]. apply list_elem_of_here.
  - intros H. apply list_elem_of_further, IH, H.
Qed.

Lemma token_defs_never_new_line k l :
  map_find token_defs k = Some l -> l ≠ NEW_LINE.
Proof.
  intros H%map_find_in ->.
  unfold token_defs in H.
  repeat (apply elem_of_cons in H as [H|H]; [discriminate H|]).
  by apply elem_of_nil in H.
Qed.

Lemma lex_raw_token_raw raw : raw_token (lex_raw_token raw) = raw.
Proof. reflexivity. Qed.

Lemma lex_raw_token_not_new_line raw : lex (lex_raw_token raw) ≠ NEW_LINE.
Proof.
  unfold lex_raw_token; cbn [lex].
  destruct (map_find token_defs raw) as [l|] eqn:E.
  - exact (token_defs_never_new_line _ _ E).
  - destruct (regex_match raw var_id_regex); [discriminate|].
    destruct (regex_match raw var_val_regex); discriminate.
Qed.

Lemma lex_lines_app lines l_file :
  lex_lines lines l_file = l_file ++ concat (map lex_line lines).
Proof.
  revert l_file. induction lines as [|line lines IH]; intros l_file; simpl.
  - by rewrite app_nil_r.
  - by rewrite IH, app_assoc.
Qed.

Lemma filter_lexed_line (line : list string) :
  filter (fun t => lex t ≠ NEW_LINE) (lex_line line) = map lex_raw_token line.
Proof.
  unfold lex_line. rewrite filter_app.
  replace (filter (fun t => lex t ≠ NEW_LINE) [new_line_token]) with (@nil lexed_token)
    by reflexivity.
  rewrite app_nil_r.
  induction line as [|raw line IH]; [reflexivity|].
  simpl map. rewrite filter_cons_True by apply lex_raw_token_not_new_line.
  by rewrite IH.
Qed.

Lemma sentinels_of_lexed_line (line : list string) :
  filter (fun t => lex t = NEW_LINE) (lex_line line) = [new_line_token].
Proof.
  unfold lex_line. rewrite filter_app.
  replace (filter (fun t => lex t = NEW_LINE) [new_line_token]) with [new_line_token]
    by reflexivity.
  induction line as [|raw line IH]; [reflexivity|].
  simpl map. rewrite filter_cons_False by apply lex_raw_token_not_new_line.
  exact IH.
Qed.

End Lexer.

(** C6.  Lexing a tokenized file keeps every raw token, in order: the
    [raw_token] fields of the lexed tokens other than the [NEW_LINE]
    sentinels are the tokens of the tokenizer's lines one after the other,
    and there is exactly one sentinel per line. *)
Theorem lex_tokenized_file_round_trip (t_file : tokenized_file) :
  map raw_token (filter (fun t => lex t ≠ NEW_LINE) (lex_tokenized_file t_file []))
  = concat t_file
  ∧ filter (fun t => lex t = NEW_LINE) (lex_tokenized_file t_file [])
    = replicate (length t_file) new_line_token.
Proof.
  unfold lex_tokenized_file. rewrite lex_lines_app. simpl.
  induction t_file as [|line t_file [IH1 IH2]]; [done|].
  simpl. rewrite !filter_app, map_app, IH1, IH2.
  rewrite filter_lexed_line, sentinels_of_lexed_line. split; [|done].
  f_equal. clear. induction line as [|raw line IH]; [done|].
  cbn [map]. by rewrite IH, lex_raw_token_raw.
Qed.

(** C7, counterexample.  The lookup table holds the two pattern strings
    themselves as keys.  A token spelled like the identifier pattern is found
    by the exact lookup and classified [VAR_IDENTIFIER], although it matches
    neither pattern. *)
Lemma lookup_first_counterexample :
  map_find token_defs "[a-zA-Z_]{1}[a-zA-Z0-9_]*" = Some VAR_IDENTIFIER
  ∧ regex_match "[a-zA-Z_]{1}[a-zA-Z0-9_]*" var_id_regex = false
  ∧ regex_match "[a-zA-Z_]{1}[a-zA-Z0-9_]*" var_val_regex = false
  ∧ lex (lex_raw_token "[a-zA-Z_]{1}[a-zA-Z0-9_]*") = VAR_IDENTIFIER
  ∧ ¬ lookup_first_as_specified.
Proof.
  repeat split; try reflexivity.
  intros H. destruct (H "[a-zA-Z_]{1}[a-zA-Z0-9_]*") as [[H1 _] _].
  - by eexists.
  - by apply H1.
Qed.

(** C7, amended.  Exact lookup comes first.  A token equal to one of the
    keywords gets the keyword's lexeme, which is never [VAR_IDENTIFIER] nor
    [VAR_VALUE]; a token spelled exactly like one of the two pattern strings
    gets that pattern's lexeme from the lookup; for every other token the
    identifier pattern is tried, then the value pattern, and a token
    matching neither gets [NONE]. *)
Theorem lex_raw_token_order (raw : string) :
  (raw ∈ keywords ->
     map_find token_defs raw = Some (lex (lex_raw_token raw))
     ∧ lex (lex_raw_token raw) ≠ VAR_IDENTIFIER
     ∧ lex (lex_raw_token raw) ≠ VAR_VALUE)
  ∧ (raw = var_id_regex_str -> lex (lex_raw_token raw) = VAR_IDENTIFIER)
  ∧ (raw = var_val_regex_str -> lex (lex_raw_token raw) = VAR_VALUE)
  ∧ (raw ∉ keywords -> raw ≠ var_id_regex_str -> raw ≠ var_val_regex_str ->
     map_find token_defs raw = None
     ∧ lex (lex_raw_token raw) =
         if regex_match raw var_id_regex then VAR_IDENTIFIER
         else if regex_match raw var_val_regex then VAR_VALUE
         else NONE).
Proof.
  split; [|split; [|split]].
  - intros H. unfold keywords in H.
    repeat (apply elem_of_cons in H as [->|H]; [by vm_compute|]).
    by apply elem_of_nil in H.
  - by intros ->.
  - by intros ->.
  - intros Hk Hi Hv.
    assert (map_find token_defs raw = None) as Hnone.
    { destruct (map_find token_defs raw) as [l|] eqn:E; [|done].
      apply map_find_in in E. exfalso. unfold token_defs in E.
      repeat (apply elem_of_cons in E as [E|E];
              [injection E as -> _;
               first [ by apply Hi | by apply Hv
                     | apply Hk; unfold keywords; set_solver ]|]).
      by apply elem_of_nil in E. }
    split; [done|].
    unfold lex_raw_token; cbn [lex]. rewrite Hnone.
    destruct (regex_match raw var_id_regex); [done|].
    by destruct (regex_match raw var_val_regex).
Qed.

Lemma lex_raw_token_order_witness :
  lex (lex_raw_token "begin") ≠ VAR_IDENTIFIER
  ∧ lex (lex_raw_token "x_1") = VAR_IDENTIFIER
  ∧ lex (lex_raw_token "1x") = NONE.
Proof.
  split; [|split].
  - apply (lex_raw_token_order "begin"). unfold keywords. set_solver.
  - destruct (lex_raw_token_order "x_1") as (_ & _ & _ & H).
    destruct H as [_ H]; [| | |exact H].
    + unfold keywords. intros Hin.
      repeat (apply elem_of_cons in Hin as [Hin|Hin]; [discriminate Hin|]).
      by apply elem_of_nil in Hin.
    + discriminate.
    + discriminate.
  - destruct (lex_raw_token_order "1x") as (_ & _ & _ & H).
    destruct H as [_ H]; [| | |exact H].
    + unfold keywords. intros Hin.
      repeat (apply elem_of_cons in Hin as [Hin|Hin]; [discriminate Hin|]).
      by apply elem_of_nil in Hin.
    + discriminate.
    + discriminate.
Defined.

(** C10.  A token that is a lone sign or a lone dot is no key of the lookup
    table and no identifier; the value pattern, all of whose parts are
    optional, accepts it, so the lexer gives it [VAR_VALUE].  Downstream it
    is taken as the value of a variable in a variable section and as the
    count of a pair in a block definition. *)
Theorem lone_sign_or_dot_is_value (raw : string) :
  raw ∈ ["+"; "-"; "."] ->
  map_find token_defs raw = None
  ∧ regex_match raw var_id_regex = false
  ∧ regex_match raw var_val_regex = true
  ∧ lex (lex_raw_token raw) = VAR_VALUE
  ∧ (exists ltp sec,
       parse_var_section_loop 8 (lex_tokenized_file [["int"; "x"; raw]; ["end"]] []) 0
                              (ParsedVarSection ∅) = Ok (ltp, sec)
       ∧ param_map sec !! "x" = Some (Variable_ "int" "x" raw))
  ∧ (exists ltp l_file e_file,
       parse_def 8 0 (lex_tokenized_file [["A"; raw]; ["end"]] []) empty_expt_file
                 "block" "b" = Ok (ltp, l_file, e_file)
       ∧ block_map (parsed_trial_info e_file) !! "b" = Some [Pair "A" raw]).
Proof.
  intros H.
  repeat (apply elem_of_cons in H as [->|H];
          [repeat split; try reflexivity;
           [eexists _, _; split; [vm_compute; reflexivity|vm_compute; reflexivity]
           |eexists _, _, _; split; [vm_compute; reflexivity|vm_compute; reflexivity]]|]).
  by apply elem_of_nil in H.
Qed.

Lemma lone_sign_or_dot_is_value_witness :
  lex (lex_raw_token "+") = VAR_VALUE.
Proof.
  apply (lone_sign_or_dot_is_value "+"). set_solver.
Defined.

(** ** The tokenizer *)

Section Tokenizer.

Lemma append_nil_l (s : string) : "" +:+ s = s.
Proof. reflexivity. Qed.

Lemma append_cons c (s t : string) : String c s +:+ t = String c (s +:+ t).
Proof. reflexivity. Qed.

Lemma append_empty_r (s : string) : s +:+ "" = s.
Proof.
  induction s as [|a s IH]; [done|]. by rewrite append_cons, IH.
Qed.

Lemma append_snoc_assoc (s : string) c (w : string) :
  (s +:+ String c "") +:+ w = s +:+ String c w.
Proof.
  induction s as [|a s IH]; [done|]. by rewrite !append_cons, IH.
Qed.

Lemma no_space_snoc (s : string) c :
  no_space s = true -> isspace c = false -> no_space (s +:+ String c "") = true.
Proof.
  induction s as [|a s IH]; intros Hs Hc.
  - rewrite append_nil_l. simpl. by rewrite Hc.
  - rewrite append_cons. simpl in *.
    apply andb_true_iff in Hs as [-> Hs]. simpl. by apply IH.
Qed.

Lemma snoc_not_empty (s : string) c : s +:+ String c "" ≠ "".
Proof. by destruct s. Qed.

Lemma extract_tokens_spec (line token : string) :
  no_space token = true ->
  (token = "" -> delimited line (extract_tokens line ""))
  ∧ (token ≠ "" ->
     exists w rest toks,
       line = w +:+ rest ∧ no_space w = true ∧ token_boundary rest
       ∧ delimited rest toks
       ∧ extract_tokens line token = (token +:+ w) :: toks).
Proof.
  revert token. induction line as [|c line IH]; intros token Htok.
  - split.
    + intros _. constructor.
    + intros Hne. exists "", "", []. simpl.
      destruct (decide (token = "")) as [|_]; [done|].
      rewrite !append_empty_r. repeat split; constructor.
  - simpl. destruct (isspace c) eqn:Hc.
    + destruct (IH "" eq_refl) as [IH0 _].
      split.
      * intros _. destruct (decide ("" = "")); [|done].
        by apply delimited_space; [|apply IH0].
      * intros Hne. exists "", (String c line), (extract_tokens line "").
        destruct (decide (token = "")) as [|_]; [done|].
        rewrite !append_empty_r, ?append_nil_l. repeat split; [exact Hc|].
        by apply delimited_space; [|apply IH0].
    + destruct (IH (token +:+ String c "")) as [_ IH1].
      { by apply no_space_snoc. }
      destruct (IH1 (snoc_not_empty _ _)) as (w & rest & toks & -> & Hw & Hb & Hd & He).
      split.
      * intros ->. rewrite append_nil_l in He. rewrite append_nil_l, He.
        rewrite !append_cons, append_nil_l, <- append_cons.
        apply delimited_token; [done| |done|done].
        simpl. by rewrite Hc, Hw.
      * intros Hne. exists (String c w), rest, toks.
        rewrite He, append_snoc_assoc. repeat split; [|done|done].
        simpl. by rewrite Hc, Hw.
Qed.

Lemma delimited_nil_all_space line : delimited line [] -> all_space line = true.
Proof.
  intros H. remember [] as toks eqn:E.
  induction H as [|c s toks Hc _ IH|]; [done| |discriminate].
  simpl. by rewrite Hc, IH.
Qed.

Lemma all_space_extract line : all_space line = true -> extract_tokens line "" = [].
Proof.
  induction line as [|c line IH]; [done|].
  simpl. intros [-> H]%andb_true_iff. by apply IH.
Qed.

Lemma tokenize_lines_app lines (t_file : tokenized_file) :
  tokenize_lines lines t_file
  = t_file ++ map (fun line => extract_tokens line "")
                  (filter (fun line => line ≠ "") lines).
Proof.
  revert t_file. induction lines as [|line lines IH]; intros t_file; simpl.
  - by rewrite app_nil_r.
  - destruct (decide (line = "")) as [->|Hne].
    + by rewrite IH.
    + rewrite IH, filter_cons_True by done. by rewrite <- app_assoc.
Qed.

End Tokenizer.

(** C9, counterexample.  A file whose only line is one space: the line is
    not the empty string, so it is tokenized, and it yields a line without
    tokens. *)
Lemma blank_line_counterexample :
  tokenize_file (Some " ") [] = Ok [[]] ∧ ¬ no_empty_raw_line_as_specified.
Proof.
  split; [reflexivity|].
  intros H. apply (H " " [[]]); [reflexivity|]. apply list_elem_of_here.
Qed.

(** C9, amended.  The tokenizer drops the lines that are the empty string
    and no others.  The output holds, in source order, one line for every
    other source line: its white-space-delimited tokens from left to right,
    each of them non-empty and free of white space.  An output line is
    empty exactly when its source line holds white space only. *)
Theorem tokenize_file_drops_empty_lines (buf : string) :
  tokenize_file (Some buf) []
  = Ok (map (fun line => extract_tokens line "")
            (filter (fun line => line ≠ "") (read_lines buf)))
  ∧ forall line : string,
      delimited line (extract_tokens line "")
      ∧ Forall (fun tok => tok ≠ "" ∧ no_space tok = true) (extract_tokens line "")
      ∧ (extract_tokens line "" = [] <-> all_space line = true).
Proof.
  split.
  - unfold tokenize_file. by rewrite tokenize_lines_app.
  - intros line.
    destruct (extract_tokens_spec line "" eq_refl) as [Hd _].
    specialize (Hd eq_refl). split; [exact Hd|]. split.
    + clear -Hd. induction Hd; [constructor|done|]. by constructor.
    + split.
      * intros E. rewrite E in Hd. by apply delimited_nil_all_space.
      * apply all_space_extract.
Qed.

(** ** The file header *)

Section Header.

Lemma deref_Ok l_file ltp t : deref l_file ltp = Ok t -> l_file !! ltp = Some t.
Proof. unfold deref. destruct (l_file !! ltp); [by intros [= ->]|done]. Qed.

Lemma bind_Ok {A B} (m : outcome A) (k : A -> outcome B) b :
  m ≫= k = Ok b -> exists a, m = Ok a ∧ k a = Ok b.
Proof. destruct m; try discriminate. intros H. by exists a. Qed.

(** A document comes out of [parse_lexed_expt_file] only behind a
    [begin filetype run] header. *)
Lemma parse_lexed_expt_file_header fuel l_file e_file r :
  parse_lexed_expt_file fuel l_file e_file = Ok r -> header_is "run" l_file.
Proof.
  unfold parse_lexed_expt_file.
  intros (ltp & Hb & H)%bind_Ok.
  apply bind_Ok in H as (next_lt & Hn%deref_Ok & H).
  destruct (decide (lex next_lt = REGION)) as [Hl|]; [|discriminate].
  destruct (decide (raw_token next_lt ≠ "filetype")) as [|Hf%dec_stable]; [discriminate|].
  apply bind_Ok in H as (second_next_lt & Hs%deref_Ok & H).
  destruct (decide (raw_token second_next_lt ≠ "run")) as [|Hr%dec_stable]; [discriminate|].
  by exists ltp, next_lt, second_next_lt.
Qed.

Lemma parse_lexed_build_file_header fuel l_file b_file r :
  parse_lexed_build_file fuel l_file b_file = Ok r -> header_is "build" l_file.
Proof.
  unfold parse_lexed_build_file.
  intros (ltp & Hb & H)%bind_Ok.
  apply bind_Ok in H as (next_lt & Hn%deref_Ok & H).
  destruct (decide (lex next_lt = REGION)) as [Hl|]; [|discriminate].
  destruct (decide (raw_token next_lt ≠ "filetype")) as [|Hf%dec_stable]; [discriminate|].
  apply bind_Ok in H as (second_next_lt & Hs%deref_Ok & H).
  destruct (decide (raw_token second_next_lt ≠ "build")) as [|Hr%dec_stable]; [discriminate|].
  by exists ltp, next_lt, second_next_lt.
Qed.

(** Once the scan has found a [begin] with two tokens behind it, a wrong
    region name or region type ends in [exit(2)], [exit(3)] or [exit(4)]. *)
Lemma parse_lexed_expt_file_mismatch fuel l_file e_file ltp next_lt second_next_lt :
  find_first_begin false l_file 0 = Ok ltp ->
  l_file !! (ltp + 1) = Some next_lt ->
  l_file !! (ltp + 2) = Some second_next_lt ->
  ¬ (lex next_lt = REGION ∧ raw_token next_lt = "filetype"
     ∧ raw_token second_next_lt = "run") ->
  parse_lexed_expt_file fuel l_file e_file = Exit 2
  ∨ parse_lexed_expt_file fuel l_file e_file = Exit 3
  ∨ parse_lexed_expt_file fuel l_file e_file = Exit 4.
Proof.
  intros Hb Hn Hs Hbad. unfold parse_lexed_expt_file, deref.
  rewrite Hb. cbn [mbind outcome_bind]. rewrite Hn. cbn [mbind outcome_bind].
  destruct (decide (lex next_lt = REGION)); [|by auto].
  destruct (decide (raw_token next_lt ≠ "filetype")) as [|Hf%dec_stable]; [by auto|].
  rewrite Hs. cbn [mbind outcome_bind].
  destruct (decide (raw_token second_next_lt ≠ "run")) as [|Hr%dec_stable]; [by auto|].
  by destruct Hbad.
Qed.

Lemma parse_lexed_build_file_mismatch fuel l_file b_file ltp next_lt second_next_lt :
  find_first_begin false l_file 0 = Ok ltp ->
  l_file !! (ltp + 1) = Some next_lt ->
  l_file !! (ltp + 2) = Some second_next_lt ->
  ¬ (lex next_lt = REGION ∧ raw_token next_lt = "filetype"
     ∧ raw_token second_next_lt = "build") ->
  parse_lexed_build_file fuel l_file b_file = Exit 2
  ∨ parse_lexed_build_file fuel l_file b_file = Exit 3
  ∨ parse_lexed_build_file fuel l_file b_file = Exit 4.
Proof.
  intros Hb Hn Hs Hbad. unfold parse_lexed_build_file, deref.
  rewrite Hb. cbn [mbind outcome_bind]. rewrite Hn. cbn [mbind outcome_bind].
  destruct (decide (lex next_lt = REGION)); [|by auto].
  destruct (decide (raw_token next_lt ≠ "filetype")) as [|Hf%dec_stable]; [by auto|].
  rewrite Hs. cbn [mbind outcome_bind].
  destruct (decide (raw_token second_next_lt ≠ "build")) as [|Hr%dec_stable]; [by auto|].
  by destruct Hbad.
Qed.

End Header.

(** C5, at a file without any [begin].  The file holds one comment line.
    The scan for the first [begin] skips the comment up to its [NEW_LINE],
    steps past it and reads the token after the last: neither entry point
    ends in [exit], whatever the fuel. *)
Theorem header_scan_leaves_the_tokens (fuel : nat) :
  lex_text "// header is missing"
  = [LexedToken SINGLE_COMMENT "//"; LexedToken VAR_IDENTIFIER "header";
     LexedToken VAR_IDENTIFIER "is"; LexedToken VAR_IDENTIFIER "missing";
     new_line_token]
  ∧ parse_lexed_expt_file fuel (lex_text "// header is missing") empty_expt_file
    = Undefined
  ∧ parse_lexed_build_file fuel (lex_text "// header is missing") empty_build_file
    = Undefined
  ∧ parse_lexed_expt_file fuel (lex_text "") empty_expt_file = Undefined.
Proof. repeat split. Qed.

(** ** Fuel is only a budget

    A run that ends with some fuel ends the same way with more. *)

Section Fuel.

Lemma refines_refl {A} (o : outcome A) : o ⊑ o.
Proof. by right. Qed.

Lemma refines_Ok {A} (o1 o2 : outcome A) a : o1 ⊑ o2 -> o1 = Ok a -> o2 = Ok a.
Proof. intros [->| ->]; [discriminate|done]. Qed.

Lemma refines_settled {A} (o1 o2 : outcome A) : o1 ⊑ o2 -> o1 ≠ OutOfFuel -> o2 = o1.
Proof. by intros [->| ->]. Qed.

Lemma bind_refines {A B} (m1 m2 : outcome A) (k1 k2 : A -> outcome B) :
  m1 ⊑ m2 -> (forall a, k1 a ⊑ k2 a) -> (m1 ≫= k1) ⊑ (m2 ≫= k2).
Proof.
  intros [->| ->] Hk; [by left|].
  destruct m2; simpl; try apply refines_refl. apply Hk.
Qed.

Ltac mono_step :=
  first
    [ apply refines_refl
    | apply bind_refines; [|intros ?]
    | match goal with
      | |- (if ?c then _ else _) ⊑ (if ?c then _ else _) => destruct c
      | |- (match ?x with _ => _ end) ⊑ (match ?x with _ => _ end) => destruct x
      end ].

Lemma parse_def_loop_mono n m def_type s :
  n <= m -> parse_def_loop n def_type s ⊑ parse_def_loop m def_type s.
Proof.
  revert m s. induction n as [|n IH]; intros m s Hle; [by left|].
  destruct m as [|m]; [lia|]. simpl.
  repeat mono_step. apply IH. lia.
Qed.

Lemma parse_def_mono n m ltp l_file e_file def_type def_label :
  n <= m ->
  parse_def n ltp l_file e_file def_type def_label
  ⊑ parse_def m ltp l_file e_file def_type def_label.
Proof.
  intros Hle. unfold parse_def. apply bind_refines; [|intros; apply refines_refl].
  by apply parse_def_loop_mono.
Qed.

Lemma parse_var_section_loop_mono n m l_file ltp sec :
  n <= m ->
  parse_var_section_loop n l_file ltp sec ⊑ parse_var_section_loop m l_file ltp sec.
Proof.
  revert m ltp sec. induction n as [|n IH]; intros m ltp sec Hle; [by left|].
  destruct m as [|m]; [lia|]. simpl.
  apply bind_refines; [apply refines_refl|intros t].
  destruct (decide (lex t = END_MARKER)); [apply refines_refl|].
  apply bind_refines; [apply refines_refl|intros [ltp1 sec1]].
  apply IH. lia.
Qed.

Lemma parse_trial_section_mono n m ltp l_file e_file :
  n <= m ->
  parse_trial_section n ltp l_file e_file ⊑ parse_trial_section m ltp l_file e_file.
Proof.
  revert m ltp l_file e_file.
  induction n as [|n IH]; intros m ltp l_file e_file Hle; [by left|].
  destruct m as [|m]; [lia|]. simpl.
  apply bind_refines; [apply refines_refl|intros t].
  destruct (decide (lex t = END_MARKER)); [apply refines_refl|].
  apply bind_refines; [|intros [[ltp1 l1] e1]; apply IH; lia].
  destruct (decide (lex t = DEF)); [|apply refines_refl].
  apply bind_refines; [apply refines_refl|intros next_lt].
  destruct (decide (lex next_lt = DEF_TYPE)); [|apply refines_refl].
  apply bind_refines; [apply refines_refl|intros second_next_lt].
  destruct (decide (lex second_next_lt = VAR_IDENTIFIER)); [|apply refines_refl].
  apply parse_def_mono. lia.
Qed.

Lemma parse_region_mono n :
  (forall m ltp l_file e_file region_type, n <= m ->
     parse_region n ltp l_file e_file region_type
     ⊑ parse_region m ltp l_file e_file region_type)
  ∧ (forall m ltp l_file e_file, n <= m ->
     parse_region_scan n ltp l_file e_file ⊑ parse_region_scan m ltp l_file e_file).
Proof.
  induction n as [|n [IHr IHs]]; [by split; intros; left|].
  split.
  - intros [|m] ltp l_file e_file region_type Hle; [lia|]. simpl.
    destruct (decide _).
    { unfold parse_var_section. apply bind_refines; [|intros; apply refines_refl].
      apply parse_var_section_loop_mono. lia. }
    destruct (decide _).
    { apply parse_trial_section_mono. lia. }
    apply IHs. lia.
  - intros [|m] ltp l_file e_file Hle; [lia|]. simpl.
    apply bind_refines; [apply refines_refl|intros t].
    destruct (decide (lex t = END_MARKER)); [apply refines_refl|].
    apply bind_refines; [|intros [[ltp1 l1] e1]; apply IHs; lia].
    destruct (decide (lex t = BEGIN_MARKER)); [|apply refines_refl].
    apply bind_refines; [apply refines_refl|intros next_lt].
    destruct (decide (lex next_lt = REGION)); [|apply refines_refl].
    apply bind_refines; [apply refines_refl|intros second_next_lt].
    destruct (decide (lex second_next_lt = REGION_TYPE)); [|apply refines_refl].
    apply IHr. lia.
Qed.

Lemma parse_lexed_expt_file_mono n m l_file e_file :
  n <= m ->
  parse_lexed_expt_file n l_file e_file ⊑ parse_lexed_expt_file m l_file e_file.
Proof.
  intros Hle. unfold parse_lexed_expt_file.
  apply bind_refines; [apply refines_refl|intros ltp].
  apply bind_refines; [apply refines_refl|intros next_lt].
  destruct (decide _); [|apply refines_refl].
  destruct (decide _); [apply refines_refl|].
  apply bind_refines; [apply refines_refl|intros second_next_lt].
  destruct (decide _); [apply refines_refl|].
  apply bind_refines; [|intros [[? ?] ?]; apply refines_refl].
  by apply parse_region_mono.
Qed.

Lemma sum_counts_mono (rec1 rec2 : list pair -> Z -> outcome Z) pt in_vec temp_sum :
  (forall v c, rec1 v c ⊑ rec2 v c) ->
  sum_counts rec1 pt in_vec temp_sum ⊑ sum_counts rec2 pt in_vec temp_sum.
Proof.
  intros Hrec. revert temp_sum.
  induction in_vec as [|p rest IH]; intros temp_sum; [apply refines_refl|].
  simpl. apply bind_refines; [apply refines_refl|intros c].
  apply bind_refines; [|intros; apply IH].
  destruct (session_map pt !! first p); [apply Hrec|].
  destruct (block_map pt !! first p); [apply Hrec|apply refines_refl].
Qed.

Lemma calculate_num_trials_helper_mono n m pt in_vec acc :
  n <= m ->
  calculate_num_trials_helper n pt in_vec acc ⊑ calculate_num_trials_helper m pt in_vec acc.
Proof.
  revert m in_vec acc. induction n as [|n IH]; intros m in_vec acc Hle; [by left|].
  destruct m as [|m]; [lia|]. simpl.
  apply bind_refines; [|intros; apply refines_refl].
  apply sum_counts_mono. intros v c. apply IH. lia.
Qed.

Lemma for_loop_mono {A} k (body1 body2 : A -> outcome A) a :
  (forall a, body1 a ⊑ body2 a) -> for_loop k body1 a ⊑ for_loop k body2 a.
Proof.
  intros Hb. revert a. induction k as [|k IH]; intros a; [apply refines_refl|].
  simpl. by apply bind_refines.
Qed.

Lemma expand_names_mono (rec1 rec2 : list string -> list pair -> outcome (list string))
    pt names in_vec :
  (forall names v, rec1 names v ⊑ rec2 names v) ->
  expand_names rec1 pt names in_vec ⊑ expand_names rec2 pt names in_vec.
Proof.
  intros Hrec. revert names.
  induction in_vec as [|p rest IH]; intros names; [apply refines_refl|].
  simpl. apply bind_refines; [|intros; apply IH].
  destruct (trial_map pt !! first p); [apply refines_refl|].
  apply bind_refines; [apply refines_refl|intros c].
  apply for_loop_mono. intros names'.
  destruct (block_map pt !! first p); [apply Hrec|].
  destruct (session_map pt !! first p); [apply Hrec|apply refines_refl].
Qed.

Lemma initialize_trial_names_helper_mono n m pt names in_vec :
  n <= m ->
  initialize_trial_names_helper n pt names in_vec
  ⊑ initialize_trial_names_helper m pt names in_vec.
Proof.
  revert m names in_vec. induction n as [|n IH]; intros m names in_vec Hle; [by left|].
  destruct m as [|m]; [lia|]. simpl.
  apply expand_names_mono. intros names' v. apply IH. lia.
Qed.

Lemma translate_parsed_trials_mono n m pe_file td :
  n <= m ->
  translate_parsed_trials n pe_file td ⊑ translate_parsed_trials m pe_file td.
Proof.
  intros Hle. unfold translate_parsed_trials, calculate_num_trials.
  apply bind_refines; [by apply calculate_num_trials_helper_mono|intros c].
  unfold initialize_trials_data.
  apply bind_refines; [|intros; apply refines_refl].
  by apply initialize_trial_names_helper_mono.
Qed.

Lemma read_experiment_mono n m in_file :
  n <= m -> read_experiment n in_file ⊑ read_experiment m in_file.
Proof.
  intros Hle. unfold read_experiment.
  apply bind_refines; [apply refines_refl|intros t_file].
  apply bind_refines; [by apply parse_lexed_expt_file_mono|intros [? e_file]].
  by apply translate_parsed_trials_mono.
Qed.

(** Two runs of the reader on one file that both end agree. *)
Lemma read_experiment_agree n m in_file td td' :
  read_experiment n in_file = Ok td -> read_experiment m in_file = Ok td' -> td = td'.
Proof.
  intros H1 H2.
  pose proof (refines_Ok _ _ _ (read_experiment_mono n (n `max` m) in_file ltac:(lia)) H1) as E1.
  pose proof (refines_Ok _ _ _ (read_experiment_mono m (n `max` m) in_file ltac:(lia)) H2) as E2.
  congruence.
Qed.

End Fuel.

(** ** The end-to-end example *)

(** C2, counterexample.  The tokens [def experiment t1 5 end] define no
    experiment, however they are spread over lines: after [def experiment]
    the parser takes the next identifier, [t1], for the label of the
    definition, and skips the token after it; when no identifier follows on
    the same line the definition is not recognised at all.  The experiment
    stays empty and the trial count is 0, not 5. *)
Lemma unlabelled_experiment_counterexample :
  Forall (fun defs =>
            (exists td, read_experiment 40 (Some (experiment_file defs)) = Ok td
                        ∧ num_trials td = 0%Z ∧ trial_names td = [])
            ∧ ¬ example_resolves_as_specified defs)
         unlabelled_experiment_layouts.
Proof.
  unfold unlabelled_experiment_layouts.
  repeat (apply Forall_cons; split;
          [match goal with
           | |- (exists td, read_experiment ?n ?f = _ ∧ _) ∧ _ =>
               let r := eval vm_compute in (read_experiment n f) in
               assert (read_experiment n f = r) as E by (vm_compute; reflexivity);
               split;
               [eexists; split; [exact E|split; reflexivity]
               |intros (fuel & td & H & Hn & _);
                rewrite <- (read_experiment_agree _ _ _ _ _ E H) in Hn;
                discriminate Hn]
           end|]).
  apply Forall_nil_2.
Qed.

(** C2, amended.  With the header of each definition on a line of its own
    and a label after [def experiment], the file that defines the trial [t1]
    with [use_cs 1], [cs_onset 100] and its six other fields, and an
    experiment made of [t1 5], resolves to five trials named [t1], all with
    [use_cs = 1] and [cs_onset = 100]. *)
Theorem labelled_experiment_resolves :
  exists td,
    (forall fuel, 40 <= fuel ->
       read_experiment fuel (Some (experiment_file labelled_experiment)) = Ok td)
    ∧ num_trials td = 5%Z
    ∧ trial_names td = ["t1"; "t1"; "t1"; "t1"; "t1"]
    ∧ use_css td = [1; 1; 1; 1; 1]%Z
    ∧ cs_onsets td = [100; 100; 100; 100; 100]%Z.
Proof.
  match goal with
  | |- exists td, (forall fuel, _ -> read_experiment _ ?f = _) ∧ _ =>
      let r := eval vm_compute in (read_experiment 40 f) in
      assert (read_experiment 40 f = r) as E by (vm_compute; reflexivity)
  end.
  match type of E with _ = Ok ?td => exists td end.
  split; [|repeat split].
  intros fuel Hle.
  exact (refines_Ok _ _ _ (read_experiment_mono 40 fuel _ Hle) E).
Qed.

(** ** Unresolved labels *)

Section Unresolved.

Lemma for_loop_skip {A} n (a : A) : for_loop n (fun a => Ok a) a = Ok a.
Proof. induction n as [|n IH]; [done|]. simpl. exact IH. Qed.

(** The name expansion writes nothing for a pair whose label is
    unresolved. *)
Lemma expand_names_unresolved rec pt names p rest c :
  unresolved pt (first p) -> stoi (second p) = Ok c ->
  expand_names rec pt names (p :: rest) = expand_names rec pt names rest.
Proof.
  intros (Ht & Hb & Hs) Hc. simpl. rewrite Ht, Hc. simpl.
  rewrite Hb, Hs. by rewrite for_loop_skip.
Qed.

(** The count computation adds the count of such a pair as if its label
    were a trial. *)
Lemma sum_counts_unresolved rec pt p rest c temp_sum :
  unresolved pt (first p) -> stoi (second p) = Ok c ->
  sum_counts rec pt (p :: rest) temp_sum
  = sum_counts rec pt rest (to_uint32 (temp_sum + to_uint32 c)).
Proof.
  intros (Ht & Hb & Hs) Hc. simpl. rewrite Hc. simpl. by rewrite Hs, Hb.
Qed.

End Unresolved.

(** C4, at files whose experiment names an undefined label [X].  With
    [X 0] after [t1 1] the resolution returns a table of one trial and
    reports nothing.  With [X 2] the count is 2, the name expansion writes
    no name, and the resolution ends in the [invalid_argument] that
    [std::stoi] throws on the empty field of the empty trial name; with
    [X 2] before [t1 3] the count is 5 and the end is the same. *)
Theorem unresolved_label_not_reported :
  (exists td,
     read_experiment 40
       (Some (experiment_file ["def experiment e1"; "t1 1"; "X 0"; "end"])) = Ok td
     ∧ num_trials td = 1%Z ∧ trial_names td = ["t1"])
  ∧ read_experiment 40
      (Some (experiment_file ["def experiment e1"; "X 2"; "end"]))
    = Throw invalid_argument
  ∧ read_experiment 40
      (Some (experiment_file ["def experiment e1"; "X 2"; "t1 3"; "end"]))
    = Throw invalid_argument
  ∧ (forall rec pt names p rest c,
       unresolved pt (first p) -> stoi (second p) = Ok c ->
       expand_names rec pt names (p :: rest) = expand_names rec pt names rest)
  ∧ (forall rec pt p rest c temp_sum,
       unresolved pt (first p) -> stoi (second p) = Ok c ->
       sum_counts rec pt (p :: rest) temp_sum
       = sum_counts rec pt rest (to_uint32 (temp_sum + to_uint32 c))).
Proof.
  split; [|split; [|split; [|split]]].
  - eexists. split; [vm_compute; reflexivity|]. split; reflexivity.
  - vm_compute; reflexivity.
  - vm_compute; reflexivity.
  - apply expand_names_unresolved.
  - apply sum_counts_unresolved.
Qed.

Lemma unresolved_label_not_reported_witness :
  expand_names (fun names _ => Ok names) empty_trial_section [""; ""] [Pair "X" "2"]
  = Ok [""; ""].
Proof.
  destruct unresolved_label_not_reported as (_ & _ & _ & H & _).
  rewrite (H _ _ _ _ _ 2%Z); [reflexivity| |reflexivity].
  repeat split.
Defined.

(** ** The trial count *)

Section Count.

Context (pt : parsed_trial_section).

Lemma to_uint32_idemp z : to_uint32 (to_uint32 z) = to_uint32 z.
Proof. unfold to_uint32. by rewrite Z.mod_mod. Qed.

Lemma to_uint32_add a a' b b' :
  to_uint32 a = to_uint32 a' -> to_uint32 b = to_uint32 b' ->
  to_uint32 (a + b) = to_uint32 (a' + b').
Proof.
  unfold to_uint32. intros Ha Hb.
  by rewrite (Z.add_mod a b), (Z.add_mod a' b'), Ha, Hb.
Qed.

Lemma to_uint32_mul a a' b b' :
  to_uint32 a = to_uint32 a' -> to_uint32 b = to_uint32 b' ->
  to_uint32 (a * b) = to_uint32 (a' * b').
Proof.
  unfold to_uint32. intros Ha Hb.
  by rewrite (Z.mul_mod a b), (Z.mul_mod a' b'), Ha, Hb.
Qed.

(** Equal modulo [2^32], by congruence over sums and products. *)
Ltac uint32_congruence :=
  repeat first [ reflexivity
               | rewrite to_uint32_idemp
               | apply to_uint32_add
               | apply to_uint32_mul ].

Lemma sum_step_container temp_sum c t n :
  to_uint32 (to_uint32 (temp_sum + to_uint32 (to_uint32 c * to_uint32 (0 + t))) + n)
  = to_uint32 (temp_sum + (c * t + n)).
Proof.
  replace (temp_sum + (c * t + n))%Z with (temp_sum + c * (0 + t) + n)%Z by lia.
  uint32_congruence.
Qed.

Lemma sum_step_leaf temp_sum c n :
  to_uint32 (to_uint32 (temp_sum + to_uint32 c) + n) = to_uint32 (temp_sum + (c + n)).
Proof.
  replace (temp_sum + (c + n))%Z with (temp_sum + c + n)%Z by lia.
  uint32_congruence.
Qed.

(** With enough fuel the loop returns what [total] says, reduced modulo
    [2^32]. *)
Lemma sum_counts_complete in_vec n :
  total pt in_vec n ->
  exists fuel, forall temp_sum,
    to_uint32 temp_sum = temp_sum ->
    sum_counts (calculate_num_trials_helper fuel pt) pt in_vec temp_sum
    = Ok (to_uint32 (temp_sum + n)).
Proof.
  induction 1 as [|p rest c v t n Hc Hs _ [fv IHv] _ [fr IHr]
                  |p rest c v t n Hc Hs Hb _ [fv IHv] _ [fr IHr]
                  |p rest c n Hc Hs Hb _ [fr IHr]].
  - exists 0. intros temp_sum Hred. simpl. by rewrite Z.add_0_r, Hred.
  - exists (S (fv `max` fr)). intros temp_sum _.
    assert (forall s, to_uint32 s = s ->
                      sum_counts (calculate_num_trials_helper (fv `max` fr) pt) pt v s
                      = Ok (to_uint32 (s + t))) as Hv.
    { intros s Hred. eapply refines_Ok; [|by apply IHv].
      apply sum_counts_mono. intros. apply calculate_num_trials_helper_mono. lia. }
    assert (forall s, to_uint32 s = s ->
                      sum_counts (calculate_num_trials_helper (S (fv `max` fr)) pt) pt rest s
                      = Ok (to_uint32 (s + n))) as Hr.
    { intros s Hred. eapply refines_Ok; [|by apply IHr].
      apply sum_counts_mono. intros. apply calculate_num_trials_helper_mono. lia. }
    cbn [sum_counts]. rewrite Hc. cbn [mbind outcome_bind]. rewrite Hs.
    cbn [calculate_num_trials_helper]. rewrite Hv by done. cbn [mbind outcome_bind].
    rewrite Hr by apply to_uint32_idemp. f_equal. apply sum_step_container.
  - exists (S (fv `max` fr)). intros temp_sum _.
    assert (forall s, to_uint32 s = s ->
                      sum_counts (calculate_num_trials_helper (fv `max` fr) pt) pt v s
                      = Ok (to_uint32 (s + t))) as Hv.
    { intros s Hred. eapply refines_Ok; [|by apply IHv].
      apply sum_counts_mono. intros. apply calculate_num_trials_helper_mono. lia. }
    assert (forall s, to_uint32 s = s ->
                      sum_counts (calculate_num_trials_helper (S (fv `max` fr)) pt) pt rest s
                      = Ok (to_uint32 (s + n))) as Hr.
    { intros s Hred. eapply refines_Ok; [|by apply IHr].
      apply sum_counts_mono. intros. apply calculate_num_trials_helper_mono. lia. }
    cbn [sum_counts]. rewrite Hc. cbn [mbind outcome_bind]. rewrite Hs, Hb.
    cbn [calculate_num_trials_helper]. rewrite Hv by done. cbn [mbind outcome_bind].
    rewrite Hr by apply to_uint32_idemp. f_equal. apply sum_step_container.
  - exists fr. intros temp_sum _.
    cbn [sum_counts]. rewrite Hc. cbn [mbind outcome_bind]. rewrite Hs, Hb.
    cbn [mbind outcome_bind]. rewrite IHr by apply to_uint32_idemp.
    f_equal. apply sum_step_leaf.
Qed.

(** Whatever the loop returns is what [total] says. *)
Lemma sum_counts_sound fuel :
  forall in_vec temp_sum r,
    to_uint32 temp_sum = temp_sum ->
    sum_counts (calculate_num_trials_helper fuel pt) pt in_vec temp_sum = Ok r ->
    exists n, total pt in_vec n ∧ r = to_uint32 (temp_sum + n).
Proof.
  induction fuel as [|fuel IH];
    (induction in_vec as [|p rest IHvec]; intros temp_sum r Hred H;
     [injection H as <-; exists 0%Z; split; [constructor|by rewrite Z.add_0_r, Hred]|]).
  - cbn [sum_counts] in H.
    apply bind_Ok in H as (c & Hc & H).
    apply bind_Ok in H as (tc & Htc & H).
    apply IHvec in H as (n & Hn & ->); [|apply to_uint32_idemp].
    destruct (session_map pt !! first p) eqn:Hs; [discriminate Htc|].
    destruct (block_map pt !! first p) eqn:Hb; [discriminate Htc|].
    injection Htc as <-.
    exists (c + n)%Z. split; [by eapply total_leaf|apply sum_step_leaf].
  - cbn [sum_counts] in H.
    apply bind_Ok in H as (c & Hc & H).
    apply bind_Ok in H as (tc & Htc & H).
    apply IHvec in H as (n & Hn & ->); [|apply to_uint32_idemp].
    destruct (session_map pt !! first p) as [v|] eqn:Hs;
      [|destruct (block_map pt !! first p) as [v|] eqn:Hb].
    + cbn [calculate_num_trials_helper] in Htc.
      apply bind_Ok in Htc as (ts & Hts & [= <-]).
      apply IH in Hts as (t & Ht & ->); [|done].
      exists (c * t + n)%Z. split; [by eapply total_session|apply sum_step_container].
    + cbn [calculate_num_trials_helper] in Htc.
      apply bind_Ok in Htc as (ts & Hts & [= <-]).
      apply IH in Hts as (t & Ht & ->); [|done].
      exists (c * t + n)%Z. split; [by eapply total_block|apply sum_step_container].
    + injection Htc as <-.
      exists (c + n)%Z. split; [by eapply total_leaf|apply sum_step_leaf].
Qed.

Lemma total_deterministic in_vec n m : total pt in_vec n -> total pt in_vec m -> n = m.
Proof.
  intros H. revert m.
  induction H as [|p rest c v t n Hc Hs _ IHv _ IHr
                  |p rest c v t n Hc Hs Hb _ IHv _ IHr
                  |p rest c n Hc Hs Hb _ IHr]; intros m Hm; inversion Hm; subst;
    try congruence;
    repeat match goal with
           | H1 : stoi ?x = Ok ?a, H2 : stoi ?x = Ok ?b |- _ =>
               assert (b = a) as -> by congruence; clear H2
           | H1 : ?k = Some ?a, H2 : ?k = Some ?b |- _ =>
               assert (b = a) as -> by congruence; clear H2
           | IH : forall m, total pt ?v m -> ?t = m, H : total pt ?v ?m |- _ =>
               apply IH in H; subst
           end; reflexivity.
Qed.

(** A hierarchy without cycles whose counts are readable has a total. *)
Lemma total_exists_below (rank : string -> nat) :
  acyclic pt rank ->
  (forall label v p, container pt label = Some v -> p ∈ v ->
     exists c, stoi (second p) = Ok c) ->
  forall k in_vec,
    (forall p, p ∈ in_vec -> is_Some (container pt (first p)) -> rank (first p) < k) ->
    (forall p, p ∈ in_vec -> exists c, stoi (second p) = Ok c) ->
    exists n, total pt in_vec n.
Proof.
  intros Hacyc Hcounts.
  induction k as [|k IH];
    (induction in_vec as [|p rest IHvec]; intros Hrank Hread; [exists 0%Z; constructor|]).
  - destruct IHvec as [n Hn].
    { intros q Hq. apply Hrank. by right. }
    { intros q Hq. apply Hread. by right. }
    destruct (Hread p) as [c Hc]; [by left|].
    destruct (container pt (first p)) as [v|] eqn:Hv.
    { specialize (Hrank p ltac:(by left) ltac:(by eexists)). lia. }
    unfold container in Hv.
    destruct (session_map pt !! first p) eqn:Hs; [discriminate|].
    exists (c + n)%Z. by eapply total_leaf.
  - destruct IHvec as [n Hn].
    { intros q Hq. apply Hrank. by right. }
    { intros q Hq. apply Hread. by right. }
    destruct (Hread p) as [c Hc]; [by left|].
    destruct (container pt (first p)) as [v|] eqn:Hv.
    + destruct (IH v) as [t Ht].
      { intros q Hq Hcq.
        pose proof (Hacyc _ _ _ Hv Hq Hcq).
        specialize (Hrank p ltac:(by left) ltac:(by eexists)). lia. }
      { intros q Hq. by eapply Hcounts. }
      unfold container in Hv.
      destruct (session_map pt !! first p) eqn:Hs.
      * injection Hv as ->. exists (c * t + n)%Z. by eapply total_session.
      * exists (c * t + n)%Z. by eapply total_block.
    + unfold container in Hv.
      destruct (session_map pt !! first p) eqn:Hs; [discriminate|].
      exists (c + n)%Z. by eapply total_leaf.
Qed.

Lemma rank_bound (rank : string -> nat) (in_vec : list pair) :
  exists k, forall p, p ∈ in_vec -> rank (first p) < k.
Proof.
  induction in_vec as [|p rest [k IH]]; [exists 0; by intros ? ?%elem_of_nil|].
  exists (S (rank (first p)) `max` k). intros q [->|Hq]%elem_of_cons; [lia|].
  specialize (IH q Hq). lia.
Qed.

End Count.

Lemma total_example : total example_hierarchy (experiment example_hierarchy) 14.
Proof.
  change 14%Z with (2 + (3 * (4 + 0) + 0))%Z.
  eapply total_leaf; [reflexivity..|].
  eapply total_block; [reflexivity..| |constructor].
  eapply total_leaf; [reflexivity..|constructor].
Qed.

(** C1.  The trial count composes by product over nesting and by sum over
    siblings.  Whenever [calculate_num_trials] returns, its result is the
    [total] of the experiment list, reduced modulo [2^32] as [ct_uint32_t]
    arithmetic does (so it is the total itself when that fits 32 bits);
    whenever the experiment list has a total, [calculate_num_trials] returns
    it; and on every hierarchy without reference cycles whose counts
    [std::stoi] can read a total exists and is returned.  For the example
    hierarchy the count is [2 + 3 * 4 = 14]. *)
Theorem calculate_num_trials_composes :
  (forall pt : parsed_trial_section,
     (forall fuel r, calculate_num_trials fuel pt = Ok r ->
        exists n, total pt (experiment pt) n ∧ r = to_uint32 n)
     ∧ (forall n, total pt (experiment pt) n ->
        exists fuel0, forall fuel, fuel0 <= fuel ->
          calculate_num_trials fuel pt = Ok (to_uint32 n))
     ∧ (forall n, total pt (experiment pt) n -> (0 <= n < 2 ^ 32)%Z ->
        exists fuel0, forall fuel, fuel0 <= fuel -> calculate_num_trials fuel pt = Ok n)
     ∧ (forall rank, acyclic pt rank -> counts_readable pt ->
        exists n fuel0,
          total pt (experiment pt) n
          ∧ forall fuel, fuel0 <= fuel ->
              calculate_num_trials fuel pt = Ok (to_uint32 n)))
  ∧ total example_hierarchy (experiment example_hierarchy) (2 + 3 * 4)
  ∧ (forall fuel, 2 <= fuel -> calculate_num_trials fuel example_hierarchy = Ok 14%Z).
Proof.
  assert (forall pt n, total pt (experiment pt) n ->
            exists fuel0, forall fuel, fuel0 <= fuel ->
              calculate_num_trials fuel pt = Ok (to_uint32 n)) as Hcomplete.
  { intros pt n Hn.
    destruct (sum_counts_complete pt _ _ Hn) as [f Hf].
    exists (S f). intros fuel Hle.
    eapply refines_Ok; [by apply calculate_num_trials_helper_mono|].
    unfold calculate_num_trials. cbn [calculate_num_trials_helper].
    rewrite Hf by done. cbn [mbind outcome_bind]. f_equal.
    rewrite Z.mul_1_l, to_uint32_idemp. by rewrite Z.add_0_l. }
  split; [intros pt; split; [|split; [|split]]|split].
  - intros [|fuel] r H; [discriminate|].
    unfold calculate_num_trials in H. cbn [calculate_num_trials_helper] in H.
    apply bind_Ok in H as (ts & Hts & [= <-]).
    apply sum_counts_sound in Hts as (n & Hn & ->); [|done].
    exists n. split; [done|].
    rewrite Z.mul_1_l, to_uint32_idemp. by rewrite Z.add_0_l.
  - apply Hcomplete.
  - intros n Hn Hrange. destruct (Hcomplete pt n Hn) as [fuel0 H0].
    exists fuel0. intros fuel Hle. rewrite (H0 fuel Hle). f_equal.
    unfold to_uint32. by apply Z.mod_small.
  - intros rank Hacyc [Hexp Hcounts].
    destruct (rank_bound rank (experiment pt)) as [k Hk].
    destruct (total_exists_below pt rank Hacyc Hcounts k (experiment pt)) as [n Hn];
      [|done|].
    { intros p Hp _. by apply Hk. }
    destruct (Hcomplete pt n Hn) as [fuel0 H0]. by exists n, fuel0.
  - exact total_example.
  - intros fuel Hle.
    eapply refines_Ok; [apply (calculate_num_trials_helper_mono 2 fuel); exact Hle|].
    vm_compute. reflexivity.
Qed.

Lemma calculate_num_trials_composes_witness :
  exists fuel0, forall fuel, fuel0 <= fuel ->
    calculate_num_trials fuel example_hierarchy = Ok 14%Z.
Proof.
  destruct calculate_num_trials_composes as [H _].
  destruct (H example_hierarchy) as (_ & _ & H3 & _).
  apply (H3 14%Z).
  - exact total_example.
  - lia.
Defined.


(** ** The definition parser, turn by turn *)

Section DefinitionParser.

Context (def_type : string) (Hdef : def_type ≠ "trial").

Lemma deref_cursor (pre rest : list lexed_token) t :
  deref (pre ++ t :: rest) (length pre) = Ok t.
Proof. unfold deref. by rewrite list_lookup_middle. Qed.

Lemma cursor_snoc (pre rest : list lexed_token) t :
  (pre ++ [t]) ++ rest = pre ++ t :: rest.
Proof. by rewrite <- app_assoc. Qed.

Lemma deref_cursor_next (pre rest : list lexed_token) t t2 :
  deref (pre ++ t :: t2 :: rest) (S (length pre)) = Ok t2.
Proof.
  rewrite <- cursor_snoc.
  replace (S (length pre)) with (length (pre ++ [t])) by (rewrite length_app; simpl; lia).
  apply deref_cursor.
Qed.

Lemma push_pair_cursor p ltp l e cp ct cb cs pl cv :
  push_pair def_type p (DefState ltp l e cp ct cb cs pl cv)
  = DefState ltp l (file_experiment def_type e p) cp ct
             (file_block def_type cb p) (file_session def_type cs p) pl cv.
Proof.
  unfold push_pair, file_experiment, file_block, file_session.
  by repeat destruct (decide _).
Qed.

Lemma close_last_pair_not_end t2 s :
  lex t2 ≠ END_MARKER -> close_last_pair def_type t2 s = s.
Proof.
  intros H. unfold close_last_pair. destruct (decide _) as [[E _]|_]; [done|done].
Qed.

Lemma close_last_pair_no_label t2 s :
  first (curr_pair s) = "" -> close_last_pair def_type t2 s = s.
Proof.
  intros H. unfold close_last_pair. destruct (decide _) as [(_ & _ & E & _)|_]; done.
Qed.

Lemma close_last_pair_end t2 ltp l e label ct cb cs pl cv :
  lex t2 = END_MARKER -> label ≠ "" ->
  close_last_pair def_type t2 (DefState ltp l e (Pair label "") ct cb cs pl cv)
  = DefState ltp l (file_experiment def_type e (Pair label "1")) (Pair label "1") ct
             (file_block def_type cb (Pair label "1"))
             (file_session def_type cs (Pair label "1")) pl cv.
Proof.
  intros H Hl. unfold close_last_pair. cbn [curr_pair first second].
  destruct (decide _) as [_|N]; [|by destruct N].
  unfold set_curr_pair. cbn. apply push_pair_cursor.
Qed.

(** One turn, given what the switch does: the token under [ltp] after the
    switch is [t1], the one behind it is [t2]. *)
Lemma parse_def_iter_eq s t s1 t1 t2 :
  deref (ds_l_file s) (ds_ltp s) = Ok t ->
  parse_def_switch def_type t s = Ok s1 ->
  deref (ds_l_file s1) (ds_ltp s1) = Ok t1 ->
  deref (ds_l_file s1) (S (ds_ltp s1)) = Ok t2 ->
  parse_def_iter def_type s
  = Ok (close_last_pair def_type t2 (set_ltp (S (ds_ltp s1)) (set_prev_lex (lex t1) s1))).
Proof.
  intros H1 H2 H3 H4. unfold parse_def_iter.
  rewrite H1. cbn [mbind outcome_bind]. rewrite H2. cbn [mbind outcome_bind].
  rewrite H3. cbn [mbind outcome_bind]. 
  cbn [set_ltp set_prev_lex ds_ltp ds_l_file]. rewrite H4. reflexivity.
Qed.

Lemma iter_inert pre t t2 rest e cp ct cb cs pl cv :
  inert (lex t) ->
  parse_def_iter def_type (cursor pre (t :: t2 :: rest) e cp ct cb cs pl cv)
  = Ok (close_last_pair def_type t2
          (cursor (pre ++ [t]) (t2 :: rest) e cp ct cb cs (lex t) cv)).
Proof.
  intros (H1 & H2 & H3).
  erewrite parse_def_iter_eq with (s1 := cursor pre (t :: t2 :: rest) e cp ct cb cs pl cv).
  - unfold cursor. cbn [set_ltp set_prev_lex ds_ltp ds_l_file ds_e_file curr_pair curr_trial
                        curr_block curr_session prev_lex curr_var].
    rewrite cursor_snoc, length_app, Nat.add_1_r. reflexivity.
  - apply deref_cursor.
  - unfold parse_def_switch. destruct (lex t); try done.
    by destruct (decide _).
  - apply deref_cursor.
  - apply deref_cursor_next.
Qed.

Lemma iter_identifier_fresh pre t t2 rest e cp ct cb cs pl cv :
  lex t = VAR_IDENTIFIER -> first cp = "" ->
  parse_def_iter def_type (cursor pre (t :: t2 :: rest) e cp ct cb cs pl cv)
  = Ok (close_last_pair def_type t2
          (cursor (pre ++ [t]) (t2 :: rest) e (Pair (raw_token t) (second cp))
                  ct cb cs VAR_IDENTIFIER cv)).
Proof.
  intros Ht Hcp.
  erewrite parse_def_iter_eq
    with (s1 := cursor pre (t :: t2 :: rest) e (Pair (raw_token t) (second cp))
                       ct cb cs pl cv).
  - unfold cursor. cbn [set_ltp set_prev_lex ds_ltp ds_l_file ds_e_file curr_pair curr_trial
                        curr_block curr_session prev_lex curr_var].
    rewrite cursor_snoc, length_app, Nat.add_1_r, Ht. reflexivity.
  - apply deref_cursor.
  - unfold parse_def_switch. rewrite Ht.
    destruct (decide (def_type = "trial")); [done|].
    cbn [cursor curr_pair]. destruct (decide (first cp ≠ "")); [done|].
    reflexivity.
  - apply deref_cursor.
  - apply deref_cursor_next.
Qed.

(** The shadow token: the turn ends on it, with [prev_lex] the lexeme of
    the token before the identifier. *)
Lemma iter_identifier_pending pre before t rest e cp ct cb cs pl cv :
  lex t = VAR_IDENTIFIER -> first cp ≠ "" ->
  parse_def_iter def_type (cursor (pre ++ [before]) (t :: rest) e cp ct cb cs pl cv)
  = Ok (cursor (pre ++ [before]) (shadow_token :: t :: rest) e cp ct cb cs (lex before) cv).
Proof.
  intros Ht Hcp.
  erewrite parse_def_iter_eq
    with (s1 := DefState (length pre) ((pre ++ [before]) ++ shadow_token :: t :: rest)
                         e cp ct cb cs pl cv) (t1 := before) (t2 := shadow_token).
  - rewrite close_last_pair_not_end by done.
    unfold cursor. cbn [set_ltp set_prev_lex ds_ltp ds_l_file ds_e_file curr_pair curr_trial
                        curr_block curr_session prev_lex curr_var].
    by rewrite length_app, Nat.add_1_r.
  - apply deref_cursor.
  - unfold parse_def_switch. rewrite Ht.
    destruct (decide (def_type = "trial")); [done|].
    cbn [cursor curr_pair]. destruct (decide (first cp ≠ "")); [|done].
    unfold insert_shadow. cbn [cursor ds_ltp ds_l_file].
    rewrite take_app_length, drop_app_length, length_app, Nat.add_1_r.
    reflexivity.
  - cbn [ds_ltp ds_l_file]. rewrite cursor_snoc. apply deref_cursor.
  - cbn [ds_ltp ds_l_file]. rewrite cursor_snoc. apply deref_cursor_next.
Qed.

Lemma iter_value_accepted pre t t2 rest e cp ct cb cs pl cv :
  lex t = VAR_VALUE -> pl = VAR_IDENTIFIER ∨ pl = NEW_LINE ->
  parse_def_iter def_type (cursor pre (t :: t2 :: rest) e cp ct cb cs pl cv)
  = Ok (cursor (pre ++ [t]) (t2 :: rest)
               (file_experiment def_type e (Pair (first cp) (raw_token t)))
               empty_pair ct
               (file_block def_type cb (Pair (first cp) (raw_token t)))
               (file_session def_type cs (Pair (first cp) (raw_token t)))
               VAR_VALUE cv).
Proof.
  intros Ht Hpl.
  erewrite parse_def_iter_eq
    with (s1 := cursor pre (t :: t2 :: rest)
               (file_experiment def_type e (Pair (first cp) (raw_token t)))
               empty_pair ct
               (file_block def_type cb (Pair (first cp) (raw_token t)))
               (file_session def_type cs (Pair (first cp) (raw_token t)))
               pl cv).
  - rewrite close_last_pair_no_label by done.
    unfold cursor. cbn [set_ltp set_prev_lex ds_ltp ds_l_file ds_e_file curr_pair curr_trial
                        curr_block curr_session prev_lex curr_var].
    rewrite cursor_snoc, length_app, Nat.add_1_r, Ht. reflexivity.
  - apply deref_cursor.
  - unfold parse_def_switch. rewrite Ht. cbn [cursor prev_lex].
    destruct (decide (pl ≠ VAR_IDENTIFIER ∧ pl ≠ NEW_LINE)) as [[N1 N2]|_];
      [by destruct Hpl|].
    destruct (decide (def_type = "trial")); [done|].
    cbn [curr_pair]. unfold set_curr_pair at 2.
    cbn [ds_ltp ds_l_file ds_e_file curr_pair curr_trial curr_block curr_session
         prev_lex curr_var].
    rewrite push_pair_cursor. reflexivity.
  - apply deref_cursor.
  - apply deref_cursor_next.
Qed.

Lemma iter_value_refused pre t t2 rest e cp ct cb cs pl cv :
  lex t = VAR_VALUE -> pl ≠ VAR_IDENTIFIER -> pl ≠ NEW_LINE ->
  parse_def_iter def_type (cursor pre (t :: t2 :: rest) e cp ct cb cs pl cv)
  = Ok (close_last_pair def_type t2
          (cursor (pre ++ [t]) (t2 :: rest) e cp ct cb cs VAR_VALUE cv)).
Proof.
  intros Ht N1 N2.
  erewrite parse_def_iter_eq with (s1 := cursor pre (t :: t2 :: rest) e cp ct cb cs pl cv).
  - unfold cursor. cbn [set_ltp set_prev_lex ds_ltp ds_l_file ds_e_file curr_pair curr_trial
                        curr_block curr_session prev_lex curr_var].
    rewrite cursor_snoc, length_app, Nat.add_1_r, Ht. reflexivity.
  - apply deref_cursor.
  - unfold parse_def_switch. rewrite Ht. cbn [cursor prev_lex].
    destruct (decide (pl ≠ VAR_IDENTIFIER ∧ pl ≠ NEW_LINE)) as [_|N]; [done|].
    by destruct N.
  - apply deref_cursor.
  - apply deref_cursor_next.
Qed.

Lemma scan_to_new_line_words words t rest ltp :
  Forall (fun w => lex w ≠ NEW_LINE) words -> lex t = NEW_LINE ->
  scan_to_new_line (words ++ t :: rest) ltp = Ok (ltp + length words).
Proof.
  intros Hw Ht. revert ltp.
  induction Hw as [|w words Hw _ IH]; intros ltp; simpl.
  - destruct (decide (lex t = NEW_LINE)); [|done]. f_equal. lia.
  - destruct (decide (lex w = NEW_LINE)); [done|]. rewrite IH. f_equal. lia.
Qed.

Lemma iter_comment pre t words nlt t2 rest e cp ct cb cs pl cv :
  lex t = SINGLE_COMMENT -> Forall (fun w => lex w ≠ NEW_LINE) words ->
  lex nlt = NEW_LINE ->
  parse_def_iter def_type
    (cursor pre (t :: words ++ nlt :: t2 :: rest) e cp ct cb cs pl cv)
  = Ok (close_last_pair def_type t2
          (cursor (pre ++ t :: words ++ [nlt]) (t2 :: rest) e cp ct cb cs NEW_LINE cv)).
Proof.
  intros Ht Hw Hn.
  assert ((pre ++ t :: words) ++ nlt :: t2 :: rest
          = pre ++ t :: words ++ nlt :: t2 :: rest) as Eq
    by (by rewrite <- app_assoc).
  assert (length (pre ++ t :: words) = length pre + length (t :: words)) as El
    by apply length_app.
  erewrite parse_def_iter_eq
    with (s1 := DefState (length pre + length (t :: words))
                         (pre ++ t :: words ++ nlt :: t2 :: rest) e cp ct cb cs pl cv)
         (t1 := nlt) (t2 := t2).
  - unfold cursor, set_ltp, set_prev_lex.
    cbn [ds_ltp ds_l_file ds_e_file curr_pair curr_trial
         curr_block curr_session prev_lex curr_var].
    rewrite Hn. do 2 f_equal. f_equal.
    + rewrite length_app. cbn [length]. rewrite length_app. cbn [length]. lia.
    + rewrite <- app_assoc. cbn [app]. by rewrite <- app_assoc.
  - apply deref_cursor.
  - unfold parse_def_switch. rewrite Ht. cbn [cursor ds_ltp ds_l_file].
    unfold skip_comment. rewrite drop_app_length.
    rewrite (scan_to_new_line_words (t :: words) nlt (t2 :: rest)); [done| |done].
    constructor; [by rewrite Ht|done].
  - cbn [ds_ltp ds_l_file]. rewrite <- El, <- Eq. apply deref_cursor.
  - cbn [ds_ltp ds_l_file]. rewrite <- El, <- Eq. apply deref_cursor_next.
Qed.

(** The loop, one turn at a time. *)
Lemma parse_def_loop_step fuel pre t rest e cp ct cb cs pl cv s' :
  lex t ≠ END_MARKER ->
  parse_def_iter def_type (cursor pre (t :: rest) e cp ct cb cs pl cv) = Ok s' ->
  parse_def_loop (S fuel) def_type (cursor pre (t :: rest) e cp ct cb cs pl cv)
  = parse_def_loop fuel def_type s'.
Proof.
  intros Ht Hi. cbn [parse_def_loop]. unfold cursor in *. cbn [ds_ltp ds_l_file].
  rewrite deref_cursor. cbn [mbind outcome_bind].
  destruct (decide (lex t = END_MARKER)); [done|].
  rewrite Hi. reflexivity.
Qed.

Lemma parse_def_loop_end fuel pre t rest e cp ct cb cs pl cv :
  lex t = END_MARKER ->
  parse_def_loop (S fuel) def_type (cursor pre (t :: rest) e cp ct cb cs pl cv)
  = Ok (cursor pre (t :: rest) e cp ct cb cs pl cv).
Proof.
  intros Ht. cbn [parse_def_loop]. unfold cursor. cbn [ds_ltp ds_l_file].
  rewrite deref_cursor. cbn [mbind outcome_bind].
  by destruct (decide (lex t = END_MARKER)).
Qed.

(** The loop never ends once it stands on an identifier while an earlier
    identifier still waits for its count and the token just before is
    neither an identifier nor a [NEW_LINE]: the shadow token it inserts is
    refused, which leaves the loop on the same identifier, behind one more
    refused token. *)
Lemma parse_def_loop_diverges fuel :
  forall pre before id rest e cp ct cb cs pl cv,
    lex id = VAR_IDENTIFIER ->
    lex before ≠ VAR_IDENTIFIER -> lex before ≠ NEW_LINE ->
    first cp ≠ "" ->
    parse_def_loop fuel def_type
      (cursor (pre ++ [before]) (id :: rest) e cp ct cb cs pl cv) = OutOfFuel.
Proof.
  induction fuel as [fuel IH] using lt_wf_ind.
  intros pre before id rest e cp ct cb cs pl cv Hid Hb1 Hb2 Hcp.
  destruct fuel as [|fuel]; [reflexivity|].
  erewrite parse_def_loop_step;
    [|by rewrite Hid|by apply iter_identifier_pending].
  destruct fuel as [|fuel]; [reflexivity|].
  erewrite parse_def_loop_step; [|done|by apply iter_value_refused].
  rewrite close_last_pair_not_end by (by rewrite Hid).
  apply IH; [lia|done..].
Qed.

End DefinitionParser.

(** ** A definition the parser never leaves *)

Section CommentedBlock.

Lemma parse_trial_section_def fuel ltp l_file e_file t next_lt second_next_lt :
  l_file !! ltp = Some t -> lex t = DEF ->
  l_file !! (ltp + 1) = Some next_lt -> lex next_lt = DEF_TYPE ->
  l_file !! (ltp + 2) = Some second_next_lt -> lex second_next_lt = VAR_IDENTIFIER ->
  parse_trial_section (S fuel) ltp l_file e_file
  = parse_def fuel (ltp + 4) l_file e_file (raw_token next_lt) (raw_token second_next_lt)
    ≫= fun '(ltp1, l_file1, e_file1) => parse_trial_section fuel (S ltp1) l_file1 e_file1.
Proof.
  intros H0 L0 H1 L1 H2 L2. cbn [parse_trial_section]. unfold deref.
  rewrite H0. cbn [mbind outcome_bind].
  destruct (decide (lex t = END_MARKER)); [congruence|].
  destruct (decide (lex t = DEF)); [|done].
  rewrite H1. cbn [mbind outcome_bind].
  destruct (decide (lex next_lt = DEF_TYPE)); [|done].
  rewrite H2. cbn [mbind outcome_bind].
  by destruct (decide (lex second_next_lt = VAR_IDENTIFIER)).
Qed.

Lemma parse_region_scan_begin fuel ltp l_file e_file t next_lt second_next_lt :
  l_file !! ltp = Some t -> lex t = BEGIN_MARKER ->
  l_file !! (ltp + 1) = Some next_lt -> lex next_lt = REGION ->
  l_file !! (ltp + 2) = Some second_next_lt -> lex second_next_lt = REGION_TYPE ->
  parse_region_scan (S fuel) ltp l_file e_file
  = parse_region fuel (ltp + 4) l_file e_file (raw_token second_next_lt)
    ≫= fun '(ltp1, l_file1, e_file1) => parse_region_scan fuel (S ltp1) l_file1 e_file1.
Proof.
  intros H0 L0 H1 L1 H2 L2. cbn [parse_region_scan]. unfold deref.
  rewrite H0. cbn [mbind outcome_bind].
  destruct (decide (lex t = END_MARKER)); [congruence|].
  destruct (decide (lex t = BEGIN_MARKER)); [|done].
  rewrite H1. cbn [mbind outcome_bind].
  destruct (decide (lex next_lt = REGION)); [|done].
  rewrite H2. cbn [mbind outcome_bind].
  by destruct (decide (lex second_next_lt = REGION_TYPE)).
Qed.

Lemma commented_block_tokens :
  lex_text commented_block_file
  = [ LexedToken BEGIN_MARKER "begin"; LexedToken REGION "filetype";
      LexedToken REGION_TYPE "run"; new_line_token;
      LexedToken BEGIN_MARKER "begin"; LexedToken REGION "section";
      LexedToken REGION_TYPE "trial_def"; new_line_token;
      LexedToken DEF "def"; LexedToken DEF_TYPE "block";
      LexedToken VAR_IDENTIFIER "b1"; new_line_token ]
    ++ [ LexedToken VAR_IDENTIFIER "t1"; LexedToken DOUBLE_COMMENT_BEGIN "/*";
         LexedToken VAR_IDENTIFIER "acquisition"; LexedToken DOUBLE_COMMENT_END "*/";
         LexedToken VAR_VALUE "2"; new_line_token;
         LexedToken END_MARKER "end"; new_line_token;
         LexedToken END_MARKER "end"; new_line_token;
         LexedToken END_MARKER "end"; new_line_token ].
Proof. vm_compute. reflexivity. Qed.

Lemma commented_block_parse_def fuel e_file :
  parse_def fuel 12 (lex_text commented_block_file) e_file "block" "b1" = OutOfFuel.
Proof.
  unfold parse_def. rewrite commented_block_tokens.
  match goal with
  | |- context [init_def_state 12 (?pre ++ ?rest) ?e] =>
      change (init_def_state 12 (pre ++ rest) e)
        with (cursor pre rest e empty_pair ∅ [] [] NONE empty_variable)
  end.
  assert ("block" ≠ "trial") as Hdef by discriminate.
  destruct fuel as [|fuel]; [reflexivity|].
  erewrite parse_def_loop_step; [|done|by apply iter_identifier_fresh].
  rewrite close_last_pair_not_end by done.
  destruct fuel as [|fuel]; [reflexivity|].
  erewrite parse_def_loop_step; [|done|by apply iter_inert].
  rewrite close_last_pair_not_end by done.
  by rewrite parse_def_loop_diverges.
Qed.

End CommentedBlock.

(** C8, at a file whose every [begin] has its [end] and which refers to
    nothing.  In the block [b1] the identifier [t1] is followed by [/*], a
    token the lexer knows and [parse_def] has no case for, then by the
    identifier [acquisition].  There the parser inserts a shadow token,
    refuses it because the token before is [/*], meets [acquisition] again
    and starts over: no amount of fuel brings it to the [end] of the
    block.  (An identifier, any token other than an identifier, a value or a
    comment, and an identifier, on one line, do the same.) *)
Theorem commented_block_never_parsed (fuel : nat) :
  parse_lexed_expt_file fuel (lex_text commented_block_file) empty_expt_file = OutOfFuel
  ∧ read_experiment fuel (Some commented_block_file) = OutOfFuel.
Proof.
  assert (parse_lexed_expt_file fuel (lex_text commented_block_file) empty_expt_file
          = OutOfFuel) as H.
  { unfold parse_lexed_expt_file.
    replace (find_first_begin false (lex_text commented_block_file) 0) with (Ok (A:=nat) 0)
      by (vm_compute; reflexivity).
    cbn [mbind outcome_bind].
    replace (deref (lex_text commented_block_file) (0 + 1))
      with (Ok (LexedToken REGION "filetype")) by (vm_compute; reflexivity).
    cbn [mbind outcome_bind].
    replace (deref (lex_text commented_block_file) (0 + 2))
      with (Ok (LexedToken REGION_TYPE "run")) by (vm_compute; reflexivity).
    cbn [mbind outcome_bind lex raw_token].
    destruct (decide (REGION = REGION)); [|done].
    destruct (decide ("filetype" ≠ "filetype")); [done|].
    destruct (decide ("run" ≠ "run")); [done|].
    destruct fuel as [|fuel]; [reflexivity|].
    change (parse_region (S fuel) (0 + 4) (lex_text commented_block_file)
                         empty_expt_file "run")
      with (parse_region_scan fuel 4 (lex_text commented_block_file) empty_expt_file).
    destruct fuel as [|fuel]; [reflexivity|].
    rewrite (parse_region_scan_begin fuel 4 _ _
               (LexedToken BEGIN_MARKER "begin") (LexedToken REGION "section")
               (LexedToken REGION_TYPE "trial_def"))
      by (vm_compute; reflexivity).
    cbn [raw_token].
    destruct fuel as [|fuel]; [reflexivity|].
    change (parse_region (S fuel) (4 + 4) (lex_text commented_block_file)
                         empty_expt_file "trial_def")
      with (parse_trial_section fuel 8 (lex_text commented_block_file) empty_expt_file).
    destruct fuel as [|fuel]; [reflexivity|].
    rewrite (parse_trial_section_def fuel 8 _ _
               (LexedToken DEF "def") (LexedToken DEF_TYPE "block")
               (LexedToken VAR_IDENTIFIER "b1"))
      by (vm_compute; reflexivity).
    cbn [raw_token].
    change (8 + 4) with 12. by rewrite commented_block_parse_def. }
  split; [exact H|].
  unfold read_experiment, tokenize_file. cbn [mbind outcome_bind].
  fold (lex_text commented_block_file). by rewrite H.
Qed.

(** ** The pairs of a block, session or experiment definition *)

Section DefinitionBody.

Context (def_type : string) (Hdef : def_type ≠ "trial").
Context (t_end : lexed_token) (Hend : lex t_end = END_MARKER).

Lemma body_tokens_cons i body :
  body_tokens (i :: body) = item_tokens i ++ body_tokens body.
Proof. reflexivity. Qed.

Lemma body_rest_split body suf :
  exists rest, body_tokens body ++ t_end :: suf = next_token t_end body :: rest.
Proof.
  unfold next_token. destruct (body_tokens body) as [|t toks]; simpl; eauto.
Qed.

Lemma next_token_cons i body : lex (next_token t_end (i :: body)) ≠ END_MARKER.
Proof.
  unfold next_token. rewrite body_tokens_cons. by destruct i.
Qed.

(** From any turn on, the loop reads the rest of a body that follows the
    grammar, files the expected pairs and ends on the [end] of the
    definition. *)
Lemma parse_def_loop_body body :
  forall suf pre waiting e ct cb cs pl cv,
    body_wf waiting body ->
    waiting_ok waiting pre pl ->
    exists fuel pre' cp' pl',
      parse_def_loop fuel def_type
        (close_last_pair def_type (next_token t_end body)
           (cursor pre (body_tokens body ++ t_end :: suf) e (waiting_pair waiting)
                   ct cb cs pl cv))
      = Ok (cursor pre' (t_end :: suf)
              (fold_left (file_experiment def_type) (body_pairs waiting body) e)
              cp' ct
              (fold_left (file_block def_type) (body_pairs waiting body) cb)
              (fold_left (file_session def_type) (body_pairs waiting body) cs)
              pl' cv).
Proof.
  induction body as [|i body IH]; intros suf pre waiting e ct cb cs pl cv Hwf Hw.
  - (* at the end of the definition *)
    unfold next_token. cbn [body_tokens map concat app hd body_pairs].
    destruct waiting as [label|]; cbn [waiting_pair waiting_pairs fold_left].
    + destruct Hw as (Hl & _ & _).
      unfold cursor at 1. rewrite (close_last_pair_end def_type Hdef) by done.
      exists 1; eexists pre, _, _. by apply parse_def_loop_end.
    + rewrite close_last_pair_no_label by done.
      exists 1; eexists pre, _, _. by apply parse_def_loop_end.
  - rewrite (close_last_pair_not_end _ _ _ (next_token_cons i body)).
    rewrite body_tokens_cons, <- app_assoc.
    destruct (body_rest_split body suf) as [rest Hrest].
    destruct i as [|words|label|v]; cbn [body_wf] in Hwf; cbn [item_tokens body_pairs].
    + (* a NEW_LINE *)
      destruct (IH suf (pre ++ [new_line_token]) waiting e ct cb cs NEW_LINE cv Hwf)
        as (fuel & pre' & cp' & pl' & Hrun).
      { destruct waiting as [l|]; [|done].
        destruct Hw as (Hl & _ & _). split; [done|]. split; [by right|]. by eexists _, _. }
      exists (S fuel), pre', cp', pl'.
      cbn [app]. rewrite Hrest in *.
      erewrite parse_def_loop_step; [|done|by apply iter_inert].
      exact Hrun.
    + (* a comment *)
      destruct Hwf as [Hwords Hwf].
      destruct (IH suf (pre ++ LexedToken SINGLE_COMMENT "//" :: words ++ [new_line_token])
                   waiting e ct cb cs NEW_LINE cv Hwf)
        as (fuel & pre' & cp' & pl' & Hrun).
      { destruct waiting as [l|]; [|done].
        destruct Hw as (Hl & _ & _). split; [done|]. split; [by right|].
        exists (pre ++ LexedToken SINGLE_COMMENT "//" :: words), new_line_token.
        split; [|done]. by rewrite <- app_assoc. }
      exists (S fuel), pre', cp', pl'.
      cbn [app]. rewrite <- app_assoc. cbn [app]. rewrite Hrest in *.
      erewrite parse_def_loop_step; [|done|by apply iter_comment].
      exact Hrun.
    + (* an identifier *)
      destruct Hwf as [Hlabel Hwf].
      assert (forall pre0, waiting_ok (Some label)
                             (pre0 ++ [LexedToken VAR_IDENTIFIER label]) VAR_IDENTIFIER)
        as Hnext.
      { intros pre0. split; [done|]. split; [by left|]. by eexists _, _. }
      destruct waiting as [label0|]; cbn [waiting_pair waiting_pairs app fold_left].
      * (* an earlier identifier has no value: the shadow token *)
        destruct Hw as (Hl0 & Hpl & pre0 & before & -> & Hb).
        destruct (IH suf (((pre0 ++ [before]) ++ [shadow_token])
                            ++ [LexedToken VAR_IDENTIFIER label]) (Some label)
                     (file_experiment def_type e (Pair label0 "1")) ct
                     (file_block def_type cb (Pair label0 "1"))
                     (file_session def_type cs (Pair label0 "1"))
                     VAR_IDENTIFIER cv Hwf (Hnext _))
          as (fuel & pre' & cp' & pl' & Hrun).
        exists (S (S (S fuel))), pre', cp', pl'.
        cbn [app]. rewrite Hrest in *.
        erewrite parse_def_loop_step;
          [|done|by apply iter_identifier_pending].
        erewrite parse_def_loop_step;
          [|done|apply iter_value_accepted; [done..|by rewrite Hb]].
        erewrite parse_def_loop_step; [|done|by apply iter_identifier_fresh].
        exact Hrun.
      * destruct (IH suf (pre ++ [LexedToken VAR_IDENTIFIER label]) (Some label)
                     e ct cb cs VAR_IDENTIFIER cv Hwf (Hnext _))
          as (fuel & pre' & cp' & pl' & Hrun).
        exists (S fuel), pre', cp', pl'.
        cbn [app]. rewrite Hrest in *.
        erewrite parse_def_loop_step; [|done|by apply iter_identifier_fresh].
        exact Hrun.
    + (* the value of the identifier that waits *)
      destruct Hwf as [[label ->] Hwf].
      destruct Hw as (Hl & Hpl & _).
      destruct (IH suf (pre ++ [LexedToken VAR_VALUE v]) None
                   (file_experiment def_type e (Pair label v)) ct
                   (file_block def_type cb (Pair label v))
                   (file_session def_type cs (Pair label v)) VAR_VALUE cv Hwf I)
        as (fuel & pre' & cp' & pl' & Hrun).
      rewrite close_last_pair_no_label in Hrun by done.
      exists (S fuel), pre', cp', pl'.
      cbn [app waiting_pair fold_left]. rewrite Hrest in *.
      erewrite parse_def_loop_step; [|done|by apply iter_value_accepted].
      exact Hrun.
Qed.

Lemma fold_file_block ps cb :
  fold_left (file_block "block") ps cb = cb ++ ps.
Proof.
  revert cb. induction ps as [|p ps IH]; intros cb; simpl; [by rewrite app_nil_r|].
  rewrite IH. unfold file_block. simpl. by rewrite <- app_assoc.
Qed.

Lemma fold_file_session ps cs :
  fold_left (file_session "session") ps cs = cs ++ ps.
Proof.
  revert cs. induction ps as [|p ps IH]; intros cs; simpl; [by rewrite app_nil_r|].
  rewrite IH. unfold file_session. simpl. by rewrite <- app_assoc.
Qed.

Lemma fold_file_experiment ps e :
  experiment (parsed_trial_info (fold_left (file_experiment "experiment") ps e))
  = experiment (parsed_trial_info e) ++ ps.
Proof.
  revert e. induction ps as [|p ps IH]; intros e; simpl; [by rewrite app_nil_r|].
  rewrite IH. unfold file_experiment. simpl. by rewrite <- app_assoc.
Qed.

(** [parse_def] on a body that follows the grammar: the loop ends on the
    [end] of the definition with the expected pairs filed. *)
Lemma parse_def_body body suf pre e def_label :
  body_wf None body ->
  exists fuel0 pre' s,
    (forall fuel, fuel0 <= fuel ->
       parse_def fuel (length pre) (pre ++ body_tokens body ++ t_end :: suf) e
                 def_type def_label
       = Ok (length pre', pre' ++ t_end :: suf, store_def def_type def_label s))
    ∧ ds_e_file s = fold_left (file_experiment def_type) (body_pairs None body) e
    ∧ curr_block s = fold_left (file_block def_type) (body_pairs None body) []
    ∧ curr_session s = fold_left (file_session def_type) (body_pairs None body) [].
Proof.
  intros Hbody.
  destruct (parse_def_loop_body body suf pre None e ∅ [] [] NONE empty_variable Hbody I)
    as (fuel0 & pre' & cp' & pl' & Hrun).
  rewrite close_last_pair_no_label in Hrun by done.
  cbn [waiting_pair] in Hrun.
  exists fuel0, pre',
    (cursor pre' (t_end :: suf)
       (fold_left (file_experiment def_type) (body_pairs None body) e) cp' ∅
       (fold_left (file_block def_type) (body_pairs None body) [])
       (fold_left (file_session def_type) (body_pairs None body) []) pl' empty_variable).
  split; [|split; [|split]]; [|reflexivity..].
  intros fuel Hle.
  eapply refines_Ok; [by apply (parse_def_mono fuel0 fuel)|].
  unfold parse_def.
  change (init_def_state (length pre) (pre ++ body_tokens body ++ t_end :: suf) e)
    with (cursor pre (body_tokens body ++ t_end :: suf) e empty_pair ∅ [] [] NONE
                 empty_variable).
  rewrite Hrun. reflexivity.
Qed.

End DefinitionBody.

(** C3.  In a block, session or experiment definition whose body follows
    the grammar (identifiers, each with or without a value token behind it,
    between [NEW_LINE] sentinels and comments), the list filed for the
    definition holds one pair per identifier, in order: the pair carries the
    value token that follows the identifier, and ["1"] when the identifier
    is followed by another identifier or by the [end] of the definition.
    The parser stops on that [end]. *)
Theorem definition_pairs (def_type def_label : string) (body : list body_item)
    (pre suf : list lexed_token) (e_file : parsed_expt_file) :
  def_type ∈ ["block"; "session"; "experiment"] ->
  body_wf None body ->
  exists fuel0 ltp l_file e_file',
    (forall fuel, fuel0 <= fuel ->
       parse_def fuel (length pre) (pre ++ body_tokens body ++ end_token :: suf) e_file
                 def_type def_label
       = Ok (ltp, l_file, e_file'))
    ∧ l_file !! ltp = Some end_token
    ∧ drop (S ltp) l_file = suf
    ∧ (def_type = "block" ->
       block_map (parsed_trial_info e_file') !! def_label = Some (body_pairs None body))
    ∧ (def_type = "session" ->
       session_map (parsed_trial_info e_file') !! def_label = Some (body_pairs None body))
    ∧ (def_type = "experiment" ->
       experiment (parsed_trial_info e_file')
       = experiment (parsed_trial_info e_file) ++ body_pairs None body).
Proof.
  intros Hd Hbody.
  assert (def_type ≠ "trial") as Hdef.
  { intros ->. repeat (apply elem_of_cons in Hd as [Hd|Hd]; [discriminate Hd|]).
    by apply elem_of_nil in Hd. }
  destruct (parse_def_body def_type Hdef end_token eq_refl body suf pre e_file def_label Hbody)
    as (fuel0 & pre' & s & Hrun & He & Hb & Hs).
  exists fuel0, (length pre'), (pre' ++ end_token :: suf), (store_def def_type def_label s).
  split; [exact Hrun|]. split; [apply list_lookup_middle; done|].
  split.
  { rewrite (cons_middle end_token), app_assoc.
    replace (S (length pre')) with (length (pre' ++ [end_token]))
      by (rewrite length_app; simpl; lia).
    apply drop_app_length. }
  split; [|split]; intros ->; unfold store_def; simpl.
  - rewrite lookup_insert_eq, Hb. by rewrite fold_file_block.
  - rewrite lookup_insert_eq, Hs. by rewrite fold_file_session.
  - rewrite He. apply fold_file_experiment.
Qed.

Lemma definition_pairs_witness :
  exists fuel0 ltp l_file e_file',
    (forall fuel, fuel0 <= fuel ->
       parse_def fuel 0
         ([ LexedToken VAR_IDENTIFIER "acq"; LexedToken VAR_VALUE "11"; new_line_token;
            LexedToken VAR_IDENTIFIER "probe"; new_line_token;
            LexedToken VAR_IDENTIFIER "rest"; LexedToken VAR_IDENTIFIER "last" ]
          ++ [end_token; new_line_token])
         empty_expt_file "block" "b1"
       = Ok (ltp, l_file, e_file'))
    ∧ block_map (parsed_trial_info e_file') !! "b1"
      = Some [Pair "acq" "11"; Pair "probe" "1"; Pair "rest" "1"; Pair "last" "1"].
Proof.
  destruct (definition_pairs "block" "b1"
              [ ItemIdentifier "acq"; ItemValue "11"; ItemNewLine; ItemIdentifier "probe";
                ItemNewLine; ItemIdentifier "rest"; ItemIdentifier "last" ]
              [] [new_line_token] empty_expt_file)
    as (fuel0 & ltp & l_file & e_file' & Hrun & _ & _ & Hb & _).
  - set_solver.
  - simpl. repeat split; try discriminate. by eexists.
  - exists fuel0, ltp, l_file, e_file'. split; [exact Hrun|]. by apply Hb.
Defined.

Lemma labelled_experiment_resolves_witness :
  exists td,
    read_experiment 40 (Some (experiment_file labelled_experiment)) = Ok td
    ∧ num_trials td = 5%Z.
Proof.
  destruct labelled_experiment_resolves as (td & Hrun & Hn & _).
  exists td. split; [apply Hrun; lia|exact Hn].
Defined.

(** * Further properties of the parsers *)

(** ** What every parser leaves behind *)

Section Postconditions.

Lemma shadowed_refl l : shadowed l l.
Proof. by split. Qed.

Lemma shadowed_trans l1 l2 l3 : shadowed l1 l2 -> shadowed l2 l3 -> shadowed l1 l3.
Proof.
  intros [S1 F1] [S2 F2]. split; [by etrans|]. by rewrite F2.
Qed.

Lemma shadowed_insert (l : list lexed_token) n :
  shadowed l (take n l ++ shadow_token :: drop n l).
Proof.
  split.
  - rewrite <- (take_drop n l) at 1.
    apply sublist_app; [done|]. by apply sublist_cons.
  - rewrite filter_app, filter_cons_False by (by intros H; apply H).
    by rewrite <- filter_app, take_drop.
Qed.

Lemma push_pair_l_file d p s : ds_l_file (push_pair d p s) = ds_l_file s.
Proof. unfold push_pair. by repeat destruct (decide _). Qed.

Lemma push_pair_ltp d p s : ds_ltp (push_pair d p s) = ds_ltp s.
Proof. unfold push_pair. by repeat destruct (decide _). Qed.

Lemma close_last_pair_l_file d t s : ds_l_file (close_last_pair d t s) = ds_l_file s.
Proof.
  unfold close_last_pair. destruct (decide _); [|done]. by rewrite push_pair_l_file.
Qed.

Lemma close_last_pair_ltp d t s : ds_ltp (close_last_pair d t s) = ds_ltp s.
Proof.
  unfold close_last_pair. destruct (decide _); [|done]. by rewrite push_pair_ltp.
Qed.

Lemma parse_def_switch_tokens d t s s1 :
  parse_def_switch d t s = Ok s1 ->
  shadowed (ds_l_file s) (ds_l_file s1) ∧ (d = "trial" -> ds_l_file s1 = ds_l_file s).
Proof.
  unfold parse_def_switch. intros H.
  destruct (lex t);
    repeat match type of H with
           | context [decide ?P] => destruct (decide P)
           end;
    try (injection H as <-; cbn; rewrite ?push_pair_l_file;
         split; [apply shadowed_refl|done]).
  - unfold insert_shadow in H. destruct (ds_ltp s); [discriminate|].
    injection H as <-. cbn. split; [apply shadowed_insert|done].
  - apply bind_Ok in H as (ltp' & _ & [= <-]). cbn.
    split; [apply shadowed_refl|done].
Qed.

Lemma parse_def_iter_tokens d s s' :
  parse_def_iter d s = Ok s' ->
  shadowed (ds_l_file s) (ds_l_file s') ∧ (d = "trial" -> ds_l_file s' = ds_l_file s).
Proof.
  unfold parse_def_iter. intros H.
  apply bind_Ok in H as (t & _ & H). apply bind_Ok in H as (s1 & Hs & H).
  apply bind_Ok in H as (t1 & _ & H). apply bind_Ok in H as (t2 & _ & [= <-]).
  rewrite close_last_pair_l_file. cbn. by apply parse_def_switch_tokens in Hs.
Qed.

Lemma parse_def_loop_post fuel d : forall s s',
  parse_def_loop fuel d s = Ok s' ->
  at_end (ds_l_file s') (ds_ltp s')
  ∧ shadowed (ds_l_file s) (ds_l_file s')
  ∧ (d = "trial" -> ds_l_file s' = ds_l_file s).
Proof.
  induction fuel as [|fuel IH]; intros s s' H; [discriminate|].
  cbn [parse_def_loop] in H. apply bind_Ok in H as (t & Ht%deref_Ok & H).
  destruct (decide (lex t = END_MARKER)) as [E|_].
  - injection H as <-. split; [by exists t|]. split; [apply shadowed_refl|done].
  - apply bind_Ok in H as (s1 & Hi & H).
    apply parse_def_iter_tokens in Hi as [S1 T1].
    apply IH in H as (He & S2 & T2). split; [done|].
    split; [by eapply shadowed_trans|]. intros Hd. by rewrite T2, T1.
Qed.

Lemma parse_def_post fuel ltp l e d label ltp' l' e' :
  parse_def fuel ltp l e d label = Ok (ltp', l', e') ->
  at_end l' ltp' ∧ shadowed l l' ∧ (d = "trial" -> l' = l).
Proof.
  unfold parse_def. intros (s & H & [= <- <- <-])%bind_Ok.
  by apply parse_def_loop_post in H.
Qed.

Lemma scan_to_new_line_ge rest ltp ltp' :
  scan_to_new_line rest ltp = Ok ltp' -> ltp <= ltp'.
Proof.
  revert ltp. induction rest as [|t rest IH]; intros ltp; simpl; [done|].
  destruct (decide _); [by intros [= <-]|]. intros H%IH. lia.
Qed.

Lemma parse_var_section_loop_post fuel l : forall ltp sec ltp' sec',
  parse_var_section_loop fuel l ltp sec = Ok (ltp', sec') ->
  at_end l ltp' ∧ ltp <= ltp'.
Proof.
  induction fuel as [|fuel IH]; intros ltp sec ltp' sec' H; [discriminate|].
  cbn [parse_var_section_loop] in H. apply bind_Ok in H as (t & Ht%deref_Ok & H).
  destruct (decide (lex t = END_MARKER)) as [E|_].
  - injection H as <- <-. split; [by exists t|done].
  - apply bind_Ok in H as ([ltp1 sec1] & H1 & H).
    apply IH in H as [He Hle]. split; [done|].
    enough (ltp <= ltp1) by lia. clear -H1.
    destruct (decide _).
    + apply bind_Ok in H1 as (n & _ & H1).
      destruct (decide _).
      * apply bind_Ok in H1 as (n2 & _ & H1).
        destruct (decide _); injection H1 as <- _; lia.
      * injection H1 as <- _; lia.
    + destruct (decide _).
      * apply bind_Ok in H1 as (q & Hq & [= <- _]).
        unfold skip_comment in Hq. by apply scan_to_new_line_ge in Hq.
      * injection H1 as <- _; lia.
Qed.

Lemma parse_trial_section_post fuel : forall ltp l e ltp' l' e',
  parse_trial_section fuel ltp l e = Ok (ltp', l', e') ->
  at_end l' ltp' ∧ shadowed l l'.
Proof.
  induction fuel as [|fuel IH]; intros ltp l e ltp' l' e' H; [discriminate|].
  cbn [parse_trial_section] in H. apply bind_Ok in H as (t & Ht%deref_Ok & H).
  destruct (decide (lex t = END_MARKER)) as [E|_].
  - injection H as <- <- <-. split; [by exists t|apply shadowed_refl].
  - apply bind_Ok in H as ([[ltp1 l1] e1] & H1 & H).
    apply IH in H as [He S2]. split; [done|].
    eapply shadowed_trans; [|exact S2]. clear -H1.
    repeat match type of H1 with
           | context [decide ?P] => destruct (decide P)
           | (_ ≫= _) = Ok _ => apply bind_Ok in H1 as (? & ? & H1)
           | Ok _ = Ok _ => injection H1 as <- <- <-; apply shadowed_refl
           end;
      by apply parse_def_post in H1 as (_ & ? & _).
Qed.

Lemma parse_region_post fuel :
  (forall ltp l e rt ltp' l' e',
     parse_region fuel ltp l e rt = Ok (ltp', l', e') -> at_end l' ltp' ∧ shadowed l l')
  ∧ (forall ltp l e ltp' l' e',
     parse_region_scan fuel ltp l e = Ok (ltp', l', e') -> at_end l' ltp' ∧ shadowed l l').
Proof.
  induction fuel as [|fuel [IHr IHs]]; [by split|].
  split.
  - intros ltp l e rt ltp' l' e' H. cbn [parse_region] in H.
    destruct (decide _).
    { unfold parse_var_section in H.
      apply bind_Ok in H as ([q sec] & H & [= <- <- <-]).
      apply parse_var_section_loop_post in H as [He _].
      split; [done|apply shadowed_refl]. }
    destruct (decide _); [by eapply parse_trial_section_post|by eapply IHs].
  - intros ltp l e ltp' l' e' H. cbn [parse_region_scan] in H.
    apply bind_Ok in H as (t & Ht%deref_Ok & H).
    destruct (decide (lex t = END_MARKER)) as [E|_].
    + injection H as <- <- <-. split; [by exists t|apply shadowed_refl].
    + apply bind_Ok in H as ([[ltp1 l1] e1] & H1 & H).
      apply IHs in H as [He S2]. split; [done|].
      eapply shadowed_trans; [|exact S2]. clear -H1 IHr.
      repeat match type of H1 with
             | context [decide ?P] => destruct (decide P)
             | (_ ≫= _) = Ok _ => apply bind_Ok in H1 as (? & ? & H1)
             | Ok _ = Ok _ => injection H1 as <- <- <-; apply shadowed_refl
             end;
        by apply IHr in H1 as [_ ?].
Qed.

Lemma parse_region_build_post fuel :
  (forall ltp l b rt ltp' l' b',
     parse_region_build fuel ltp l b rt = Ok (ltp', l', b') -> at_end l' ltp' ∧ l' = l)
  ∧ (forall ltp l b ltp' l' b',
     parse_region_build_scan fuel ltp l b = Ok (ltp', l', b') -> at_end l' ltp' ∧ l' = l).
Proof.
  induction fuel as [|fuel [IHr IHs]]; [by split|].
  split.
  - intros ltp l b rt ltp' l' b' H. cbn [parse_region_build] in H.
    assert (forall rt', parse_var_section_build fuel ltp l b rt' = Ok (ltp', l', b') ->
                        at_end l' ltp' ∧ l' = l) as Hv.
    { intros rt' Hv. unfold parse_var_section_build in Hv.
      apply bind_Ok in Hv as ([q sec] & Hv & [= <- <- <-]).
      by apply parse_var_section_loop_post in Hv as [He _]. }
    destruct (decide _); [by eapply Hv|].
    destruct (decide _); [by eapply Hv|by eapply IHs].
  - intros ltp l b ltp' l' b' H. cbn [parse_region_build_scan] in H.
    apply bind_Ok in H as (t & Ht%deref_Ok & H).
    destruct (decide (lex t = END_MARKER)) as [E|_].
    + injection H as <- <- <-. split; [by exists t|done].
    + apply bind_Ok in H as ([[ltp1 l1] b1] & H1 & H).
      apply IHs in H as [He ->]. 
      enough (l1 = l) as -> by done. clear -H1 IHr.
      repeat match type of H1 with
             | context [decide ?P] => destruct (decide P)
             | (_ ≫= _) = Ok _ => apply bind_Ok in H1 as (? & ? & H1)
             | Ok _ = Ok _ => by injection H1 as <- <- <-
             end;
        by apply IHr in H1 as [_ ?].
Qed.

End Postconditions.

(** X1.  When [parse_def] returns, [ltp] stands on an [END_MARKER] of the
    returned token vector, and that vector is the given one with shadow
    tokens inserted and nothing else changed; a trial definition leaves the
    vector as it was. *)
Theorem parse_def_leaves fuel ltp l_file e_file def_type def_label ltp' l_file' e_file' :
  parse_def fuel ltp l_file e_file def_type def_label = Ok (ltp', l_file', e_file') ->
  at_end l_file' ltp'
  ∧ shadowed l_file l_file'
  ∧ (def_type = "trial" -> l_file' = l_file).
Proof. apply parse_def_post. Qed.

Lemma parse_def_leaves_witness :
  exists ltp' l_file' e_file',
    parse_def 20 12 (lex_text two_block_file) empty_expt_file "block" "b1"
    = Ok (ltp', l_file', e_file')
    ∧ at_end l_file' ltp'
    ∧ length l_file' = length (lex_text two_block_file) + 1.
Proof.
  match goal with
  | |- exists a b c, ?f = _ ∧ _ =>
      let r := eval vm_compute in f in
      assert (f = r) as E by (vm_compute; reflexivity);
      match r with Ok (?a, ?b, ?c) => exists a, b, c end
  end.
  split; [exact E|].
  split; [exact (proj1 (parse_def_leaves _ _ _ _ _ _ _ _ _ E))|].
  vm_compute. reflexivity.
Defined.

(** X2.  When the region parser of experiment files returns, [ltp] stands
    on an [END_MARKER] and the token vector is the given one with shadow
    tokens inserted and nothing else changed; the same holds for
    [parse_trial_section].  The region parser of build files returns on an
    [END_MARKER] as well and never changes the vector. *)
Theorem parse_region_leaves fuel ltp l_file :
  (forall e_file region_type ltp' l_file' e_file',
     parse_region fuel ltp l_file e_file region_type = Ok (ltp', l_file', e_file') ->
     at_end l_file' ltp' ∧ shadowed l_file l_file')
  ∧ (forall e_file ltp' l_file' e_file',
     parse_trial_section fuel ltp l_file e_file = Ok (ltp', l_file', e_file') ->
     at_end l_file' ltp' ∧ shadowed l_file l_file')
  ∧ (forall b_file region_type ltp' l_file' b_file',
     parse_region_build fuel ltp l_file b_file region_type = Ok (ltp', l_file', b_file') ->
     at_end l_file' ltp' ∧ l_file' = l_file).
Proof.
  split; [|split].
  - intros e_file region_type ltp' l_file' e_file' H.
    exact (proj1 (parse_region_post fuel) _ _ _ _ _ _ _ H).
  - intros e_file ltp' l_file' e_file' H.
    exact (parse_trial_section_post fuel _ _ _ _ _ _ H).
  - intros b_file region_type ltp' l_file' b_file' H.
    exact (proj1 (parse_region_build_post fuel) _ _ _ _ _ _ _ H).
Qed.

Lemma parse_region_leaves_witness :
  exists ltp' l_file' e_file',
    parse_region 40 4 (lex_text two_block_file) empty_expt_file "run"
    = Ok (ltp', l_file', e_file')
    ∧ at_end l_file' ltp'
    ∧ shadowed (lex_text two_block_file) l_file'.
Proof.
  match goal with
  | |- exists a b c, ?f = _ ∧ _ =>
      let r := eval vm_compute in f in
      assert (f = r) as E by (vm_compute; reflexivity);
      match r with Ok (?a, ?b, ?c) => exists a, b, c end
  end.
  split; [exact E|].
  exact (proj1 (parse_region_leaves 40 4 _) _ _ _ _ _ E).
Defined.

(** ** Variable sections *)

Section VariableSection.

Context (t_end : lexed_token) (Hend : lex t_end = END_MARKER).

Lemma deref_cursor_1 (pre rest : list lexed_token) t t1 :
  deref (pre ++ t :: t1 :: rest) (length pre + 1) = Ok t1.
Proof. rewrite Nat.add_1_r. apply deref_cursor_next. Qed.

Lemma deref_cursor_2 (pre rest : list lexed_token) t t1 t2 :
  deref (pre ++ t :: t1 :: t2 :: rest) (length pre + 2) = Ok t2.
Proof.
  replace (pre ++ t :: t1 :: t2 :: rest) with ((pre ++ [t; t1]) ++ t2 :: rest)
    by (by rewrite <- app_assoc).
  replace (length pre + 2) with (length (pre ++ [t; t1]))
    by (rewrite length_app; simpl; lia).
  apply deref_cursor.
Qed.

Lemma scan_comment_line c words t rest ltp :
  lex c ≠ NEW_LINE -> Forall (fun w => lex w ≠ NEW_LINE) words -> lex t = NEW_LINE ->
  scan_to_new_line (c :: words ++ t :: rest) ltp = Ok (ltp + S (length words)).
Proof.
  intros Hc Hw Ht.
  apply (scan_to_new_line_words (c :: words) t rest ltp); [by constructor|done].
Qed.

Lemma section_tokens_cons i body :
  section_tokens (i :: body) = section_item_tokens i ++ section_tokens body.
Proof. reflexivity. Qed.

(** The value of a name after [declare_all]: the last variable declared
    under it, else what the map held. *)
Lemma declare_all_lookup vs m id :
  declare_all vs m !! id
  = match last (filter (fun v => identifier v = id) vs) with
    | Some v => Some v
    | None => m !! id
    end.
Proof.
  revert m. induction vs as [|v vs IH]; intros m; [done|].
  unfold declare_all in *. cbn [fold_left]. rewrite IH.
  destruct (decide (identifier v = id)) as [E|N].
  - rewrite filter_cons_True by done.
    destruct (filter _ vs) as [|w ws] eqn:F.
    + cbn [last]. subst id. apply lookup_insert_eq.
    + rewrite last_cons_cons. destruct (last (w :: ws)) eqn:L; [done|].
      by apply last_None in L.
  - rewrite filter_cons_False by done.
    destruct (last _); [done|]. by rewrite lookup_insert_ne.
Qed.

(** The loop reads a whole body in as many turns as the body has items,
    plus one, and stops on the [end] behind it. *)
Lemma parse_var_section_loop_body body :
  forall fuel pre suf sec,
    section_wf t_end body ->
    length body < fuel ->
    parse_var_section_loop fuel
      (pre ++ section_tokens body ++ t_end :: suf) (length pre) sec
    = Ok (length (pre ++ section_tokens body),
          ParsedVarSection (declare_all (section_decls body) (param_map sec))).
Proof.
  induction body as [|i body IH]; intros fuel pre suf sec Hwf Hfuel;
    (destruct fuel as [|fuel]; [cbn [length] in Hfuel; lia|]).
  - cbn [section_tokens map concat app length parse_var_section_loop].
    rewrite deref_cursor. cbn [mbind outcome_bind].
    destruct (decide _); [|done]. rewrite app_nil_r. by destruct sec.
  - destruct Hwf as [Hi Hwf].
    rewrite section_tokens_cons, <- app_assoc.
    assert (length body < fuel) as Hfuel' by (cbn [length] in Hfuel; lia).
    assert (forall toks, length ((pre ++ toks) ++ section_tokens body)
                         = length (pre ++ toks ++ section_tokens body)) as El
      by (intros; by rewrite <- app_assoc).
    destruct i as [|words|ty id v|ty|t]; cbn [section_item_tokens app section_decls].
    + (* a NEW_LINE *)
      cbn [parse_var_section_loop]. rewrite deref_cursor. cbn [mbind outcome_bind].
      do 3 (destruct (decide _); [done|]). cbn [mbind outcome_bind].
      specialize (IH fuel (pre ++ [new_line_token]) suf sec Hwf Hfuel').
      rewrite length_app, Nat.add_1_r, <- app_assoc in IH. cbn [app] in IH.
      rewrite IH, <- app_assoc. reflexivity.
    + (* a comment *)
      cbn [parse_var_section_loop]. rewrite deref_cursor. cbn [mbind outcome_bind].
      do 2 (destruct (decide _); [done|]). destruct (decide _); [|done].
      unfold skip_comment. rewrite drop_app_length. rewrite <- app_assoc. cbn [app].
      rewrite scan_comment_line by done.
      cbn [mbind outcome_bind].
      specialize (IH fuel (pre ++ LexedToken SINGLE_COMMENT "//" :: words ++ [new_line_token])
                     suf sec Hwf Hfuel').
      rewrite <- app_assoc in IH. cbn [app] in IH. rewrite <- app_assoc in IH.
      cbn [app] in IH.
      replace (S (length pre + S (length words)))
        with (length (pre ++ LexedToken SINGLE_COMMENT "//" :: words ++ [new_line_token]))
        by (rewrite !length_app; cbn [length]; rewrite length_app; cbn [length]; lia).
      rewrite IH. do 2 f_equal.
      repeat (rewrite ?length_app; cbn [length]). lia.
    + (* a declaration *)
      cbn [parse_var_section_loop]. rewrite deref_cursor. cbn [mbind outcome_bind lex].
      destruct (decide _); [done|]. destruct (decide _); [|done].
      rewrite deref_cursor_1. cbn [mbind outcome_bind lex].
      destruct (decide _); [|done].
      rewrite deref_cursor_2. cbn [mbind outcome_bind lex raw_token].
      destruct (decide _); [|done]. cbn [mbind outcome_bind].
      specialize (IH fuel (pre ++ [LexedToken TYPE_NAME ty; LexedToken VAR_IDENTIFIER id;
                              LexedToken VAR_VALUE v]) suf
                     (param_insert id (Variable_ ty id v) sec) Hwf Hfuel').
      rewrite length_app, <- app_assoc in IH. cbn [app length] in IH.
      replace (S (length pre + 2)) with (length pre + 3) by lia.
      rewrite IH. do 2 f_equal. by rewrite <- app_assoc.
    + (* a type name without its declaration *)
      cbn [parse_var_section_loop]. rewrite deref_cursor. cbn [mbind outcome_bind lex].
      destruct (decide _); [done|]. destruct (decide _); [|done].
      specialize (IH fuel (pre ++ [LexedToken TYPE_NAME ty]) suf sec Hwf Hfuel').
      rewrite length_app, Nat.add_1_r, <- app_assoc in IH. cbn [app] in IH.
      assert (forall o : outcome (nat * parsed_var_section),
                o = Ok (length pre, sec) ->
                o ≫= (fun '(ltp1, sec1) =>
                        parse_var_section_loop fuel
                          (pre ++ LexedToken TYPE_NAME ty
                               :: section_tokens body ++ t_end :: suf) (S ltp1) sec1)
                = Ok (length (pre ++ LexedToken TYPE_NAME ty :: section_tokens body),
                      ParsedVarSection (declare_all (section_decls body) (param_map sec))))
        as Hgo.
      { intros o ->. cbn [mbind outcome_bind]. rewrite IH. do 2 f_equal.
        by rewrite <- app_assoc. }
      apply Hgo. unfold no_declaration in Hi.
      destruct (section_tokens body) as [|nx [|sx toks]] eqn:Etoks; cbn [app] in *.
      * rewrite deref_cursor_1. cbn [mbind outcome_bind].
        destruct (decide _) as [E|]; [congruence|done].
      * rewrite deref_cursor_1. cbn [mbind outcome_bind].
        destruct (decide _) as [E|]; [|done].
        rewrite deref_cursor_2. cbn [mbind outcome_bind].
        destruct (decide _) as [E2|]; [|done]. by destruct Hi.
      * rewrite deref_cursor_1. cbn [mbind outcome_bind].
        destruct (decide _) as [E|]; [|done].
        rewrite deref_cursor_2. cbn [mbind outcome_bind].
        destruct (decide _) as [E2|]; [|done]. by destruct Hi.
    + (* any other token *)
      destruct Hi as (N1 & N2 & N3).
      cbn [parse_var_section_loop]. rewrite deref_cursor. cbn [mbind outcome_bind].
      do 3 (destruct (decide _); [done|]). cbn [mbind outcome_bind].
      specialize (IH fuel (pre ++ [t]) suf sec Hwf Hfuel').
      rewrite length_app, Nat.add_1_r, <- app_assoc in IH. cbn [app] in IH.
      rewrite IH, <- app_assoc. reflexivity.
Qed.

End VariableSection.

(** ** Trial definitions *)

Section TrialDefinition.

Context (t_end : lexed_token) (Hend : lex t_end = END_MARKER).

Lemma close_last_pair_trial t2 s : close_last_pair "trial" t2 s = s.
Proof. unfold close_last_pair. by destruct (decide _) as [(_ & N & _)|_]. Qed.

Lemma iter_trial_new_line pre t t2 rest e cp ct cb cs pl cv :
  lex t = NEW_LINE ->
  parse_def_iter "trial" (cursor pre (t :: t2 :: rest) e cp ct cb cs pl cv)
  = Ok (cursor (pre ++ [t]) (t2 :: rest) e cp ct cb cs NEW_LINE cv).
Proof.
  intros Ht.
  erewrite parse_def_iter_eq with (s1 := cursor pre (t :: t2 :: rest) e cp ct cb cs pl cv).
  - rewrite close_last_pair_trial. unfold cursor, set_ltp, set_prev_lex.
    cbn [ds_ltp ds_l_file ds_e_file curr_pair curr_trial curr_block curr_session
         prev_lex curr_var].
    by rewrite cursor_snoc, length_app, Nat.add_1_r, Ht.
  - apply deref_cursor.
  - unfold parse_def_switch. by rewrite Ht.
  - apply deref_cursor.
  - apply deref_cursor_next.
Qed.

Lemma iter_trial_type pre t t2 rest e cp ct cb cs pl cv :
  lex t = TYPE_NAME ->
  parse_def_iter "trial" (cursor pre (t :: t2 :: rest) e cp ct cb cs pl cv)
  = Ok (cursor (pre ++ [t]) (t2 :: rest) e cp ct cb cs TYPE_NAME
               (Variable_ (raw_token t) (identifier cv) (value cv))).
Proof.
  intros Ht.
  erewrite parse_def_iter_eq
    with (s1 := cursor pre (t :: t2 :: rest) e cp ct cb cs pl
                       (Variable_ (raw_token t) (identifier cv) (value cv))).
  - rewrite close_last_pair_trial. unfold cursor, set_ltp, set_prev_lex.
    cbn [ds_ltp ds_l_file ds_e_file curr_pair curr_trial curr_block curr_session
         prev_lex curr_var].
    by rewrite cursor_snoc, length_app, Nat.add_1_r, Ht.
  - apply deref_cursor.
  - unfold parse_def_switch. rewrite Ht. by destruct (decide _).
  - apply deref_cursor.
  - apply deref_cursor_next.
Qed.

Lemma iter_trial_identifier pre t t2 rest e cp ct cb cs cv :
  lex t = VAR_IDENTIFIER ->
  parse_def_iter "trial" (cursor pre (t :: t2 :: rest) e cp ct cb cs TYPE_NAME cv)
  = Ok (cursor (pre ++ [t]) (t2 :: rest) e cp ct cb cs VAR_IDENTIFIER
               (Variable_ (type_name cv) (raw_token t) (value cv))).
Proof.
  intros Ht.
  erewrite parse_def_iter_eq
    with (s1 := cursor pre (t :: t2 :: rest) e cp ct cb cs TYPE_NAME
                       (Variable_ (type_name cv) (raw_token t) (value cv))).
  - rewrite close_last_pair_trial. unfold cursor, set_ltp, set_prev_lex.
    cbn [ds_ltp ds_l_file ds_e_file curr_pair curr_trial curr_block curr_session
         prev_lex curr_var].
    by rewrite cursor_snoc, length_app, Nat.add_1_r, Ht.
  - apply deref_cursor.
  - unfold parse_def_switch. rewrite Ht. destruct (decide _); [|done].
    cbn [cursor prev_lex]. by destruct (decide _).
  - apply deref_cursor.
  - apply deref_cursor_next.
Qed.

Lemma iter_trial_value pre t t2 rest e cp ct cb cs pl cv :
  lex t = VAR_VALUE -> pl = VAR_IDENTIFIER ∨ pl = NEW_LINE ->
  parse_def_iter "trial" (cursor pre (t :: t2 :: rest) e cp ct cb cs pl cv)
  = Ok (cursor (pre ++ [t]) (t2 :: rest) e cp
               (<[identifier cv := Variable_ (type_name cv) (identifier cv) (raw_token t)]> ct)
               cb cs VAR_VALUE empty_variable).
Proof.
  intros Ht Hpl.
  erewrite parse_def_iter_eq
    with (s1 := cursor pre (t :: t2 :: rest) e cp
                  (<[identifier cv := Variable_ (type_name cv) (identifier cv) (raw_token t)]> ct)
                  cb cs pl empty_variable).
  - rewrite close_last_pair_trial. unfold cursor, set_ltp, set_prev_lex.
    cbn [ds_ltp ds_l_file ds_e_file curr_pair curr_trial curr_block curr_session
         prev_lex curr_var].
    by rewrite cursor_snoc, length_app, Nat.add_1_r, Ht.
  - apply deref_cursor.
  - unfold parse_def_switch. rewrite Ht. cbn [cursor prev_lex].
    destruct (decide (pl ≠ VAR_IDENTIFIER ∧ pl ≠ NEW_LINE)) as [[N1 N2]|_];
      [by destruct Hpl|].
    by destruct (decide _).
  - apply deref_cursor.
  - apply deref_cursor_next.
Qed.

Lemma section_rest_split body suf :
  exists t2 rest, section_tokens body ++ t_end :: suf = t2 :: rest.
Proof. destruct (section_tokens body); simpl; eauto. Qed.

(** The loop reads the body of a trial definition and stops on the [end]
    behind it, without touching the token vector. *)
Lemma parse_def_loop_trial body :
  forall fuel pre suf e cp ct cb cs pl,
    trial_wf body ->
    length (section_tokens body) < fuel ->
    exists pl',
      parse_def_loop fuel "trial"
        (cursor pre (section_tokens body ++ t_end :: suf) e cp ct cb cs pl empty_variable)
      = Ok (cursor (pre ++ section_tokens body) (t_end :: suf) e cp
                   (declare_all (section_decls body) ct) cb cs pl' empty_variable).
Proof.
  induction body as [|i body IH]; intros fuel pre suf e cp ct cb cs pl Hwf Hfuel;
    (destruct fuel as [|fuel]; [lia|]).
  - exists pl. cbn [section_tokens map concat app section_decls].
    rewrite app_nil_r. by apply parse_def_loop_end.
  - rewrite section_tokens_cons, length_app in Hfuel.
    rewrite section_tokens_cons.
    destruct (section_rest_split body suf) as (t2 & rest & Hrest).
    destruct i as [|words|ty id v| |]; cbn [trial_wf] in Hwf; try done;
      cbn [section_item_tokens section_decls length] in *.
    + (* a NEW_LINE *)
      destruct (IH fuel (pre ++ [new_line_token]) suf e cp ct cb cs NEW_LINE Hwf
                   ltac:(lia)) as [pl' Hrun].
      exists pl'. rewrite <- !app_assoc in *. cbn [app] in *. rewrite Hrest in *.
      erewrite parse_def_loop_step; [|done|by apply iter_trial_new_line].
      exact Hrun.
    + (* a comment *)
      destruct Hwf as [Hwords Hwf].
      destruct (IH fuel (pre ++ LexedToken SINGLE_COMMENT "//" :: words ++ [new_line_token])
                   suf e cp ct cb cs NEW_LINE Hwf ltac:(lia)) as [pl' Hrun].
      exists pl'. rewrite <- !app_assoc in *. cbn [app] in *.
      rewrite <- !app_assoc in *. cbn [app] in *. rewrite Hrest in *.
      erewrite parse_def_loop_step; [|done|by apply iter_comment].
      rewrite close_last_pair_trial. exact Hrun.
    + (* a declaration: three turns *)
      destruct fuel as [|[|fuel]]; [lia..|].
      destruct (IH fuel (pre ++ [LexedToken TYPE_NAME ty; LexedToken VAR_IDENTIFIER id;
                                 LexedToken VAR_VALUE v]) suf e cp
                   (<[id := Variable_ ty id v]> ct) cb cs VAR_VALUE Hwf ltac:(lia))
        as [pl' Hrun].
      exists pl'. rewrite <- !app_assoc in *. cbn [app] in *. rewrite Hrest in *.
      erewrite parse_def_loop_step; [|done|by apply iter_trial_type].
      erewrite parse_def_loop_step; [|done|by apply iter_trial_identifier].
      erewrite parse_def_loop_step;
        [|done|apply iter_trial_value; [done|by left]].
      cbn [type_name identifier value raw_token empty_variable].
      rewrite <- !app_assoc. cbn [app]. exact Hrun.
Qed.

End TrialDefinition.

(** X3.  [parse_var_section], in both overloads, reads a section body made
    of declarations [<type> <identifier> <value>], sentinels, comments, type
    names that no declaration follows and other stray tokens: it stops on
    the [end] of the section, leaves the token vector alone, and files under
    the region type a section whose map holds, for every identifier, the
    last variable declared under it; the malformed and stray tokens leave
    no trace. *)
Theorem parse_var_section_body (body : list section_item) (pre suf : list lexed_token)
    (e_file : parsed_expt_file) (b_file : parsed_build_file) (region_type : string)
    (fuel : nat) :
  section_wf end_token body ->
  length body < fuel ->
  let l_file := pre ++ section_tokens body ++ end_token :: suf in
  let sec := ParsedVarSection (declare_all (section_decls body) ∅) in
  parse_var_section fuel (length pre) l_file e_file region_type
  = Ok (length (pre ++ section_tokens body), l_file,
        ParsedExptFile (<[region_type := sec]> (parsed_var_sections e_file))
                       (parsed_trial_info e_file))
  ∧ parse_var_section_build fuel (length pre) l_file b_file region_type
    = Ok (length (pre ++ section_tokens body), l_file,
          ParsedBuildFile (<[region_type := sec]> (build_var_sections b_file)))
  ∧ forall id,
      param_map sec !! id = last (filter (fun v => identifier v = id) (section_decls body)).
Proof.
  intros Hwf Hfuel l_file sec.
  pose proof (parse_var_section_loop_body end_token eq_refl body fuel pre suf
                (ParsedVarSection ∅) Hwf Hfuel) as Hrun.
  split; [|split].
  - unfold parse_var_section. subst l_file. by rewrite Hrun.
  - unfold parse_var_section_build. subst l_file. by rewrite Hrun.
  - intros id. subst sec. cbn [param_map]. rewrite declare_all_lookup.
    by destruct (last _).
Qed.

Lemma parse_var_section_body_witness :
  exists ltp l_file e_file sec,
    parse_var_section 10 8
      (lex_tokenized_file [ ["begin"; "filetype"; "run"]; ["begin"; "section"; "mf_input"] ] []
       ++ section_tokens
            [ SecDecl "int" "rate" "40"; SecComment [LexedToken VAR_IDENTIFIER "Hz"];
              SecBareType "float"; SecNewLine; SecDecl "int" "rate" "41"; SecNewLine ]
       ++ end_token :: [new_line_token; end_token; new_line_token])
      empty_expt_file "mf_input"
    = Ok (ltp, l_file, e_file)
    ∧ parsed_var_sections e_file !! "mf_input" = Some sec
    ∧ param_map sec !! "rate" = Some (Variable_ "int" "rate" "41").
Proof.
  destruct (parse_var_section_body
              [ SecDecl "int" "rate" "40"; SecComment [LexedToken VAR_IDENTIFIER "Hz"];
                SecBareType "float"; SecNewLine; SecDecl "int" "rate" "41"; SecNewLine ]
              (lex_tokenized_file
                 [ ["begin"; "filetype"; "run"]; ["begin"; "section"; "mf_input"] ] [])
              [ new_line_token; end_token; new_line_token ]
              empty_expt_file empty_build_file "mf_input" 10) as (Hrun & _ & Hlook).
  - cbn. repeat split; try discriminate.
    + repeat constructor; discriminate.
    + intros [_ E]. discriminate E.
  - cbn. lia.
  - eexists _, _, _, _. split; [|split].
    + exact Hrun.
    + cbn [parsed_var_sections]. apply lookup_insert_eq.
    + rewrite Hlook. reflexivity.
Defined.

(** X4.  [parse_def] reads the body of a trial definition made of
    declarations [<type> <identifier> <value>], sentinels and comments: it
    stops on the [end] of the definition, leaves the token vector and the
    blocks, sessions and experiment alone, and files under the label a map
    that holds, for every field name, the last variable declared under
    it. *)
Theorem parse_def_trial_body (body : list section_item) (pre suf : list lexed_token)
    (e_file : parsed_expt_file) (def_label : string) (fuel : nat) :
  trial_wf body ->
  length (section_tokens body) < fuel ->
  let l_file := pre ++ section_tokens body ++ end_token :: suf in
  let fields := declare_all (section_decls body) ∅ in
  let pt := parsed_trial_info e_file in
  parse_def fuel (length pre) l_file e_file "trial" def_label
  = Ok (length (pre ++ section_tokens body), l_file,
        ParsedExptFile (parsed_var_sections e_file)
          (ParsedTrialSection (<[def_label := fields]> (trial_map pt))
                              (block_map pt) (session_map pt) (experiment pt)))
  ∧ forall id,
      fields !! id = last (filter (fun v => identifier v = id) (section_decls body)).
Proof.
  intros Hwf Hfuel l_file fields pt.
  destruct (parse_def_loop_trial end_token eq_refl body fuel pre suf e_file empty_pair ∅
              [] [] NONE Hwf Hfuel) as [pl' Hrun].
  split.
  - unfold parse_def.
    change (init_def_state (length pre) l_file e_file)
      with (cursor pre (section_tokens body ++ end_token :: suf) e_file empty_pair ∅
                   [] [] NONE empty_variable).
    rewrite Hrun. cbn [mbind outcome_bind cursor ds_ltp ds_l_file].
    subst l_file. by rewrite <- app_assoc.
  - intros id. subst fields. rewrite declare_all_lookup. by destruct (last _).
Qed.

Lemma parse_def_trial_body_witness :
  exists ltp l_file e_file fields,
    parse_def 10 0
      [ LexedToken TYPE_NAME "int"; LexedToken VAR_IDENTIFIER "use_cs";
        LexedToken VAR_VALUE "1"; new_line_token;
        LexedToken TYPE_NAME "int"; LexedToken VAR_IDENTIFIER "cs_onset";
        LexedToken VAR_VALUE "100"; new_line_token; end_token ]
      empty_expt_file "trial" "t1"
    = Ok (ltp, l_file, e_file)
    ∧ trial_map (parsed_trial_info e_file) !! "t1" = Some fields
    ∧ fields !! "cs_onset" = Some (Variable_ "int" "cs_onset" "100").
Proof.
  destruct (parse_def_trial_body
              [ SecDecl "int" "use_cs" "1"; SecNewLine;
                SecDecl "int" "cs_onset" "100"; SecNewLine ]
              [] [] empty_expt_file "t1" 10) as (Hrun & Hlook).
  - cbn. done.
  - cbn. lia.
  - eexists _, _, _, _. split; [|split].
    + exact Hrun.
    + cbn [parsed_trial_info trial_map]. apply lookup_insert_eq.
    + rewrite Hlook. reflexivity.
Defined.

(** ** The header, exit code by exit code *)

Section HeaderCodes.

Lemma find_first_begin_in_comment words t rest ltp :
  Forall (fun w => lex w ≠ NEW_LINE) words -> lex t = NEW_LINE ->
  find_first_begin true (words ++ t :: rest) ltp
  = find_first_begin false rest (ltp + S (length words)).
Proof.
  intros Hw Ht. revert ltp. induction Hw as [|w words Hw _ IH]; intros ltp.
  - cbn [app find_first_begin length]. rewrite bool_decide_eq_true_2 by done.
    cbn [negb]. f_equal. lia.
  - cbn [app find_first_begin length]. rewrite bool_decide_eq_false_2 by done.
    cbn [negb]. rewrite IH. f_equal. lia.
Qed.

(** The scan walks over sentinels and comments and looks at the first
    token behind them. *)
Lemma find_first_begin_lead lead : forall rest ltp,
  blank_wf lead ->
  find_first_begin false (section_tokens lead ++ rest) ltp
  = find_first_begin false rest (ltp + length (section_tokens lead)).
Proof.
  induction lead as [|i lead IH]; intros rest ltp Hwf.
  - cbn. f_equal. lia.
  - rewrite section_tokens_cons, <- app_assoc, length_app.
    destruct i as [|words| | |]; cbn [blank_wf] in Hwf; try done;
      cbn [section_item_tokens app length find_first_begin lex new_line_token].
    + do 2 (destruct (decide _); [done|]). destruct (decide _); [done|].
      rewrite IH by done. f_equal. lia.
    + destruct Hwf as [Hw Hwf].
      destruct (decide _); [done|]. destruct (decide _); [|done].
      rewrite <- app_assoc. cbn [app].
      rewrite find_first_begin_in_comment by done.
      rewrite IH by done. f_equal. rewrite length_app. cbn [length]. lia.
Qed.

End HeaderCodes.

(** X5.  The header check of both entry points, for a token vector that
    starts with sentinels and comments [lead] followed by the tokens [t],
    [next_lt], [second_next_lt].  If [t] is no [begin], the run ends in
    [exit(1)].  If it is, the run ends in [exit(4)] when [next_lt] is no
    region keyword, in [exit(2)] when it is one other than [filetype], in
    [exit(3)] when the text of [second_next_lt] is not [run] (respectively
    [build]); otherwise the document is what [parse_region] makes of the
    tokens from the fourth behind [begin] on. *)
Theorem header_exit_codes (lead : list section_item) (t next_lt second_next_lt : lexed_token)
    (rest : list lexed_token) (e_file : parsed_expt_file) (b_file : parsed_build_file)
    (fuel : nat) :
  blank_wf lead ->
  lex t ≠ SINGLE_COMMENT -> lex t ≠ NEW_LINE ->
  let l_file := section_tokens lead ++ t :: next_lt :: second_next_lt :: rest in
  let begins := length (section_tokens lead) in
  (lex t ≠ BEGIN_MARKER ->
     parse_lexed_expt_file fuel l_file e_file = Exit 1
     ∧ parse_lexed_build_file fuel l_file b_file = Exit 1)
  ∧ (lex t = BEGIN_MARKER ->
     (lex next_lt ≠ REGION ->
        parse_lexed_expt_file fuel l_file e_file = Exit 4
        ∧ parse_lexed_build_file fuel l_file b_file = Exit 4)
     ∧ (lex next_lt = REGION -> raw_token next_lt ≠ "filetype" ->
        parse_lexed_expt_file fuel l_file e_file = Exit 2
        ∧ parse_lexed_build_file fuel l_file b_file = Exit 2)
     ∧ (lex next_lt = REGION -> raw_token next_lt = "filetype" ->
        (raw_token second_next_lt ≠ "run" ->
           parse_lexed_expt_file fuel l_file e_file = Exit 3)
        ∧ (raw_token second_next_lt ≠ "build" ->
           parse_lexed_build_file fuel l_file b_file = Exit 3)
        ∧ (raw_token second_next_lt = "run" ->
           parse_lexed_expt_file fuel l_file e_file
           = parse_region fuel (begins + 4) l_file e_file "run"
             ≫= fun '(_, l_file', e_file') => Ok (l_file', e_file'))
        ∧ (raw_token second_next_lt = "build" ->
           parse_lexed_build_file fuel l_file b_file
           = parse_region_build fuel (begins + 4) l_file b_file "build"
             ≫= fun '(_, l_file', b_file') => Ok (l_file', b_file')))).
Proof.
  intros Hlead Hc Hn l_file begins.
  assert (lex t ≠ BEGIN_MARKER -> find_first_begin false l_file 0 = Exit 1) as Hstray.
  { intros Hb. subst l_file. rewrite find_first_begin_lead by done.
    cbn [find_first_begin]. by repeat (destruct (decide _); [done|]). }
  assert (lex t = BEGIN_MARKER -> find_first_begin false l_file 0 = Ok begins) as Hbegin.
  { intros Hb. subst l_file. rewrite find_first_begin_lead by done.
    cbn [find_first_begin]. by destruct (decide _). }
  assert (deref l_file (begins + 1) = Ok next_lt) as D1 by apply deref_cursor_1.
  assert (deref l_file (begins + 2) = Ok second_next_lt) as D2 by apply deref_cursor_2.
  split.
  - intros Hb. unfold parse_lexed_expt_file, parse_lexed_build_file.
    by rewrite (Hstray Hb).
  - intros Hb. unfold parse_lexed_expt_file, parse_lexed_build_file.
    rewrite (Hbegin Hb). cbn [mbind outcome_bind]. rewrite D1. cbn [mbind outcome_bind].
    split; [|split].
    + intros Hr. by destruct (decide _).
    + intros Hr Hf. destruct (decide _); [|done]. by destruct (decide _).
    + intros Hr Hf. destruct (decide _); [|done]. destruct (decide _); [done|].
      rewrite D2. cbn [mbind outcome_bind].
      repeat split; intros H; destruct (decide _); try done; by rewrite H.
Qed.

Lemma header_exit_codes_witness :
  parse_lexed_expt_file 5
    (lex_tokenized_file [ ["//"; "a"; "build"; "file"]; ["begin"; "filetype"; "build"] ] [])
    empty_expt_file
  = Exit 3.
Proof.
  apply (header_exit_codes [SecComment [LexedToken VAR_IDENTIFIER "a";
                                        LexedToken REGION_TYPE "build";
                                        LexedToken VAR_IDENTIFIER "file"]]
           (LexedToken BEGIN_MARKER "begin") (LexedToken REGION "filetype")
           (LexedToken REGION_TYPE "build") [new_line_token]
           empty_expt_file empty_build_file 5).
  - cbn. split; [|done]. repeat constructor; discriminate.
  - discriminate.
  - discriminate.
  - reflexivity.
  - reflexivity.
  - reflexivity.
  - discriminate.
Defined.

(** ** The trial table *)

Section Names.

Lemma write_names_spec n : forall (names : list string) first_empty label,
  write_names names first_empty n label
  = if decide (n = 0 ∨ first_empty + n <= length names) then
      Ok (take first_empty names ++ replicate n label ++ drop (first_empty + n) names)
    else Undefined.
Proof.
  induction n as [|n IH]; intros names fe label.
  - cbn [write_names replicate app].
    destruct (decide (0 = 0 ∨ fe + 0 <= length names)) as [_|N]; [|by destruct N; left].
    by rewrite Nat.add_0_r, take_drop.
  - cbn [write_names]. destruct (decide (fe < length names)) as [Hlt|Hge].
    + rewrite IH, length_insert.
      destruct (decide (n = 0 ∨ S fe + n <= length names)) as [H1|H1];
        destruct (decide (S n = 0 ∨ fe + S n <= length names)) as [H2|H2]; try lia.
      * f_equal.
        destruct (lookup_lt_is_Some_2 names fe Hlt) as [x Hx].
        rewrite (take_S_r (<[fe:=label]> names) fe label)
          by (by rewrite list_lookup_insert_eq).
        rewrite take_insert_ge by lia.
        rewrite drop_insert_lt by lia.
        rewrite <- app_assoc. cbn [replicate app].
        by replace (S fe + n) with (fe + S n) by lia.
      * done.
    + destruct (decide (S n = 0 ∨ fe + S n <= length names)) as [H|H]; [|done].
      destruct H; lia.
Qed.

End Names.

(** X6.  The loop that writes a trial's name [n] times from [first_empty]
    on: it returns the array with exactly the [n] cells from [first_empty]
    set to the label and every other cell as it was when these cells exist;
    when they do not all exist it writes outside the array. *)
Theorem write_names_in_bounds (names : list string) (first_empty n : nat) (label : string) :
  (first_empty + n <= length names ->
     exists names',
       write_names names first_empty n label = Ok names'
       ∧ length names' = length names
       ∧ forall i,
           names' !! i
           = if decide (first_empty <= i < first_empty + n) then Some label
             else names !! i)
  ∧ (0 < n -> length names < first_empty + n ->
     write_names names first_empty n label = Undefined).
Proof.
  rewrite write_names_spec. split.
  - intros Hle.
    destruct (decide (n = 0 ∨ first_empty + n <= length names)) as [_|N];
      [|destruct N; by right].
    eexists. split; [reflexivity|]. split.
    + rewrite !length_app, length_replicate, length_take, length_drop. lia.
    + intros i. destruct (decide (first_empty <= i < first_empty + n)) as [Hi|Hi].
      * rewrite lookup_app_r by (rewrite length_take; lia).
        rewrite length_take, lookup_app_l by (rewrite length_replicate; lia).
        apply lookup_replicate_2. lia.
      * destruct (decide (i < first_empty)).
        -- rewrite lookup_app_l by (rewrite length_take; lia).
           by rewrite lookup_take_lt.
        -- rewrite lookup_app_r by (rewrite length_take; lia).
           rewrite length_take.
           rewrite lookup_app_r by (rewrite length_replicate; lia).
           rewrite length_replicate, lookup_drop. f_equal. lia.
  - intros Hn Hgt.
    destruct (decide (n = 0 ∨ first_empty + n <= length names)) as [H|H]; [|done].
    destruct H; lia.
Qed.

Lemma write_names_in_bounds_witness :
  write_names ["a"; ""; ""; ""] 1 3 "t" = Ok ["a"; "t"; "t"; "t"]
  ∧ write_names ["a"; ""; ""; ""] 1 4 "t" = Undefined.
Proof.
  destruct (write_names_in_bounds ["a"; ""; ""; ""] 1 3 "t") as [H1 _].
  destruct (write_names_in_bounds ["a"; ""; ""; ""] 1 4 "t") as [_ H2].
  split; [reflexivity|]. apply H2; cbn; lia.
Defined.

(** ** The name expansion, against the walk of the code *)

Section NameExpansion.

Context (pt : parsed_trial_section).

Lemma find_empty_app (written : list string) m : forall i,
  "" ∉ written ->
  find_empty (written ++ replicate m "") i
  = match m with 0 => None | S _ => Some (i + length written) end.
Proof.
  induction written as [|x written IH]; intros i Hd.
  - destruct m; cbn; [done|]. by rewrite Nat.add_0_r.
  - cbn [app find_empty]. apply not_elem_of_cons in Hd as [Hx Hd].
    destruct (decide (x = "")) as [->|_]; [done|].
    rewrite IH by done. destruct m; [done|]. cbn [length]. f_equal. lia.
Qed.

(** A trial's pair: its label fills the first [n] empty cells. *)
Lemma write_first_empty (written : list string) n m label :
  "" ∉ written ->
  match find_empty (written ++ replicate (n + m) "") 0 with
  | Some first_empty => write_names (written ++ replicate (n + m) "") first_empty n label
  | None => Ok (written ++ replicate (n + m) "")
  end = Ok ((written ++ replicate n label) ++ replicate m "").
Proof.
  intros Hd. rewrite find_empty_app by done.
  destruct (n + m) as [|q] eqn:E.
  - assert (n = 0) as -> by lia. assert (m = 0) as -> by lia.
    cbn [replicate]. by rewrite !app_nil_r.
  - rewrite <- E. cbn [Nat.add]. rewrite write_names_spec.
    destruct (decide (n = 0 ∨ length written + n <= length (written ++ replicate (n + m) "")))
      as [_|N].
    2:{ destruct N. right. rewrite length_app, length_replicate. lia. }
    f_equal. rewrite take_app_length.
    rewrite drop_app_add', drop_replicate by done.
    rewrite <- app_assoc. do 3 f_equal. lia.
Qed.

(** A block's or session's pair: [n] turns of a body that appends [inner]
    append [n] copies of it. *)
Lemma for_loop_copies (body : list string -> outcome (list string)) (inner : list string) :
  "" ∉ inner ->
  (forall written k, "" ∉ written ->
     body (written ++ replicate (length inner + k) "") = Ok (written ++ inner ++ replicate k "")) ->
  forall n written k, "" ∉ written ->
    for_loop n body (written ++ replicate (length (concat (replicate n inner)) + k) "")
    = Ok ((written ++ concat (replicate n inner)) ++ replicate k "").
Proof.
  intros Hi Hbody. induction n as [|n IH]; intros written k Hd.
  - cbn. by rewrite app_nil_r.
  - cbn [replicate concat for_loop]. rewrite length_app, <- Nat.add_assoc.
    rewrite Hbody by done. cbn [mbind outcome_bind].
    rewrite (app_assoc written inner), IH.
    + by rewrite <- !app_assoc.
    + rewrite elem_of_app. tauto.
Qed.

Lemma not_elem_of_copies (inner : list string) n :
  0 < n -> "" ∉ concat (replicate n inner) -> "" ∉ inner.
Proof.
  intros Hn H Hin. apply H. destruct n; [lia|]. cbn. rewrite elem_of_app. by left.
Qed.

Lemma helper_fuel fuel fuel' names v r :
  fuel <= fuel' ->
  initialize_trial_names_helper fuel pt names v = Ok r ->
  initialize_trial_names_helper fuel' pt names v = Ok r.
Proof. intros Hle. apply refines_Ok. by apply initialize_trial_names_helper_mono. Qed.

Lemma expand_fuel fuel fuel' names v r :
  fuel <= fuel' ->
  expand_names (initialize_trial_names_helper fuel pt) pt names v = Ok r ->
  expand_names (initialize_trial_names_helper fuel' pt) pt names v = Ok r.
Proof.
  intros Hle. apply refines_Ok. apply expand_names_mono.
  intros. by apply initialize_trial_names_helper_mono.
Qed.

(** The step common to blocks and sessions. *)
Lemma expand_container fv fr p rest c v inner names :
  stoi (second p) = Ok c ->
  trial_map pt !! first p = None ->
  (forall rec names0,
     match block_map pt !! first p with
     | Some v0 => rec names0 v0
     | None => match session_map pt !! first p with
               | Some v0 => rec names0 v0
               | None => Ok names0
               end
     end = rec names0 v :> outcome (list string)) ->
  "" ∉ concat (replicate (Z.to_nat (to_uint32 c)) inner) ++ names ->
  ("" ∉ inner -> forall written k, "" ∉ written ->
     expand_names (initialize_trial_names_helper fv pt) pt
       (written ++ replicate (length inner + k) "") v = Ok (written ++ inner ++ replicate k "")) ->
  (forall written k, "" ∉ written ->
     expand_names (initialize_trial_names_helper fr pt) pt
       (written ++ replicate (length names + k) "") rest = Ok (written ++ names ++ replicate k "")) ->
  forall written k, "" ∉ written ->
    expand_names (initialize_trial_names_helper (S (fv `max` fr)) pt) pt
      (written ++ replicate
         (length (concat (replicate (Z.to_nat (to_uint32 c)) inner) ++ names) + k) "")
      (p :: rest)
    = Ok (written ++ (concat (replicate (Z.to_nat (to_uint32 c)) inner) ++ names)
            ++ replicate k "").
Proof.
  intros Hc Ht Hsel Hne IHv IHr written k Hd.
  cbn [expand_names]. rewrite Ht, Hc. cbn [mbind outcome_bind].
  set (n := Z.to_nat (to_uint32 c)) in *.
  rewrite elem_of_app in Hne.
  rewrite length_app, <- Nat.add_assoc.
  destruct (decide (n = 0)) as [E|E].
  - rewrite E. cbn [replicate concat length Nat.add for_loop app mbind outcome_bind].
    eapply expand_fuel; [|by apply IHr]. lia.
  - assert ("" ∉ inner) as Hi by (apply (not_elem_of_copies inner n); [lia|tauto]).
    rewrite (for_loop_copies _ inner Hi).
    + cbn [mbind outcome_bind].
      erewrite expand_fuel; [| |apply IHr]; [|lia|].
      * by rewrite <- !app_assoc.
      * rewrite elem_of_app. tauto.
    + intros written' k' Hd'. rewrite Hsel.
      apply (helper_fuel (S fv)); [lia|]. cbn [initialize_trial_names_helper].
      by apply IHv.
    + done.
Qed.

Lemma expand_names_complete in_vec names :
  expansion pt in_vec names -> "" ∉ names ->
  exists fuel, forall written k, "" ∉ written ->
    expand_names (initialize_trial_names_helper fuel pt) pt
      (written ++ replicate (length names + k) "") in_vec
    = Ok (written ++ names ++ replicate k "").
Proof.
  induction 1 as [|p rest c fields names Ht Hc _ IHr
                  |p rest c v inner names Ht Hb Hc _ IHv _ IHr
                  |p rest c v inner names Ht Hb Hs Hc _ IHv _ IHr]; intros Hne.
  - exists 0. intros written k Hd. done.
  - rewrite elem_of_app in Hne.
    destruct IHr as [fr IHr]; [tauto|]. exists fr. intros written k Hd.
    cbn [expand_names]. rewrite Ht.
    rewrite length_app, length_replicate, <- Nat.add_assoc.
    pose proof (write_first_empty written (Z.to_nat (to_uint32 c)) (length names + k)
                  (first p) Hd) as Hw.
    destruct (find_empty _ 0) as [first_empty|].
    + rewrite Hc. cbn [mbind outcome_bind]. rewrite Hw. cbn [mbind outcome_bind].
      rewrite IHr; [by rewrite <- !app_assoc|].
      rewrite elem_of_app. intros [?|Hin]; [done|].
      apply elem_of_replicate in Hin as [E Hn].
      apply Hne. left. rewrite <- E. by apply elem_of_replicate.
    + cbn [mbind outcome_bind]. injection Hw as Hw. rewrite Hw.
      rewrite IHr; [by rewrite <- !app_assoc|].
      rewrite elem_of_app. intros [?|Hin]; [done|].
      apply elem_of_replicate in Hin as [E Hn].
      apply Hne. left. rewrite <- E. by apply elem_of_replicate.
  - assert (exists fv, "" ∉ inner -> forall written k, "" ∉ written ->
              expand_names (initialize_trial_names_helper fv pt) pt
                (written ++ replicate (length inner + k) "") v
              = Ok (written ++ inner ++ replicate k "")) as [fv IHv'].
    { destruct (decide ("" ∈ inner)) as [Hin|Hin]; [by exists 0|].
      destruct (IHv Hin) as [fv IHv']. by exists fv. }
    destruct IHr as [fr IHr]; [rewrite elem_of_app in Hne; tauto|].
    exists (S (fv `max` fr)).
    apply (expand_container fv fr p rest c v inner names); try done.
    intros rec names0. by rewrite Hb.
  - assert (exists fv, "" ∉ inner -> forall written k, "" ∉ written ->
              expand_names (initialize_trial_names_helper fv pt) pt
                (written ++ replicate (length inner + k) "") v
              = Ok (written ++ inner ++ replicate k "")) as [fv IHv'].
    { destruct (decide ("" ∈ inner)) as [Hin|Hin]; [by exists 0|].
      destruct (IHv Hin) as [fv IHv']. by exists fv. }
    destruct IHr as [fr IHr]; [rewrite elem_of_app in Hne; tauto|].
    exists (S (fv `max` fr)).
    apply (expand_container fv fr p rest c v inner names); try done.
    intros rec names0. by rewrite Hb, Hs.
Qed.




End NameExpansion.

Lemma expansion_example :
  expansion example_hierarchy (experiment example_hierarchy)
    (replicate 2 "A" ++ concat (replicate 3 (replicate 4 "C" ++ [])) ++ []).
Proof.
  apply (expansion_trial _ (Pair "A" "2") _ 2 ∅); [reflexivity..|].
  apply (expansion_block _ (Pair "B" "3") _ 3 [Pair "C" "4"] (replicate 4 "C" ++ []));
    [reflexivity..| |constructor].
  apply (expansion_trial _ (Pair "C" "4") _ 4 ∅); [reflexivity..|constructor].
Qed.


(** X7.  The name walk writes the depth-first expansion of the list it is
    given into the first empty cells of the array: with enough fuel, and at
    least as many empty cells after the names already written as the
    expansion is long, it returns the array with the expansion in those
    cells, the names before them and the empty cells after them as they
    were.  No name of the expansion may be the empty string, which is how
    the code tells an empty cell. *)
Theorem initialize_trial_names_expands (pt : parsed_trial_section)
    (in_vec : list pair) (names : list string) :
  expansion pt in_vec names -> "" ∉ names ->
  exists fuel0, forall fuel, fuel0 <= fuel ->
    forall (written : list string) (k : nat), "" ∉ written ->
      initialize_trial_names_helper fuel pt
        (written ++ replicate (length names + k) "") in_vec
      = Ok (written ++ names ++ replicate k "").
Proof.
  intros Hexp Hne. destruct (expand_names_complete pt _ _ Hexp Hne) as [f Hf].
  exists (S f). intros fuel Hle written k Hd.
  apply (helper_fuel pt (S f)); [done|]. cbn [initialize_trial_names_helper].
  by apply Hf.
Qed.

Lemma initialize_trial_names_expands_witness :
  exists fuel0, forall fuel, fuel0 <= fuel ->
    forall (written : list string) (k : nat), "" ∉ written ->
      initialize_trial_names_helper fuel example_hierarchy
        (written ++ replicate (14 + k) "") (experiment example_hierarchy)
      = Ok (written ++ ["A"; "A"; "C"; "C"; "C"; "C"; "C"; "C"; "C"; "C"; "C"; "C"; "C"; "C"]
              ++ replicate k "").
Proof.
  apply (initialize_trial_names_expands example_hierarchy (experiment example_hierarchy)
           (replicate 2 "A" ++ concat (replicate 3 (replicate 4 "C" ++ [])) ++ [])).
  - exact expansion_example.
  - cbn. rewrite !elem_of_cons, elem_of_nil.
    intros H; repeat destruct H as [H|H]; done.
Defined.



(** ** Filling the trial table *)

Section TableRows.

Context (pt : parsed_trial_section).











End TableRows.



(** ** From the parsed file to the trial table *)






(** ** The parser on a whole experiment file *)

Section ExperimentFile.

Lemma cursor_lookup (pre l : list lexed_token) i : (pre ++ l) !! (length pre + i) = l !! i.
Proof. rewrite lookup_app_r by lia. f_equal. lia. Qed.

Lemma cursor_lookup_0 (pre l : list lexed_token) a : (pre ++ a :: l) !! length pre = Some a.
Proof. apply list_lookup_middle. done. Qed.

Lemma cursor_lookup_1 (pre l : list lexed_token) a b :
  (pre ++ a :: b :: l) !! (length pre + 1) = Some b.
Proof. by rewrite cursor_lookup. Qed.

Lemma cursor_lookup_2 (pre l : list lexed_token) a b c :
  (pre ++ a :: b :: c :: l) !! (length pre + 2) = Some c.
Proof. by rewrite cursor_lookup. Qed.

Lemma cursor_4 (pre rest : list lexed_token) a b c d :
  length pre + 4 = length (pre ++ [a; b; c; d])
  ∧ pre ++ a :: b :: c :: d :: rest = (pre ++ [a; b; c; d]) ++ rest.
Proof. split; [rewrite length_app; cbn; lia|by rewrite <- app_assoc]. Qed.

Lemma cursor_next (pre mid rest : list lexed_token) t :
  S (length (pre ++ mid)) = length ((pre ++ mid) ++ [t])
  ∧ pre ++ mid ++ t :: rest = ((pre ++ mid) ++ [t]) ++ rest.
Proof. split; [rewrite !length_app; cbn; lia|by rewrite <- !app_assoc]. Qed.

(** *** The trial section *)

Lemma parse_trial_section_end fuel pre t rest e :
  lex t = END_MARKER ->
  parse_trial_section (S fuel) (length pre) (pre ++ t :: rest) e
  = Ok (length pre, pre ++ t :: rest, e).
Proof.
  intros Ht. cbn [parse_trial_section]. rewrite deref_cursor. cbn [mbind outcome_bind].
  by destruct (decide (lex t = END_MARKER)).
Qed.

Lemma parse_trial_section_skip fuel pre t rest e :
  lex t ≠ END_MARKER -> lex t ≠ DEF -> lex t ≠ SINGLE_COMMENT ->
  parse_trial_section (S fuel) (length pre) (pre ++ t :: rest) e
  = parse_trial_section fuel (length (pre ++ [t])) ((pre ++ [t]) ++ rest) e.
Proof.
  intros H1 H2 H3. cbn [parse_trial_section]. rewrite deref_cursor.
  cbn [mbind outcome_bind].
  destruct (decide (lex t = END_MARKER)); [done|].
  destruct (decide (lex t = DEF)); [done|].
  destruct (decide (lex t = SINGLE_COMMENT)); [done|].
  cbn [mbind outcome_bind]. by rewrite length_app, Nat.add_1_r, <- app_assoc.
Qed.

Lemma parse_trial_section_comment fuel pre words rest e :
  Forall (fun t => lex t ≠ NEW_LINE) words ->
  let line := LexedToken SINGLE_COMMENT "//" :: words ++ [new_line_token] in
  parse_trial_section (S fuel) (length pre) (pre ++ line ++ rest) e
  = parse_trial_section fuel (length (pre ++ line)) ((pre ++ line) ++ rest) e.
Proof.
  intros Hw line. subst line. cbn [app]. rewrite <- (app_assoc words).
  cbn [app parse_trial_section]. rewrite deref_cursor. cbn [mbind outcome_bind lex].
  destruct (decide (SINGLE_COMMENT = END_MARKER)); [done|].
  destruct (decide (SINGLE_COMMENT = DEF)); [done|].
  destruct (decide (SINGLE_COMMENT = SINGLE_COMMENT)); [|done].
  unfold skip_comment. rewrite drop_app_length.
  rewrite scan_comment_line by done. cbn [mbind outcome_bind].
  f_equal.
  - rewrite !length_app. cbn [length]. rewrite length_app. cbn [length]. lia.
  - rewrite <- !app_assoc. cbn [app]. by rewrite <- app_assoc.
Qed.

(** [parse_def] on the body of a trial definition. *)
Lemma parse_def_trial fuel pre body suf e label skipped :
  trial_wf body -> length (section_tokens body) < fuel ->
  parse_def fuel (length pre) (pre ++ section_tokens body ++ end_token :: suf) e
            "trial" label
  = Ok (length (pre ++ section_tokens body),
        pre ++ section_tokens body ++ end_token :: suf,
        define (DefTrial label skipped body) e).
Proof.
  intros Hwf Hfuel.
  destruct (parse_def_loop_trial end_token eq_refl body fuel pre suf e empty_pair ∅
              [] [] NONE Hwf Hfuel) as [pl' Hrun].
  unfold parse_def.
  change (init_def_state (length pre) (pre ++ section_tokens body ++ end_token :: suf) e)
    with (cursor pre (section_tokens body ++ end_token :: suf) e empty_pair ∅
                 [] [] NONE empty_variable).
  rewrite Hrun. cbn [mbind outcome_bind cursor ds_ltp ds_l_file].
  by rewrite <- app_assoc.
Qed.

Lemma fold_file_experiment_other def_type ps e :
  def_type = "block" ∨ def_type = "session" ->
  fold_left (file_experiment def_type) ps e = e.
Proof.
  intros Hd. revert e. induction ps as [|p ps IH]; intros e; [done|].
  cbn [fold_left]. rewrite <- (IH e) at 2. f_equal.
  unfold file_experiment.
  destruct (decide (def_type = "block")); [done|].
  destruct (decide (def_type = "session")); [done|]. by destruct Hd.
Qed.

Lemma fold_file_experiment_all ps : forall e,
  fold_left (file_experiment "experiment") ps e
  = set_trial_info
      (ParsedTrialSection (trial_map (parsed_trial_info e)) (block_map (parsed_trial_info e))
         (session_map (parsed_trial_info e)) (experiment (parsed_trial_info e) ++ ps)) e.
Proof.
  induction ps as [|p ps IH]; intros e.
  - cbn [fold_left]. rewrite app_nil_r. by destruct e as [vs []].
  - cbn [fold_left]. rewrite IH.
    assert (file_experiment "experiment" e p = experiment_push_back p e) as ->.
    { unfold file_experiment. by repeat (destruct (decide _); try done). }
    unfold experiment_push_back, set_trial_info, set_experiment.
    cbn [parsed_trial_info parsed_var_sections trial_map block_map session_map experiment].
    by rewrite <- app_assoc.
Qed.

(** [parse_def] on the body of a block, session or experiment definition. *)
Lemma parse_def_container def_type label skipped body pre suf e :
  def_type ∈ ["block"; "session"; "experiment"] -> body_wf None body ->
  exists fuel0 pre',
    forall fuel, fuel0 <= fuel ->
      parse_def fuel (length pre) (pre ++ body_tokens body ++ end_token :: suf) e
                def_type label
      = Ok (length pre', pre' ++ end_token :: suf,
            define (DefContainer def_type label skipped body) e).
Proof.
  intros Hd Hbody.
  assert (def_type ≠ "trial") as Hdef.
  { intros ->. repeat (apply elem_of_cons in Hd as [Hd|Hd]; [discriminate Hd|]).
    by apply elem_of_nil in Hd. }
  destruct (parse_def_body def_type Hdef end_token eq_refl body suf pre e label Hbody)
    as (fuel0 & pre' & s & Hrun & He & Hb & Hs).
  exists fuel0, pre'. intros fuel Hle. rewrite (Hrun fuel Hle). do 2 f_equal.
  unfold store_def, define. rewrite He.
  destruct (decide (def_type = "trial")) as [|_]; [done|].
  destruct (decide (def_type = "block")) as [->|Hnb].
  { rewrite fold_file_experiment_other by (by left).
    by rewrite Hb, fold_file_block. }
  destruct (decide (def_type = "session")) as [->|Hns].
  { rewrite fold_file_experiment_other by (by right).
    by rewrite Hs, fold_file_session. }
  assert (def_type = "experiment") as ->.
  { repeat (apply elem_of_cons in Hd as [Hd|Hd]; [done|]). by apply elem_of_nil in Hd. }
  apply fold_file_experiment_all.
Qed.

Lemma trial_items_tokens_cons i items :
  trial_items_tokens (i :: items) = trial_item_tokens i ++ trial_items_tokens items.
Proof. reflexivity. Qed.

Lemma parse_trial_section_fuel fuel fuel' ltp l_file e r :
  fuel <= fuel' ->
  parse_trial_section fuel ltp l_file e = Ok r ->
  parse_trial_section fuel' ltp l_file e = Ok r.
Proof. intros Hle. apply refines_Ok. by apply parse_trial_section_mono. Qed.

(** The loop of [parse_trial_section] reads the items one after the other
    and stops on the [end] behind them. *)
Lemma parse_trial_section_items items : forall pre suf e,
  Forall trial_item_wf items ->
  exists fuel pre',
    parse_trial_section fuel (length pre)
      (pre ++ trial_items_tokens items ++ end_token :: suf) e
    = Ok (length pre', pre' ++ end_token :: suf, fold_left trial_item_document items e).
Proof.
  induction items as [|i items IH]; intros pre suf e Hwf.
  - exists 1, pre. by apply parse_trial_section_end.
  - apply Forall_cons in Hwf as [Hi Hwf].
    rewrite trial_items_tokens_cons, <- app_assoc.
    destruct i as [t|words|[label skipped body|def_type label skipped body]];
      cbn [trial_item_wf trial_item_tokens fold_left trial_item_document] in *.
    + destruct Hi as (H1 & H2 & H3).
      destruct (IH (pre ++ [t]) suf e Hwf) as (fuel & pre' & Hrun).
      exists (S fuel), pre'. cbn [app]. by rewrite parse_trial_section_skip.
    + destruct (IH (pre ++ LexedToken SINGLE_COMMENT "//" :: words ++ [new_line_token])
                  suf e Hwf) as (fuel & pre' & Hrun).
      exists (S fuel), pre'. by rewrite parse_trial_section_comment.
    + cbn [definition_wf definition_tokens] in *. unfold def_header at 1.
      set (rest := trial_items_tokens items ++ end_token :: suf) in *.
      set (pre4 := pre ++ def_header "trial" label skipped).
      destruct (IH ((pre4 ++ section_tokens body) ++ [end_token]) suf
                  (define (DefTrial label skipped body) e) Hwf)
        as (fuel & pre' & Hrun).
      exists (S (fuel `max` S (length (section_tokens body)))), pre'.
      rewrite <- !app_assoc. cbn [app].
      erewrite parse_trial_section_def;
        [|apply cursor_lookup_0|done|apply cursor_lookup_1|done
         |apply cursor_lookup_2|done].
      cbn [raw_token].
      destruct (cursor_4 pre (section_tokens body ++ end_token :: rest)
                  (LexedToken DEF "def") (LexedToken DEF_TYPE "trial")
                  (LexedToken VAR_IDENTIFIER label) skipped) as [-> ->].
      fold (def_header "trial" label skipped). fold pre4.
      rewrite (parse_def_trial _ _ _ _ _ _ skipped) by (done || lia).
      cbn [mbind outcome_bind].
      destruct (cursor_next pre4 (section_tokens body) rest end_token) as [-> ->].
      apply (parse_trial_section_fuel fuel); [lia|]. exact Hrun.
    + cbn [definition_wf definition_tokens] in *. unfold def_header at 1.
      destruct Hi as [Hd Hbody].
      set (rest := trial_items_tokens items ++ end_token :: suf) in *.
      set (pre4 := pre ++ def_header def_type label skipped).
      destruct (parse_def_container def_type label skipped body pre4 rest e Hd Hbody)
        as (fd & pre'' & Hdef).
      destruct (IH (pre'' ++ [end_token]) suf
                  (define (DefContainer def_type label skipped body) e) Hwf)
        as (fuel & pre' & Hrun).
      exists (S (fuel `max` fd)), pre'.
      rewrite <- !app_assoc. cbn [app].
      erewrite parse_trial_section_def;
        [|apply cursor_lookup_0|done|apply cursor_lookup_1|done
         |apply cursor_lookup_2|done].
      cbn [raw_token].
      destruct (cursor_4 pre (body_tokens body ++ end_token :: rest)
                  (LexedToken DEF "def") (LexedToken DEF_TYPE def_type)
                  (LexedToken VAR_IDENTIFIER label) skipped) as [-> ->].
      fold (def_header def_type label skipped). fold pre4.
      rewrite Hdef by lia. cbn [mbind outcome_bind].
      replace (S (length pre'')) with (length (pre'' ++ [end_token]))
        by (rewrite length_app; cbn; lia).
      rewrite (cons_middle end_token pre'' rest), app_assoc.
      apply (parse_trial_section_fuel fuel); [lia|]. exact Hrun.
Qed.

(** *** The regions of the file *)

Lemma parse_region_scan_end fuel pre t rest e :
  lex t = END_MARKER ->
  parse_region_scan (S fuel) (length pre) (pre ++ t :: rest) e
  = Ok (length pre, pre ++ t :: rest, e).
Proof.
  intros Ht. cbn [parse_region_scan]. rewrite deref_cursor. cbn [mbind outcome_bind].
  by destruct (decide (lex t = END_MARKER)).
Qed.

Lemma parse_region_scan_skip fuel pre t rest e :
  lex t ≠ END_MARKER -> lex t ≠ BEGIN_MARKER -> lex t ≠ SINGLE_COMMENT ->
  parse_region_scan (S fuel) (length pre) (pre ++ t :: rest) e
  = parse_region_scan fuel (length (pre ++ [t])) ((pre ++ [t]) ++ rest) e.
Proof.
  intros H1 H2 H3. cbn [parse_region_scan]. rewrite deref_cursor.
  cbn [mbind outcome_bind].
  destruct (decide (lex t = END_MARKER)); [done|].
  destruct (decide (lex t = BEGIN_MARKER)); [done|].
  destruct (decide (lex t = SINGLE_COMMENT)); [done|].
  cbn [mbind outcome_bind]. by rewrite length_app, Nat.add_1_r, <- app_assoc.
Qed.

Lemma parse_region_scan_comment fuel pre words rest e :
  Forall (fun t => lex t ≠ NEW_LINE) words ->
  let line := LexedToken SINGLE_COMMENT "//" :: words ++ [new_line_token] in
  parse_region_scan (S fuel) (length pre) (pre ++ line ++ rest) e
  = parse_region_scan fuel (length (pre ++ line)) ((pre ++ line) ++ rest) e.
Proof.
  intros Hw line. subst line. cbn [app]. rewrite <- (app_assoc words).
  cbn [app parse_region_scan]. rewrite deref_cursor. cbn [mbind outcome_bind lex].
  destruct (decide (SINGLE_COMMENT = END_MARKER)); [done|].
  destruct (decide (SINGLE_COMMENT = BEGIN_MARKER)); [done|].
  destruct (decide (SINGLE_COMMENT = SINGLE_COMMENT)); [|done].
  unfold skip_comment. rewrite drop_app_length.
  rewrite scan_comment_line by done. cbn [mbind outcome_bind].
  f_equal.
  - rewrite !length_app. cbn [length]. rewrite length_app. cbn [length]. lia.
  - rewrite <- !app_assoc. cbn [app]. by rewrite <- app_assoc.
Qed.

(** [parse_region] on a variable section. *)
Lemma parse_region_var fuel pre body suf e region_type skipped :
  region_type ∈ ["mf_input"; "activity"; "trial_spec"] ->
  section_wf end_token body -> S (length body) < fuel ->
  parse_region fuel (length pre) (pre ++ section_tokens body ++ end_token :: suf) e
               region_type
  = Ok (length (pre ++ section_tokens body),
        pre ++ section_tokens body ++ end_token :: suf,
        region_document e (RgVar region_type skipped body)).
Proof.
  intros Hrt Hwf Hfuel. destruct fuel as [|fuel]; [lia|]. cbn [parse_region].
  destruct (decide (region_type = "mf_input" ∨ region_type = "activity"
                    ∨ region_type = "trial_spec")) as [_|N].
  2:{ destruct N. rewrite !elem_of_cons, elem_of_nil in Hrt. tauto. }
  unfold parse_var_section.
  rewrite (parse_var_section_loop_body end_token eq_refl) by (done || lia).
  reflexivity.
Qed.

(** [parse_region] on a trial section. *)
Lemma parse_region_trials fuel : forall ltp l_file e,
  parse_region (S fuel) ltp l_file e "trial_def" = parse_trial_section fuel ltp l_file e.
Proof.
  intros ltp l_file e. cbn [parse_region].
  destruct (decide ("trial_def" = "mf_input" ∨ "trial_def" = "activity"
                    ∨ "trial_def" = "trial_spec")) as [[H|[H|H]]|_]; [done..|].
  by destruct (decide ("trial_def" = "trial_def")).
Qed.

Lemma regions_tokens_cons r regions :
  regions_tokens (r :: regions) = region_tokens r ++ regions_tokens regions.
Proof. reflexivity. Qed.

Lemma parse_region_fuel fuel fuel' ltp l_file e region_type r :
  fuel <= fuel' ->
  parse_region fuel ltp l_file e region_type = Ok r ->
  parse_region fuel' ltp l_file e region_type = Ok r.
Proof. intros Hle. apply refines_Ok. by apply (proj1 (parse_region_mono fuel)). Qed.

Lemma parse_region_scan_fuel fuel fuel' ltp l_file e r :
  fuel <= fuel' ->
  parse_region_scan fuel ltp l_file e = Ok r ->
  parse_region_scan fuel' ltp l_file e = Ok r.
Proof. intros Hle. apply refines_Ok. by apply (proj2 (parse_region_mono fuel)). Qed.

(** The loop of [parse_region] reads the regions one after the other and
    stops on the [end] behind them. *)
Lemma parse_region_scan_regions regions : forall pre suf e,
  Forall region_wf regions ->
  exists fuel pre',
    parse_region_scan fuel (length pre)
      (pre ++ regions_tokens regions ++ end_token :: suf) e
    = Ok (length pre', pre' ++ end_token :: suf, fold_left region_document regions e).
Proof.
  induction regions as [|r regions IH]; intros pre suf e Hwf.
  - exists 1, pre. by apply parse_region_scan_end.
  - apply Forall_cons in Hwf as [Hr Hwf].
    rewrite regions_tokens_cons, <- app_assoc.
    destruct r as [t|words|region_type skipped body|skipped items];
      cbn [region_wf region_tokens fold_left] in *.
    + destruct Hr as (H1 & H2 & H3).
      destruct (IH (pre ++ [t]) suf e Hwf) as (fuel & pre' & Hrun).
      exists (S fuel), pre'. cbn [app]. by rewrite parse_region_scan_skip.
    + destruct (IH (pre ++ LexedToken SINGLE_COMMENT "//" :: words ++ [new_line_token])
                  suf e Hwf) as (fuel & pre' & Hrun).
      exists (S fuel), pre'. by rewrite parse_region_scan_comment.
    + destruct Hr as [Hrt Hbody]. unfold region_header at 1.
      set (rest := regions_tokens regions ++ end_token :: suf) in *.
      set (pre4 := pre ++ region_header region_type skipped).
      destruct (IH ((pre4 ++ section_tokens body) ++ [end_token]) suf
                  (region_document e (RgVar region_type skipped body)) Hwf)
        as (fuel & pre' & Hrun).
      exists (S (fuel `max` S (S (length body)))), pre'.
      rewrite <- !app_assoc. cbn [app].
      erewrite parse_region_scan_begin;
        [|apply cursor_lookup_0|done|apply cursor_lookup_1|done
         |apply cursor_lookup_2|done].
      cbn [raw_token].
      destruct (cursor_4 pre (section_tokens body ++ end_token :: rest)
                  (LexedToken BEGIN_MARKER "begin") (LexedToken REGION "section")
                  (LexedToken REGION_TYPE region_type) skipped) as [-> ->].
      fold (region_header region_type skipped). fold pre4.
      rewrite (parse_region_var _ _ _ _ _ _ skipped) by (done || lia).
      cbn [mbind outcome_bind].
      destruct (cursor_next pre4 (section_tokens body) rest end_token) as [-> ->].
      apply (parse_region_scan_fuel fuel); [lia|]. exact Hrun.
    + unfold region_header at 1.
      set (rest := regions_tokens regions ++ end_token :: suf) in *.
      set (pre4 := pre ++ region_header "trial_def" skipped).
      destruct (parse_trial_section_items items pre4 rest e Hr) as (ft & pre'' & Hts).
      destruct (IH (pre'' ++ [end_token]) suf
                  (fold_left trial_item_document items e) Hwf)
        as (fuel & pre' & Hrun).
      exists (S (fuel `max` S ft)), pre'.
      rewrite <- !app_assoc. cbn [app].
      erewrite parse_region_scan_begin;
        [|apply cursor_lookup_0|done|apply cursor_lookup_1|done
         |apply cursor_lookup_2|done].
      cbn [raw_token].
      destruct (cursor_4 pre (trial_items_tokens items ++ end_token :: rest)
                  (LexedToken BEGIN_MARKER "begin") (LexedToken REGION "section")
                  (LexedToken REGION_TYPE "trial_def") skipped) as [-> ->].
      fold (region_header "trial_def" skipped). fold pre4.
      rewrite (parse_region_fuel (S ft) _ _ _ _ _
                 (length pre'', pre'' ++ end_token :: rest,
                  fold_left trial_item_document items e)); [|lia|].
      2:{ rewrite parse_region_trials. exact Hts. }
      cbn [mbind outcome_bind region_document].
      replace (S (length pre'')) with (length (pre'' ++ [end_token]))
        by (rewrite length_app; cbn; lia).
      rewrite (cons_middle end_token pre'' rest), app_assoc.
      apply (parse_region_scan_fuel fuel); [lia|]. exact Hrun.
Qed.

(** [parse_region] on the content of the file. *)
Lemma parse_region_run fuel : forall ltp l_file e,
  parse_region (S fuel) ltp l_file e "run" = parse_region_scan fuel ltp l_file e.
Proof.
  intros ltp l_file e. cbn [parse_region].
  destruct (decide ("run" = "mf_input" ∨ "run" = "activity" ∨ "run" = "trial_spec"))
    as [[H|[H|H]]|_]; [done..|].
  by destruct (decide ("run" = "trial_def")).
Qed.

End ExperimentFile.

(** X11.  The parser on a whole experiment file.  The file is read token by
    token: sentinels and comments, [begin filetype run], then regions up to
    the [end] of the file; a region is a variable section ([mf_input],
    [activity], [trial_spec]) with declarations, or the trial section with
    definitions of trials, blocks, sessions and the experiment, each closed
    by its [end]; comments and stray tokens may stand between them.  With
    enough fuel the parser returns the document that holds, for every
    variable section, its declarations under the section's type, and for
    every definition what it defines, in the order of the file; a later
    section or definition of the same name replaces the earlier one, and the
    pairs of several experiment definitions add up.  Whatever follows the
    [end] of the file is not read. *)
Theorem parse_lexed_expt_file_document (lead : list section_item) (skipped : lexed_token)
    (regions : list region) (suf : list lexed_token) (e_file : parsed_expt_file) :
  blank_wf lead -> Forall region_wf regions ->
  exists fuel0, forall fuel, fuel0 <= fuel ->
    exists l_file',
      parse_lexed_expt_file fuel (run_file_tokens lead skipped regions suf) e_file
      = Ok (l_file', fold_left region_document regions e_file).
Proof.
  intros Hlead Hwf. rename e_file into e. unfold run_file_tokens.
  set (b := LexedToken BEGIN_MARKER "begin"). set (f := LexedToken REGION "filetype").
  set (r := LexedToken REGION_TYPE "run").
  set (rest := regions_tokens regions ++ end_token :: suf).
  destruct (parse_region_scan_regions regions (section_tokens lead ++ [b; f; r; skipped])
              suf e Hwf) as (fuel0 & pre' & Hrun).
  exists (S fuel0). intros fuel Hle. exists (pre' ++ end_token :: suf).
  eapply refines_Ok; [by apply (parse_lexed_expt_file_mono (S fuel0))|].
  unfold parse_lexed_expt_file. cbn [app].
  rewrite find_first_begin_lead by done. cbn [find_first_begin lex b].
  destruct (decide (BEGIN_MARKER = BEGIN_MARKER)); [|done].
  cbn [mbind outcome_bind Nat.add].
  rewrite deref_cursor_1. cbn [mbind outcome_bind lex raw_token f].
  destruct (decide (REGION = REGION)); [|done].
  destruct (decide ("filetype" ≠ "filetype")); [done|].
  rewrite deref_cursor_2. cbn [mbind outcome_bind raw_token r].
  destruct (decide ("run" ≠ "run")); [done|].
  rewrite parse_region_run.
  destruct (cursor_4 (section_tokens lead) rest b f r skipped) as [-> ->].
  fold rest in Hrun. rewrite Hrun. reflexivity.
Qed.

Lemma parse_lexed_expt_file_document_witness :
  exists fuel0, forall fuel, fuel0 <= fuel ->
    exists l_file',
      parse_lexed_expt_file fuel (lex_text sample_run_file) empty_expt_file
      = Ok (l_file',
            ParsedExptFile
              {[ "mf_input" :=
                   ParsedVarSection
                     {[ "num_mf" := Variable_ "int" "num_mf" "4096";
                        "rate" := Variable_ "float" "rate" "0.5" ]} ]}
              (ParsedTrialSection
                 {[ "t1" := {[ "use_cs" := Variable_ "int" "use_cs" "1";
                               "cs_onset" := Variable_ "int" "cs_onset" "100" ]} ]}
                 {[ "b1" := [Pair "t1" "2"] ]}
                 ∅
                 [Pair "b1" "3"; Pair "t1" "1"])).
Proof.
  pose (nl := TsSkip new_line_token).
  pose (regions :=
    [ RgVar "mf_input" new_line_token
        [ SecDecl "int" "num_mf" "4096";
          SecComment [LexedToken VAR_IDENTIFIER "mossy"; LexedToken VAR_IDENTIFIER "fibres"];
          SecDecl "float" "rate" "0.5"; SecNewLine ];
      RgSkip new_line_token;
      RgTrials new_line_token
        [ TsDef (DefTrial "t1" new_line_token
                   [ SecDecl "int" "use_cs" "1"; SecNewLine;
                     SecDecl "int" "cs_onset" "100"; SecNewLine ]);
          nl;
          TsDef (DefContainer "block" "b1" new_line_token
                   [ ItemIdentifier "t1"; ItemValue "2"; ItemNewLine ]);
          nl;
          TsDef (DefContainer "experiment" "e1" new_line_token
                   [ ItemIdentifier "b1"; ItemValue "3"; ItemNewLine;
                     ItemIdentifier "t1"; ItemNewLine ]);
          nl ];
      RgSkip new_line_token ]).
  destruct (parse_lexed_expt_file_document
              [SecComment [LexedToken VAR_IDENTIFIER "a"; LexedToken DEF_TYPE "session";
                           LexedToken VAR_IDENTIFIER "of"; LexedToken VAR_IDENTIFIER "two";
                           LexedToken VAR_IDENTIFIER "kinds"; LexedToken VAR_IDENTIFIER "of";
                           LexedToken VAR_IDENTIFIER "trials"]]
              new_line_token regions [new_line_token] empty_expt_file) as [fuel0 H].
  - split; [|done]. repeat constructor; discriminate.
  - subst regions nl.
    repeat first [ apply Forall_nil_2 | apply Forall_cons_2 ];
      cbn [region_wf trial_item_wf definition_wf section_wf trial_wf body_wf lex
           new_line_token no_declaration];
      repeat first [ done | split | apply Forall_nil_2 | apply Forall_cons_2
                   | apply elem_of_cons; by left
                   | apply elem_of_cons; right; apply elem_of_cons; by left
                   | apply elem_of_cons; right; apply elem_of_cons; right;
                     apply elem_of_cons; by left ].
  - exists fuel0. intros fuel Hle. destruct (H fuel Hle) as [l_file' Hl].
    exists l_file'.
    assert (lex_text sample_run_file
            = run_file_tokens
                [SecComment [LexedToken VAR_IDENTIFIER "a"; LexedToken DEF_TYPE "session";
                             LexedToken VAR_IDENTIFIER "of"; LexedToken VAR_IDENTIFIER "two";
                             LexedToken VAR_IDENTIFIER "kinds"; LexedToken VAR_IDENTIFIER "of";
                             LexedToken VAR_IDENTIFIER "trials"]]
                new_line_token regions [new_line_token]) as -> by (vm_compute; reflexivity).
    rewrite Hl. f_equal.
Defined.

(** ** The parser on a whole build file *)

Section BuildFile.

Lemma parse_region_build_mono n :
  (forall m ltp l_file b_file region_type, n <= m ->
     parse_region_build n ltp l_file b_file region_type
     ⊑ parse_region_build m ltp l_file b_file region_type)
  ∧ (forall m ltp l_file b_file, n <= m ->
     parse_region_build_scan n ltp l_file b_file
     ⊑ parse_region_build_scan m ltp l_file b_file).
Proof.
  induction n as [|n [IHr IHs]]; [by split; intros; left|].
  split.
  - intros [|m] ltp l_file b_file region_type Hle; [lia|]. simpl.
    destruct (decide _).
    { unfold parse_var_section_build. apply bind_refines; [|intros; apply refines_refl].
      apply parse_var_section_loop_mono. lia. }
    destruct (decide _).
    { unfold parse_var_section_build. apply bind_refines; [|intros; apply refines_refl].
      apply parse_var_section_loop_mono. lia. }
    apply IHs. lia.
  - intros [|m] ltp l_file b_file Hle; [lia|]. simpl.
    apply bind_refines; [apply refines_refl|intros t].
    destruct (decide (lex t = END_MARKER)); [apply refines_refl|].
    apply bind_refines; [|intros [[ltp1 l1] b1]; apply IHs; lia].
    destruct (decide (lex t = BEGIN_MARKER)); [|apply refines_refl].
    apply bind_refines; [apply refines_refl|intros next_lt].
    destruct (decide (lex next_lt = REGION)); [|apply refines_refl].
    apply bind_refines; [apply refines_refl|intros second_next_lt].
    destruct (decide (lex second_next_lt = REGION_TYPE)); [|apply refines_refl].
    apply IHr. lia.
Qed.

Lemma parse_lexed_build_file_mono n m l_file b_file :
  n <= m ->
  parse_lexed_build_file n l_file b_file ⊑ parse_lexed_build_file m l_file b_file.
Proof.
  intros Hle. unfold parse_lexed_build_file.
  apply bind_refines; [apply refines_refl|intros ltp].
  apply bind_refines; [apply refines_refl|intros next_lt].
  destruct (decide _); [|apply refines_refl].
  destruct (decide _); [apply refines_refl|].
  apply bind_refines; [apply refines_refl|intros second_next_lt].
  destruct (decide _); [apply refines_refl|].
  apply bind_refines; [|intros [[? ?] ?]; apply refines_refl].
  by apply parse_region_build_mono.
Qed.

Lemma parse_region_build_scan_begin fuel ltp l_file b_file t next_lt second_next_lt :
  l_file !! ltp = Some t -> lex t = BEGIN_MARKER ->
  l_file !! (ltp + 1) = Some next_lt -> lex next_lt = REGION ->
  l_file !! (ltp + 2) = Some second_next_lt -> lex second_next_lt = REGION_TYPE ->
  parse_region_build_scan (S fuel) ltp l_file b_file
  = parse_region_build fuel (ltp + 4) l_file b_file (raw_token second_next_lt)
    ≫= fun '(ltp1, l_file1, b_file1) =>
         parse_region_build_scan fuel (S ltp1) l_file1 b_file1.
Proof.
  intros H0 L0 H1 L1 H2 L2. cbn [parse_region_build_scan]. unfold deref.
  rewrite H0. cbn [mbind outcome_bind].
  destruct (decide (lex t = END_MARKER)); [congruence|].
  destruct (decide (lex t = BEGIN_MARKER)); [|done].
  rewrite H1. cbn [mbind outcome_bind].
  destruct (decide (lex next_lt = REGION)); [|done].
  rewrite H2. cbn [mbind outcome_bind].
  by destruct (decide (lex second_next_lt = REGION_TYPE)).
Qed.

Lemma parse_region_build_scan_end fuel pre t rest b :
  lex t = END_MARKER ->
  parse_region_build_scan (S fuel) (length pre) (pre ++ t :: rest) b
  = Ok (length pre, pre ++ t :: rest, b).
Proof.
  intros Ht. cbn [parse_region_build_scan]. rewrite deref_cursor.
  cbn [mbind outcome_bind]. by destruct (decide (lex t = END_MARKER)).
Qed.

Lemma parse_region_build_scan_skip fuel pre t rest b :
  lex t ≠ END_MARKER -> lex t ≠ BEGIN_MARKER -> lex t ≠ SINGLE_COMMENT ->
  parse_region_build_scan (S fuel) (length pre) (pre ++ t :: rest) b
  = parse_region_build_scan fuel (length (pre ++ [t])) ((pre ++ [t]) ++ rest) b.
Proof.
  intros H1 H2 H3. cbn [parse_region_build_scan]. rewrite deref_cursor.
  cbn [mbind outcome_bind].
  destruct (decide (lex t = END_MARKER)); [done|].
  destruct (decide (lex t = BEGIN_MARKER)); [done|].
  destruct (decide (lex t = SINGLE_COMMENT)); [done|].
  cbn [mbind outcome_bind]. by rewrite length_app, Nat.add_1_r, <- app_assoc.
Qed.

Lemma parse_region_build_scan_comment fuel pre words rest b :
  Forall (fun t => lex t ≠ NEW_LINE) words ->
  let line := LexedToken SINGLE_COMMENT "//" :: words ++ [new_line_token] in
  parse_region_build_scan (S fuel) (length pre) (pre ++ line ++ rest) b
  = parse_region_build_scan fuel (length (pre ++ line)) ((pre ++ line) ++ rest) b.
Proof.
  intros Hw line. subst line. cbn [app]. rewrite <- (app_assoc words).
  cbn [app parse_region_build_scan]. rewrite deref_cursor. cbn [mbind outcome_bind lex].
  destruct (decide (SINGLE_COMMENT = END_MARKER)); [done|].
  destruct (decide (SINGLE_COMMENT = BEGIN_MARKER)); [done|].
  destruct (decide (SINGLE_COMMENT = SINGLE_COMMENT)); [|done].
  unfold skip_comment. rewrite drop_app_length.
  rewrite scan_comment_line by done. cbn [mbind outcome_bind].
  f_equal.
  - rewrite !length_app. cbn [length]. rewrite length_app. cbn [length]. lia.
  - rewrite <- !app_assoc. cbn [app]. by rewrite <- app_assoc.
Qed.

(** [parse_region] of the build file on a variable section. *)
Lemma parse_region_build_var fuel pre body suf b region_type skipped :
  region_type ∈ ["connectivity"; "activity"] ->
  section_wf end_token body -> S (length body) < fuel ->
  parse_region_build fuel (length pre) (pre ++ section_tokens body ++ end_token :: suf) b
                     region_type
  = Ok (length (pre ++ section_tokens body),
        pre ++ section_tokens body ++ end_token :: suf,
        build_region_document b (RgVar region_type skipped body)).
Proof.
  intros Hrt Hwf Hfuel. destruct fuel as [|fuel]; [lia|]. cbn [parse_region_build].
  assert (parse_var_section_build fuel (length pre)
            (pre ++ section_tokens body ++ end_token :: suf) b region_type
          = Ok (length (pre ++ section_tokens body),
                pre ++ section_tokens body ++ end_token :: suf,
                build_region_document b (RgVar region_type skipped body))) as Hsec.
  { unfold parse_var_section_build.
    rewrite (parse_var_section_loop_body end_token eq_refl) by (done || lia).
    reflexivity. }
  destruct (decide (region_type = "connectivity")); [done|].
  destruct (decide (region_type = "activity")); [done|].
  rewrite !elem_of_cons, elem_of_nil in Hrt. tauto.
Qed.

Lemma parse_region_build_scan_fuel fuel fuel' ltp l_file b r :
  fuel <= fuel' ->
  parse_region_build_scan fuel ltp l_file b = Ok r ->
  parse_region_build_scan fuel' ltp l_file b = Ok r.
Proof. intros Hle. apply refines_Ok. by apply (proj2 (parse_region_build_mono fuel)). Qed.

Lemma parse_region_build_scan_regions regions : forall pre suf b,
  Forall build_region_wf regions ->
  exists fuel pre',
    parse_region_build_scan fuel (length pre)
      (pre ++ regions_tokens regions ++ end_token :: suf) b
    = Ok (length pre', pre' ++ end_token :: suf,
          fold_left build_region_document regions b).
Proof.
  induction regions as [|r regions IH]; intros pre suf b Hwf.
  - exists 1, pre. by apply parse_region_build_scan_end.
  - apply Forall_cons in Hwf as [Hr Hwf].
    rewrite regions_tokens_cons, <- app_assoc.
    destruct r as [t|words|region_type skipped body|skipped items];
      cbn [build_region_wf region_tokens fold_left] in *; [| | |done].
    + destruct Hr as (H1 & H2 & H3).
      destruct (IH (pre ++ [t]) suf b Hwf) as (fuel & pre' & Hrun).
      exists (S fuel), pre'. cbn [app]. by rewrite parse_region_build_scan_skip.
    + destruct (IH (pre ++ LexedToken SINGLE_COMMENT "//" :: words ++ [new_line_token])
                  suf b Hwf) as (fuel & pre' & Hrun).
      exists (S fuel), pre'. by rewrite parse_region_build_scan_comment.
    + destruct Hr as [Hrt Hbody]. unfold region_header at 1.
      set (rest := regions_tokens regions ++ end_token :: suf) in *.
      set (pre4 := pre ++ region_header region_type skipped).
      destruct (IH ((pre4 ++ section_tokens body) ++ [end_token]) suf
                  (build_region_document b (RgVar region_type skipped body)) Hwf)
        as (fuel & pre' & Hrun).
      exists (S (fuel `max` S (S (length body)))), pre'.
      rewrite <- !app_assoc. cbn [app].
      erewrite parse_region_build_scan_begin;
        [|apply cursor_lookup_0|done|apply cursor_lookup_1|done
         |apply cursor_lookup_2|done].
      cbn [raw_token].
      destruct (cursor_4 pre (section_tokens body ++ end_token :: rest)
                  (LexedToken BEGIN_MARKER "begin") (LexedToken REGION "section")
                  (LexedToken REGION_TYPE region_type) skipped) as [-> ->].
      fold (region_header region_type skipped). fold pre4.
      rewrite (parse_region_build_var _ _ _ _ _ _ skipped) by (done || lia).
      cbn [mbind outcome_bind].
      destruct (cursor_next pre4 (section_tokens body) rest end_token) as [-> ->].
      apply (parse_region_build_scan_fuel fuel); [lia|]. exact Hrun.
Qed.

Lemma parse_region_build_build fuel : forall ltp l_file b,
  parse_region_build (S fuel) ltp l_file b "build"
  = parse_region_build_scan fuel ltp l_file b.
Proof.
  intros ltp l_file b. cbn [parse_region_build].
  destruct (decide ("build" = "connectivity")); [done|].
  by destruct (decide ("build" = "activity")).
Qed.

End BuildFile.

(** X12.  The parser on a whole build file: sentinels and comments,
    [begin filetype build], then variable sections [connectivity] and
    [activity] up to the [end] of the file, with comments and stray tokens
    between them.  With enough fuel the parser returns the document that
    holds the declarations of every section under the section's type; a
    later section of the same type replaces the earlier one as a whole. *)
Theorem parse_lexed_build_file_document (lead : list section_item) (skipped : lexed_token)
    (regions : list region) (suf : list lexed_token) (b_file : parsed_build_file) :
  blank_wf lead -> Forall build_region_wf regions ->
  exists fuel0, forall fuel, fuel0 <= fuel ->
    exists l_file',
      parse_lexed_build_file fuel (build_file_tokens lead skipped regions suf) b_file
      = Ok (l_file', fold_left build_region_document regions b_file).
Proof.
  intros Hlead Hwf. rename b_file into b. unfold build_file_tokens.
  set (bg := LexedToken BEGIN_MARKER "begin"). set (f := LexedToken REGION "filetype").
  set (r := LexedToken REGION_TYPE "build").
  set (rest := regions_tokens regions ++ end_token :: suf).
  destruct (parse_region_build_scan_regions regions
              (section_tokens lead ++ [bg; f; r; skipped]) suf b Hwf)
    as (fuel0 & pre' & Hrun).
  exists (S fuel0). intros fuel Hle. exists (pre' ++ end_token :: suf).
  eapply refines_Ok; [by apply (parse_lexed_build_file_mono (S fuel0))|].
  unfold parse_lexed_build_file. cbn [app].
  rewrite find_first_begin_lead by done. cbn [find_first_begin lex bg].
  destruct (decide (BEGIN_MARKER = BEGIN_MARKER)); [|done].
  cbn [mbind outcome_bind Nat.add].
  rewrite deref_cursor_1. cbn [mbind outcome_bind lex raw_token f].
  destruct (decide (REGION = REGION)); [|done].
  destruct (decide ("filetype" ≠ "filetype")); [done|].
  rewrite deref_cursor_2. cbn [mbind outcome_bind raw_token r].
  destruct (decide ("build" ≠ "build")); [done|].
  rewrite parse_region_build_build.
  destruct (cursor_4 (section_tokens lead) rest bg f r skipped) as [-> ->].
  fold rest in Hrun. rewrite Hrun. reflexivity.
Qed.

Lemma parse_lexed_build_file_document_witness :
  exists fuel0, forall fuel, fuel0 <= fuel ->
    exists l_file',
      parse_lexed_build_file fuel (lex_text sample_build_file) empty_build_file
      = Ok (l_file',
            ParsedBuildFile
              {[ "connectivity" :=
                   ParsedVarSection
                     {[ "mf_x" := Variable_ "int" "mf_x" "128";
                        "mf_y" := Variable_ "int" "mf_y" "32" ]};
                 "activity" :=
                   ParsedVarSection {[ "leak" := Variable_ "float" "leak" "0.5" ]} ]}).
Proof.
  pose (words := map lex_raw_token
                   ["the"; "later"; "section"; "takes"; "the"; "place"; "of"; "the";
                    "earlier"]).
  pose (regions :=
    [ RgVar "connectivity" new_line_token
        [ SecDecl "int" "mf_x" "128"; SecNewLine; SecDecl "int" "mf_y" "32"; SecNewLine ];
      RgSkip new_line_token;
      RgVar "activity" new_line_token [ SecDecl "float" "threshold" "0.25"; SecNewLine ];
      RgSkip new_line_token;
      RgComment words;
      RgVar "activity" new_line_token [ SecDecl "float" "leak" "0.5"; SecNewLine ];
      RgSkip new_line_token ]).
  destruct (parse_lexed_build_file_document [] new_line_token regions [new_line_token]
              empty_build_file) as [fuel0 H].
  - done.
  - subst regions words.
    repeat first [ apply Forall_nil_2 | apply Forall_cons_2 ];
      cbn [build_region_wf section_wf lex new_line_token no_declaration map];
      repeat first [ done | split | apply Forall_nil_2 | apply Forall_cons_2
                   | apply elem_of_cons; by left
                   | apply elem_of_cons; right; apply elem_of_cons; by left ].
  - exists fuel0. intros fuel Hle. destruct (H fuel Hle) as [l_file' Hl].
    exists l_file'.
    assert (lex_text sample_build_file
            = build_file_tokens [] new_line_token regions [new_line_token]) as ->
      by (vm_compute; reflexivity).
    rewrite Hl. f_equal.
Defined.

(** ** The two patterns of the lexer *)

Section Patterns.

Lemma string_app_assoc (s t u : string) : (s +:+ t) +:+ u = s +:+ (t +:+ u).
Proof. induction s as [|a s IH]; [done|]. by rewrite !append_cons, IH. Qed.

Lemma string_app_empty (s t : string) : s +:+ t = "" -> s = "" ∧ t = "".
Proof. destruct s; [by rewrite append_nil_l|]. by rewrite append_cons. Qed.

Lemma string_app_cons (s t : string) c u :
  s +:+ t = String c u ->
  (s = "" ∧ t = String c u) ∨ (exists s', s = String c s' ∧ u = s' +:+ t).
Proof.
  destruct s as [|a s]; [by left|]. rewrite append_cons. intros [= -> <-].
  right. by exists s.
Qed.

Lemma matches_void s : ¬ matches Void s.
Proof. inversion 1. Qed.

Lemma nullable_matches r : nullable r = true <-> matches r "".
Proof.
  split.
  - induction r as [|p|r1 IH1 r2 IH2|r1 IH1 r2 IH2|r IH|]; cbn [nullable]; intros H;
      try discriminate.
    + constructor.
    + apply andb_true_iff in H as [H1 H2].
      apply (matches_seq r1 r2 "" ""); auto.
    + apply orb_true_iff in H as [H|H]; [apply matches_alt_l|apply matches_alt_r]; auto.
    + constructor.
  - intros H. remember "" as s eqn:E.
    induction H as [|p c Hc|r1 r2 s1 s2 _ IH1 _ IH2|r1 r2 s _ IH|r1 r2 s _ IH|r
                   |r s1 s2 _ _ _ _]; cbn [nullable]; try done.
    + apply string_app_empty in E as [-> ->]. by rewrite IH1, IH2.
    + by rewrite IH.
    + rewrite IH by done. apply orb_true_r.
Qed.

Lemma deriv_sound c r : forall s, matches (deriv c r) s -> matches r (String c s).
Proof.
  induction r as [|p|r1 IH1 r2 IH2|r1 IH1 r2 IH2|r IH|]; cbn [deriv]; intros s H.
  - by apply matches_void in H.
  - destruct (p c) eqn:Hp; [|by apply matches_void in H].
    inversion H; subst. by constructor.
  - assert (forall s, matches (Seq (deriv c r1) r2) s -> matches (Seq r1 r2) (String c s))
      as Hseq.
    { intros s0 H0. inversion H0 as [| |? ? s1 s2 H1 H2| | | |]; subst.
      rewrite <- append_cons. constructor; auto. }
    destruct (nullable r1) eqn:Hn; [|by apply Hseq].
    inversion H as [| | |? ? ? H1|? ? ? H1| |]; subst; [by apply Hseq|].
    rewrite <- (append_nil_l (String c s)). constructor; [|by apply IH2].
    by apply nullable_matches.
  - inversion H as [| | |? ? ? H1|? ? ? H1| |]; subst;
      [apply matches_alt_l|apply matches_alt_r]; auto.
  - inversion H as [| |? ? s1 s2 H1 H2| | | |]; subst.
    rewrite <- append_cons. constructor; auto.
  - by apply matches_void in H.
Qed.

Lemma deriv_complete c r s0 :
  matches r s0 -> forall s, s0 = String c s -> matches (deriv c r) s.
Proof.
  induction 1 as [|p c0 Hc|r1 r2 s1 s2 H1 IH1 H2 IH2|r1 r2 s0 _ IH|r1 r2 s0 _ IH|r
                 |r s1 s2 H1 IH1 H2 IH2]; intros s E; cbn [deriv]; try discriminate.
  - injection E as -> <-. rewrite Hc. constructor.
  - apply string_app_cons in E as [[-> ->]|(s1' & -> & ->)].
    + apply nullable_matches in H1. rewrite H1. apply matches_alt_r. by apply IH2.
    + assert (matches (Seq (deriv c r1) r2) (s1' +:+ s2)) as Hs
        by (constructor; auto).
      destruct (nullable r1); [by apply matches_alt_l|done].
  - apply matches_alt_l. by apply IH.
  - apply matches_alt_r. by apply IH.
  - apply string_app_cons in E as [[-> ->]|(s1' & -> & ->)].
    + by apply IH2.
    + constructor; auto.
Qed.

(** Matching by derivatives decides the language of the pattern. *)
Lemma regex_match_matches s : forall r, regex_match s r = true <-> matches r s.
Proof.
  induction s as [|c s IH]; intros r; cbn [regex_match].
  - apply nullable_matches.
  - rewrite IH. split; [apply deriv_sound|]. intros H. by eapply deriv_complete.
Qed.

Lemma matches_class_inv p s :
  matches (Class p) s <-> exists c, s = String c "" ∧ p c = true.
Proof.
  split.
  - inversion 1; subst. eauto.
  - intros (c & -> & Hc). by constructor.
Qed.

Lemma matches_seq_inv r1 r2 s :
  matches (Seq r1 r2) s <-> exists s1 s2, s = s1 +:+ s2 ∧ matches r1 s1 ∧ matches r2 s2.
Proof.
  split.
  - inversion 1; subst. eauto.
  - intros (s1 & s2 & -> & H1 & H2). by constructor.
Qed.

Lemma matches_opt_inv r s : matches (Opt r) s <-> s = "" ∨ matches r s.
Proof.
  unfold Opt. split.
  - inversion 1 as [| | |? ? ? H1|? ? ? H1| |]; subst; [by right|].
    inversion H1. by left.
  - intros [->|H]; [apply matches_alt_r; constructor|by apply matches_alt_l].
Qed.

Lemma matches_star_class p s : matches (Star (Class p)) s <-> all_chars p s = true.
Proof.
  split.
  - intros H. remember (Star (Class p)) as r eqn:E.
    induction H as [| | | | |r|r s1 s2 H1 _ _ IH2]; try discriminate; [done|].
    injection E as ->. apply matches_class_inv in H1 as (c & -> & Hc).
    rewrite append_cons, append_nil_l. cbn [all_chars]. by rewrite Hc, IH2.
  - induction s as [|c s IH]; cbn [all_chars]; intros H; [constructor|].
    apply andb_true_iff in H as [Hc Hs].
    change (String c s) with (String c "" +:+ s).
    constructor; [by constructor|auto].
Qed.

Lemma matches_plus_class p s :
  matches (Plus (Class p)) s <-> s ≠ "" ∧ all_chars p s = true.
Proof.
  unfold Plus. rewrite matches_seq_inv. split.
  - intros (s1 & s2 & -> & (c & -> & Hc)%matches_class_inv & H2%matches_star_class).
    rewrite append_cons, append_nil_l. cbn [all_chars]. by rewrite Hc, H2.
  - intros [Hne H]. destruct s as [|c s]; [done|]. cbn [all_chars] in H.
    apply andb_true_iff in H as [Hc Hs].
    exists (String c ""), s. split; [done|].
    split; [by constructor|by apply matches_star_class].
Qed.

Lemma matches_sign s : matches (Opt (Class cls_sign)) s <-> sign_shape s.
Proof.
  rewrite matches_opt_inv, matches_class_inv. unfold sign_shape, cls_sign, is_char. split.
  - intros [->|(c & -> & Hc)]; [by left|]. right.
    apply orb_true_iff in Hc as [Hc|Hc]; apply Ascii.eqb_eq in Hc as <-; auto.
  - intros [->|[->| ->]]; [by left|right; by eexists..].
Qed.

Lemma matches_var_id raw : matches var_id_regex raw <-> identifier_shape raw.
Proof.
  unfold var_id_regex, identifier_shape. rewrite matches_seq_inv. split.
  - intros (s1 & s2 & -> & (c & -> & Hc)%matches_class_inv & H2%matches_star_class).
    by exists c, s2.
  - intros (c & rest & -> & Hc & Hrest). exists (String c ""), rest.
    split; [done|]. split; [by constructor|by apply matches_star_class].
Qed.

Lemma matches_var_val raw : matches var_val_regex raw <-> value_shape raw.
Proof.
  unfold var_val_regex, value_shape. split.
  - intros (sgn & s1 & -> & Hsgn%matches_sign & H1)%matches_seq_inv.
    apply matches_seq_inv in H1 as (lead & s2 & -> & Hlead%matches_opt_inv & H2).
    apply matches_seq_inv in H2
      as (digits & expo & -> & Hdigits%matches_star_class & Hexpo%matches_opt_inv).
    exists sgn, lead, digits, expo. split; [done|]. split; [done|].
    split; [|split; [done|]].
    + destruct Hlead as [->|Hlead]; [by left|]. right.
      apply matches_seq_inv in Hlead
        as (d & dot & -> & Hd%matches_star_class & (c & -> & Hc)%matches_class_inv).
      unfold cls_dot, is_char in Hc. apply Ascii.eqb_eq in Hc as <-. by exists d.
    + destruct Hexpo as [->|Hexpo]; [by left|]. right.
      apply matches_seq_inv in Hexpo as (e & s3 & -> & (c & -> & Hc)%matches_class_inv & H3).
      unfold cls_e, is_char in Hc. apply Ascii.eqb_eq in Hc as <-.
      apply matches_seq_inv in H3
        as (sg & d & -> & Hsg%matches_sign & [Hne Hd]%matches_plus_class).
      by exists sg, d.
  - intros (sgn & lead & digits & expo & -> & Hsgn & Hlead & Hdigits & Hexpo).
    apply matches_seq_inv. exists sgn, (lead +:+ digits +:+ expo).
    split; [done|]. split; [by apply matches_sign|].
    apply matches_seq_inv. exists lead, (digits +:+ expo).
    split; [done|]. split.
    { apply matches_opt_inv. destruct Hlead as [->|(d & -> & Hd)]; [by left|]. right.
      apply matches_seq_inv. exists d, ".". split; [done|].
      split; [by apply matches_star_class|by constructor]. }
    apply matches_seq_inv. exists digits, expo.
    split; [done|]. split; [by apply matches_star_class|].
    apply matches_opt_inv. destruct Hexpo as [->|(sg & d & -> & Hsg & Hne & Hd)]; [by left|].
    right. apply matches_seq_inv. exists "e", (sg +:+ d). split; [done|].
    split; [by constructor|].
    apply matches_seq_inv. exists sg, d. split; [done|].
    split; [by apply matches_sign|by apply matches_plus_class].
Qed.

End Patterns.

(** X13.  What the lexer makes of a token that is no key of the lookup
    table, by the shape of the token.  It is [VAR_IDENTIFIER] exactly for a
    letter or underscore followed by letters, digits and underscores;
    [VAR_VALUE] exactly for a token of the shape of a value that has not the
    shape of an identifier; [NONE] exactly for a token of neither shape.
    The shape of a value is: an optional sign, optionally digits and a dot,
    digits, optionally [e] with an optional sign and at least one digit. *)
Theorem lex_raw_token_shapes (raw : string) :
  map_find token_defs raw = None ->
  (lex (lex_raw_token raw) = VAR_IDENTIFIER <-> identifier_shape raw)
  ∧ (lex (lex_raw_token raw) = VAR_VALUE <-> value_shape raw ∧ ¬ identifier_shape raw)
  ∧ (lex (lex_raw_token raw) = NONE <-> ¬ identifier_shape raw ∧ ¬ value_shape raw).
Proof.
  intros Hnone. unfold lex_raw_token. rewrite Hnone. cbn [lex].
  rewrite <- matches_var_id, <- matches_var_val, <- !regex_match_matches.
  destruct (regex_match raw var_id_regex), (regex_match raw var_val_regex);
    vm_compute; intuition congruence.
Qed.

Lemma lex_raw_token_shapes_witness :
  lex (lex_raw_token "e5") = VAR_IDENTIFIER
  ∧ value_shape "e5"
  ∧ lex (lex_raw_token "-.5e+3") = VAR_VALUE.
Proof.
  destruct (lex_raw_token_shapes "e5" eq_refl) as (Hid & _ & _).
  destruct (lex_raw_token_shapes "-.5e+3" eq_refl) as (_ & Hval & _).
  split; [|split].
  - apply Hid. by exists "e"%char, "5".
  - exists "", "", "", "e5". split; [done|]. split; [by left|]. split; [by left|].
    split; [done|]. right. exists "", "5". split; [done|]. split; [by left|]. done.
  - apply Hval. split.
    + exists "-", ".", "5", "e+3". split; [done|]. split; [by right; right|].
      split; [right; by exists ""|]. split; [done|].
      right. exists "+", "3". split; [done|]. split; [right; by left|]. done.
    + intros (c & rest & E & Hc & _). injection E as <- _. discriminate Hc.
Defined.

(** ** The tokenizer against the layout of a file *)

Section Layout.

Lemma extract_tokens_run (tok : string) : forall (s acc : string),
  no_space tok = true ->
  extract_tokens (tok +:+ s) acc = extract_tokens s (acc +:+ tok).
Proof.
  induction tok as [|c tok IH]; intros s acc Hns.
  - by rewrite append_nil_l, append_empty_r.
  - cbn [no_space] in Hns. apply andb_true_iff in Hns as [Hc Hns].
    apply negb_true_iff in Hc.
    rewrite append_cons. cbn [extract_tokens]. rewrite Hc.
    rewrite IH by done. by rewrite append_snoc_assoc.
Qed.

(** The tokens of a line are its maximal runs without white space, and
    nothing else is. *)
Lemma delimited_extract line toks :
  delimited line toks -> extract_tokens line "" = toks.
Proof.
  induction 1 as [|c s toks Hc _ IH|tok s toks Hne Hns Hb Hd IH]; [done| |].
  - cbn [extract_tokens]. rewrite Hc. by destruct (decide ("" = "")).
  - rewrite extract_tokens_run, append_nil_l by done.
    destruct s as [|c s].
    + cbn [extract_tokens]. destruct (decide (tok = "")); [done|].
      f_equal. clear IH. remember "" as s eqn:E.
      destruct Hd as [|c' s' toks' Hc' Hd'|tok' s' toks' Hne' _ _ _]; [done..|].
      by apply string_app_empty in E as [-> _].
    + cbn [token_boundary] in Hb. cbn [extract_tokens] in *. rewrite Hb in *.
      destruct (decide (tok = "")); [done|].
      destruct (decide ("" = "")); [|done]. by rewrite IH.
Qed.

Lemma read_lines_line (line rest : string) :
  all_chars (fun c => negb (is_newline c)) line = true ->
  read_lines (line +:+ line_feed +:+ rest) = line :: read_lines rest.
Proof.
  induction line as [|c line IH]; intros Hl.
  - rewrite append_nil_l. unfold line_feed. rewrite append_cons, append_nil_l.
    cbn [read_lines]. by vm_compute (is_newline (ascii_of_nat 10)).
  - cbn [all_chars] in Hl. apply andb_true_iff in Hl as [Hc Hl].
    apply negb_true_iff in Hc.
    rewrite append_cons. cbn [read_lines]. rewrite Hc. by rewrite IH.
Qed.

Lemma read_lines_file_text lines :
  Forall (fun line => all_chars (fun c => negb (is_newline c)) line = true) lines ->
  read_lines (file_text lines) = lines.
Proof.
  induction 1 as [|line lines Hl _ IH]; [done|].
  cbn [file_text fold_right]. fold (file_text lines).
  by rewrite read_lines_line, IH.
Qed.

Lemma tokenize_file_text lines (t t0 : tokenized_file) :
  Forall2 delimited lines t ->
  Forall (fun line => line ≠ ""
                      ∧ all_chars (fun c => negb (is_newline c)) line = true) lines ->
  tokenize_file (Some (file_text lines)) t0 = Ok (t0 ++ t).
Proof.
  intros Hd Hl. unfold tokenize_file. rewrite tokenize_lines_app.
  rewrite read_lines_file_text by (eapply Forall_impl; [exact Hl|]; by intros ? [_ ?]).
  do 2 f_equal.
  induction Hd as [|line toks lines t Hline _ IH]; [done|].
  apply Forall_cons in Hl as [[Hne _] Hl].
  rewrite filter_cons_True by done. cbn [map]. rewrite IH by done.
  f_equal. by apply delimited_extract.
Qed.

End Layout.

(** X14.  The tokenizer inverts the layout of a file.  A line has exactly
    one list of tokens, its maximal runs of characters other than white
    space; and for a file written as lines, none of them empty and none
    holding a line feed, each the layout of a list of tokens, the tokenizer
    appends exactly these lists, in order, to the tokenized file it is
    given. *)
Theorem tokenize_file_inverts_layout (lines : list string) (t_file t_file0 : tokenized_file) :
  Forall2 delimited lines t_file ->
  Forall (fun line => line ≠ ""
                      ∧ all_chars (fun c => negb (is_newline c)) line = true) lines ->
  tokenize_file (Some (file_text lines)) t_file0 = Ok (t_file0 ++ t_file)
  ∧ forall line toks, delimited line toks <-> extract_tokens line "" = toks.
Proof.
  intros Hd Hl. split; [by apply tokenize_file_text|].
  intros line toks. split; [apply delimited_extract|].
  intros <-. by apply (extract_tokens_spec line "").
Qed.

Lemma tokenize_file_inverts_layout_witness :
  tokenize_file (Some (file_text ["begin  filetype run"; " "; "end "])) [["//"]]
  = Ok [["//"]; ["begin"; "filetype"; "run"]; []; ["end"]].
Proof.
  apply (tokenize_file_inverts_layout
           ["begin  filetype run"; " "; "end "]
           [["begin"; "filetype"; "run"]; []; ["end"]] [["//"]]).
  - repeat first [ apply Forall2_nil_2 | apply Forall2_cons_2 ].
    + apply (delimited_token "begin" "  filetype run"); [done..|].
      do 2 (apply delimited_space; [done|]).
      apply (delimited_token "filetype" " run"); [done..|].
      apply delimited_space; [done|].
      apply (delimited_token "run" ""); [done..|]. constructor.
    + apply delimited_space; [done|]. constructor.
    + apply (delimited_token "end" " "); [done..|].
      apply delimited_space; [done|]. constructor.
  - repeat first [ apply Forall_nil_2 | apply Forall_cons_2 ]; by split.
Defined.

(** ** The two prints *)

Section Printing.

Lemma string_length_app (s t : string) :
  String.length (s +:+ t) = String.length s + String.length t.
Proof. induction s as [|a s IH]; [done|]. rewrite append_cons. cbn. by rewrite IH. Qed.

Lemma string_app_inv_tail (s1 s2 t : string) : s1 +:+ t = s2 +:+ t -> s1 = s2.
Proof.
  revert s2. induction s1 as [|a s1 IH]; intros [|b s2] E; [done| | |].
  - apply (f_equal String.length) in E.
    rewrite append_nil_l, append_cons in E. cbn in E. rewrite string_length_app in E. lia.
  - apply (f_equal String.length) in E.
    rewrite append_nil_l, append_cons in E. cbn in E. rewrite string_length_app in E. lia.
  - rewrite !append_cons in E. injection E as -> E. f_equal. by apply IH.
Qed.

(** The text before the first [c]. *)
Lemma first_occurrence c (s1 : string) : forall (s2 x y : string),
  all_chars (fun a => negb (Ascii.eqb a c)) s1 = true ->
  all_chars (fun a => negb (Ascii.eqb a c)) s2 = true ->
  s1 +:+ String c x = s2 +:+ String c y -> s1 = s2 ∧ x = y.
Proof.
  induction s1 as [|a s1 IH]; intros [|b s2] x y H1 H2 E.
  - rewrite !append_nil_l in E. by injection E as ->.
  - rewrite append_nil_l, append_cons in E. injection E as <- _.
    cbn [all_chars] in H2. by rewrite Ascii.eqb_refl in H2.
  - rewrite append_nil_l, append_cons in E. injection E as -> _.
    cbn [all_chars] in H1. by rewrite Ascii.eqb_refl in H1.
  - rewrite !append_cons in E. injection E as -> E.
    cbn [all_chars] in H1, H2.
    apply andb_true_iff in H1 as [_ H1]. apply andb_true_iff in H2 as [_ H2].
    destruct (IH s2 x y H1 H2 E) as [-> ->]. done.
Qed.

Lemma no_space_no_line_feed (tok : string) :
  no_space tok = true ->
  all_chars (fun a => negb (Ascii.eqb a (ascii_of_nat 10))) tok = true.
Proof.
  induction tok as [|a tok IH]; [done|]. cbn [no_space all_chars].
  intros [Ha Htok]%andb_true_iff. rewrite IH by done. rewrite andb_true_r.
  apply negb_true_iff. apply negb_true_iff in Ha.
  destruct (Ascii.eqb a (ascii_of_nat 10)) eqn:E; [|done].
  apply Ascii.eqb_eq in E as ->. by vm_compute in Ha.
Qed.

(** *** The print of a tokenized file *)

Lemma fold_entries {A} (entry : A -> string) (l : list A) : forall buf,
  fold_left (fun buf a => buf +:+ entry a) l buf = buf +:+ entries entry l.
Proof.
  induction l as [|a l IH]; intros buf; cbn [fold_left entries fold_right].
  - by rewrite append_empty_r.
  - rewrite IH. apply string_app_assoc.
Qed.

Lemma entries_app {A} (entry : A -> string) (l1 l2 : list A) :
  entries entry (l1 ++ l2) = entries entry l1 +:+ entries entry l2.
Proof.
  induction l1 as [|a l1 IH]; [done|]. cbn [app entries fold_right].
  fold (entries entry (l1 ++ l2)). fold (entries entry l1).
  by rewrite IH, string_app_assoc.
Qed.

Lemma tokenized_file_to_str_entries t_file :
  tokenized_file_to_str t_file
  = ("[" +:+ line_feed) +:+ entries token_entry (concat t_file) +:+ "]" +:+ line_feed.
Proof.
  unfold tokenized_file_to_str.
  assert (forall buf,
            fold_left
              (fun buf line =>
                 fold_left (fun buf token => buf +:+ "['" +:+ token +:+ "']," +:+ line_feed)
                           line buf) t_file buf
            = buf +:+ entries token_entry (concat t_file)) as ->.
  { induction t_file as [|line t_file IH]; intros buf; cbn [fold_left concat].
    - by rewrite append_empty_r.
    - rewrite IH, entries_app, <- string_app_assoc. f_equal.
      apply (fold_entries token_entry). }
  apply string_app_assoc.
Qed.

Lemma all_chars_app p (s t : string) :
  all_chars p (s +:+ t) = all_chars p s && all_chars p t.
Proof.
  induction s as [|a s IH]; [done|]. rewrite append_cons. cbn [all_chars].
  by rewrite IH, andb_assoc.
Qed.

Lemma token_entry_inj tok1 tok2 (x y : string) :
  no_space tok1 = true -> no_space tok2 = true ->
  token_entry tok1 +:+ x = token_entry tok2 +:+ y -> tok1 = tok2 ∧ x = y.
Proof.
  intros H1 H2 E. unfold token_entry, line_feed in E.
  rewrite !append_cons, !append_nil_l in E. injection E as E.
  rewrite !string_app_assoc in E. rewrite !append_cons, !append_nil_l in E.
  assert (forall tok z,
            tok +:+ String "'" (String "]" (String "," (String (ascii_of_nat 10) z)))
            = (tok +:+ "'],") +:+ String (ascii_of_nat 10) z) as Hsplit
    by (intros; by rewrite string_app_assoc).
  rewrite !Hsplit in E.
  apply first_occurrence in E as [E ->].
  - split; [|done]. by apply string_app_inv_tail in E.
  - rewrite all_chars_app, no_space_no_line_feed by done. done.
  - rewrite all_chars_app, no_space_no_line_feed by done. done.
Qed.

Lemma entries_token_inj toks1 : forall toks2,
  Forall (fun tok => tok ≠ "" ∧ no_space tok = true) toks1 ->
  Forall (fun tok => tok ≠ "" ∧ no_space tok = true) toks2 ->
  entries token_entry toks1 +:+ "]" +:+ line_feed
  = entries token_entry toks2 +:+ "]" +:+ line_feed ->
  toks1 = toks2.
Proof.
  induction toks1 as [|tok1 toks1 IH]; intros [|tok2 toks2] H1 H2 E; [done| | |].
  - discriminate E.
  - discriminate E.
  - apply Forall_cons in H1 as [[_ Hn1] H1]. apply Forall_cons in H2 as [[_ Hn2] H2].
    cbn [entries fold_right] in E.
    fold (entries token_entry toks1) in E. fold (entries token_entry toks2) in E.
    rewrite !string_app_assoc in E.
    apply token_entry_inj in E as [-> E]; [|done..].
    f_equal. by apply IH.
Qed.

End Printing.

(** X15.  The print of a tokenized file shows its tokens, in order, and
    nothing of its lines: two files of tokens as the tokenizer makes them
    print alike exactly when they hold the same tokens in the same order,
    however these are spread over lines. *)
Theorem tokenized_file_to_str_tokens (t_file1 t_file2 : tokenized_file) :
  tokenizer_lines t_file1 -> tokenizer_lines t_file2 ->
  (tokenized_file_to_str t_file1 = tokenized_file_to_str t_file2
   <-> concat t_file1 = concat t_file2).
Proof.
  intros H1 H2. rewrite !tokenized_file_to_str_entries. split.
  - intros E. unfold line_feed in E at 1 3.
    rewrite !append_cons, !append_nil_l in E. injection E as E.
    apply entries_token_inj in E; [done| |]; by apply Forall_concat.
  - by intros ->.
Qed.

Lemma tokenized_file_to_str_tokens_witness :
  tokenized_file_to_str [["begin"; "filetype"]; ["run"]]
  = tokenized_file_to_str [["begin"]; []; ["filetype"; "run"]].
Proof.
  apply (tokenized_file_to_str_tokens [["begin"; "filetype"]; ["run"]]
           [["begin"]; []; ["filetype"; "run"]]).
  - repeat first [ apply Forall_nil_2 | apply Forall_cons_2 ]; by split.
  - repeat first [ apply Forall_nil_2 | apply Forall_cons_2 ]; by split.
  - reflexivity.
Defined.

Section LexedPrint.

Lemma lexed_file_to_str_entries l_file :
  lexed_file_to_str l_file
  = ("[" +:+ line_feed) +:+ entries lexed_entry l_file +:+ "]" +:+ line_feed.
Proof.
  unfold lexed_file_to_str.
  assert (forall buf,
            fold_left
              (fun buf token =>
                 ((buf +:+ "['") +:+ lex_string_look_up_at (lex token) +:+ "', '")
                 +:+ raw_token token +:+ "']," +:+ line_feed) l_file buf
            = buf +:+ entries lexed_entry l_file) as ->.
  { induction l_file as [|token l_file IH]; intros buf; cbn [fold_left entries fold_right].
    - by rewrite append_empty_r.
    - rewrite IH. fold (entries lexed_entry l_file).
      unfold lexed_entry. by rewrite !string_app_assoc. }
  apply string_app_assoc.
Qed.

Lemma lex_tokenized_file_items t_file :
  lex_tokenized_file t_file [] = map item_token (line_items t_file).
Proof.
  unfold lex_tokenized_file, line_items. rewrite lex_lines_app. cbn [app].
  induction t_file as [|line t_file IH]; [done|].
  cbn [map concat]. rewrite map_app, IH. f_equal.
  unfold lex_line. rewrite map_app, map_map. done.
Qed.

Lemma entries_map {A B} (f : A -> B) (entry : B -> string) (l : list A) :
  entries entry (map f l) = entries (fun a => entry (f a)) l.
Proof. induction l as [|a l IH]; [done|]. cbn. f_equal. exact IH. Qed.

Lemma string_app_inv_head (s x y : string) : s +:+ x = s +:+ y -> x = y.
Proof.
  induction s as [|a s IH]; [done|]. rewrite !append_cons. intros [= E]. by apply IH.
Qed.

Lemma lex_name_shape l :
  l ≠ NEW_LINE ->
  exists c rest,
    lex_string_look_up_at l = String c rest
    ∧ all_chars (fun a => negb (Ascii.eqb a "'")) (String c rest) = true.
Proof. destruct l; intros H; try done; by eexists _, _. Qed.

Lemma raw_tail_inj (r1 r2 x y : string) :
  no_space r1 = true -> no_space r2 = true ->
  r1 +:+ "']," +:+ line_feed +:+ x = r2 +:+ "']," +:+ line_feed +:+ y ->
  r1 = r2 ∧ x = y.
Proof.
  intros H1 H2 E. unfold line_feed in E.
  rewrite !append_cons, !append_nil_l in E.
  assert (forall tok z,
            tok +:+ String "'" (String "]" (String "," (String (ascii_of_nat 10) z)))
            = (tok +:+ "'],") +:+ String (ascii_of_nat 10) z) as Hsplit
    by (intros; by rewrite string_app_assoc).
  rewrite !Hsplit in E.
  apply first_occurrence in E as [E ->].
  - split; [|done]. by apply string_app_inv_tail in E.
  - rewrite all_chars_app, no_space_no_line_feed by done. done.
  - rewrite all_chars_app, no_space_no_line_feed by done. done.
Qed.

Lemma item_entry_token raw (x : string) :
  exists c name,
    all_chars (fun a => negb (Ascii.eqb a "'")) (String c name) = true
    ∧ lexed_entry (item_token (Some raw)) +:+ x
      = String "[" (String "'" (String c name +:+ String "'"
          (String "," (String " " (String "'" (raw +:+ "']," +:+ line_feed +:+ x)))))).
Proof.
  destruct (lex_name_shape (lex (lex_raw_token raw)) (lex_raw_token_not_new_line raw))
    as (c & name & E & Hq).
  exists c, name. split; [done|].
  unfold lexed_entry. cbn [item_token]. rewrite E, lex_raw_token_raw.
  rewrite !string_app_assoc. reflexivity.
Qed.

Lemma item_entries_inj is1 : forall is2,
  Forall (fun item => forall raw, item = Some raw -> no_space raw = true) is1 ->
  Forall (fun item => forall raw, item = Some raw -> no_space raw = true) is2 ->
  entries (fun item => lexed_entry (item_token item)) is1 +:+ "]" +:+ line_feed
  = entries (fun item => lexed_entry (item_token item)) is2 +:+ "]" +:+ line_feed ->
  is1 = is2.
Proof.
  induction is1 as [|i1 is1 IH]; intros [|i2 is2] H1 H2 E; [done| | |].
  - destruct i2; discriminate E.
  - destruct i1; discriminate E.
  - apply Forall_cons in H1 as [Hi1 H1]. apply Forall_cons in H2 as [Hi2 H2].
    cbn [entries fold_right] in E.
    fold (entries (fun item => lexed_entry (item_token item)) is1) in E.
    fold (entries (fun item => lexed_entry (item_token item)) is2) in E.
    rewrite !string_app_assoc in E.
    destruct i1 as [r1|], i2 as [r2|].
    + destruct (item_entry_token r1
                  (entries (fun item => lexed_entry (item_token item)) is1
                   +:+ "]" +:+ line_feed)) as (c1 & n1 & Hq1 & E1).
      destruct (item_entry_token r2
                  (entries (fun item => lexed_entry (item_token item)) is2
                   +:+ "]" +:+ line_feed)) as (c2 & n2 & Hq2 & E2).
      rewrite E1, E2 in E. injection E as _ E.
      cbn [all_chars] in Hq1, Hq2.
      apply andb_true_iff in Hq1 as [_ Hq1]. apply andb_true_iff in Hq2 as [_ Hq2].
      apply first_occurrence in E as [_ E]; [|done..].
      injection E as E. apply raw_tail_inj in E as [-> E]; [|by auto..].
      f_equal. by apply IH.
    + destruct (item_entry_token r1
                  (entries (fun item => lexed_entry (item_token item)) is1
                   +:+ "]" +:+ line_feed)) as (c1 & n1 & Hq1 & E1).
      rewrite E1 in E. injection E as -> _.
      cbn [all_chars] in Hq1. by rewrite Ascii.eqb_refl in Hq1.
    + destruct (item_entry_token r2
                  (entries (fun item => lexed_entry (item_token item)) is2
                   +:+ "]" +:+ line_feed)) as (c2 & n2 & Hq2 & E2).
      rewrite E2 in E. injection E as <- _.
      cbn [all_chars] in Hq2. by rewrite Ascii.eqb_refl in Hq2.
    + f_equal. apply IH; [done..|]. by apply string_app_inv_head in E.
Qed.

Lemma line_items_inj t1 : forall t2, line_items t1 = line_items t2 -> t1 = t2.
Proof.
  assert (forall (l1 l2 : list string) (r1 r2 : list (option string)),
            map Some l1 ++ None :: r1 = map Some l2 ++ None :: r2 -> l1 = l2 ∧ r1 = r2)
    as Hline.
  { induction l1 as [|a l1 IH]; intros [|b l2] r1 r2 E; cbn in E; try discriminate.
    - by injection E as ->.
    - injection E as -> E. by destruct (IH _ _ _ E) as [-> ->]. }
  unfold line_items.
  induction t1 as [|line1 t1 IH]; intros [|line2 t2] E; cbn [map concat] in E.
  - done.
  - rewrite <- app_assoc in E. destruct line2; discriminate E.
  - rewrite <- app_assoc in E. destruct line1; discriminate E.
  - rewrite <- !app_assoc in E. cbn [app] in E.
    apply Hline in E as [-> E]. f_equal. by apply IH.
Qed.

End LexedPrint.

(** X16.  The print of a lexed file keeps what the print of the tokenized
    file loses: through the entries of the [NEW_LINE] sentinels, which show
    an empty name since the look-up table has none for them, the print of
    the lexer's output determines the tokenized file, lines included. *)
Theorem lexed_file_to_str_lines (t_file1 t_file2 : tokenized_file) :
  tokenizer_lines t_file1 -> tokenizer_lines t_file2 ->
  lexed_file_to_str (lex_tokenized_file t_file1 [])
  = lexed_file_to_str (lex_tokenized_file t_file2 []) ->
  t_file1 = t_file2.
Proof.
  assert (forall t, tokenizer_lines t ->
            Forall (fun item => forall raw, item = Some raw -> no_space raw = true)
                   (line_items t)) as Hitems.
  { intros t Ht. apply Forall_concat, Forall_map.
    eapply Forall_impl; [exact Ht|]. intros line Hline.
    apply Forall_app. split.
    - apply Forall_map. eapply Forall_impl; [exact Hline|].
      intros tok [_ Hns] raw [= <-]. done.
    - by repeat constructor. }
  intros H1 H2 E. rewrite !lexed_file_to_str_entries, !lex_tokenized_file_items in E.
  rewrite !entries_map in E. unfold line_feed in E at 1 3.
  rewrite !append_cons, !append_nil_l in E. injection E as E.
  apply item_entries_inj in E; [|by apply Hitems..].
  by apply line_items_inj.
Qed.

Lemma lexed_file_to_str_lines_witness :
  [["begin"; "filetype"]; ["run"]] = [["begin"; "filetype"]; ["run"]]
  ∧ lexed_file_to_str (lex_tokenized_file [["begin"; "filetype"]; ["run"]] [])
    ≠ lexed_file_to_str (lex_tokenized_file [["begin"]; ["filetype"; "run"]] []).
Proof.
  assert (forall t : tokenized_file,
            t ∈ [ [["begin"; "filetype"]; ["run"]]; [["begin"]; ["filetype"; "run"]] ] ->
            tokenizer_lines t) as Hwf.
  { intros t Ht. repeat (apply elem_of_cons in Ht as [->|Ht]);
      [..|by apply elem_of_nil in Ht];
      repeat first [ apply Forall_nil_2 | apply Forall_cons_2 ]; by split. }
  split.
  - apply (lexed_file_to_str_lines [["begin"; "filetype"]; ["run"]]
             [["begin"; "filetype"]; ["run"]]); [apply Hwf; by left..|reflexivity].
  - intros E.
    apply (lexed_file_to_str_lines [["begin"; "filetype"]; ["run"]]
             [["begin"]; ["filetype"; "run"]]) in E; [discriminate E|apply Hwf..].
    + by left.
    + right; by left.
Defined.

(** ** Where a run can fail *)

Section FailureModes.



Lemma quiet_no_exit {A} (o : outcome A) : quiet o -> no_exit o.
Proof. by destruct o. Qed.















(** *** The resolver *)











End FailureModes.


(** ** The count on a reference cycle *)

Section Cycles.

Context (pt : parsed_trial_section).

Lemma sum_counts_children (rec : list pair -> Z -> outcome Z) in_vec :
  forall temp_sum r,
    sum_counts rec pt in_vec temp_sum = Ok r ->
    forall p v, p ∈ in_vec -> container pt (first p) = Some v ->
      exists c r', rec v c = Ok r'.
Proof.
  induction in_vec as [|p0 in_vec IH]; intros temp_sum r H p v Hin Hv.
  - by apply elem_of_nil in Hin.
  - cbn [sum_counts] in H.
    apply bind_Ok in H as (c & Hc & H). apply bind_Ok in H as (tc & Htc & H).
    apply elem_of_cons in Hin as [->|Hin]; [|by eapply IH].
    unfold container in Hv.
    destruct (session_map pt !! first p0) as [vs|].
    + injection Hv as <-. eauto.
    + rewrite Hv in Htc. eauto.
Qed.

Lemma calculate_num_trials_helper_trap (P : list pair -> Prop) :
  trap pt P ->
  forall fuel v acc r, P v -> calculate_num_trials_helper fuel pt v acc ≠ Ok r.
Proof.
  intros Htrap. induction fuel as [|fuel IH]; intros v acc r Hv H; [discriminate|].
  cbn [calculate_num_trials_helper] in H. apply bind_Ok in H as (ts & Hts & _).
  destruct (Htrap v Hv) as (p & v' & Hin & Hc & Hv').
  destruct (sum_counts_children _ _ _ _ Hts p v' Hin Hc) as (c & r' & Hr).
  by apply (IH v' c r').
Qed.

Lemma calculate_num_trials_helper_ends fuel :
  (forall label v p, container pt label = Some v -> p ∈ v ->
     exists c, stoi (second p) = Ok c) ->
  forall v acc,
    (forall p, p ∈ v -> exists c, stoi (second p) = Ok c) ->
    (forall p v', p ∈ v -> container pt (first p) = Some v' ->
       forall q, q ∈ v' -> exists c, stoi (second q) = Ok c) ->
    calculate_num_trials_helper fuel pt v acc = OutOfFuel
    ∨ exists r, calculate_num_trials_helper fuel pt v acc = Ok r.
Proof.
  intros Hread. induction fuel as [|fuel IH]; intros v acc Hv Hchildren; [by left|].
  cbn [calculate_num_trials_helper].
  assert (forall in_vec temp_sum,
            (forall p, p ∈ in_vec -> exists c, stoi (second p) = Ok c) ->
            (forall p v', p ∈ in_vec -> container pt (first p) = Some v' ->
               forall q, q ∈ v' -> exists c, stoi (second q) = Ok c) ->
            sum_counts (calculate_num_trials_helper fuel pt) pt in_vec temp_sum = OutOfFuel
            ∨ exists r,
                sum_counts (calculate_num_trials_helper fuel pt) pt in_vec temp_sum = Ok r)
    as Hsum.
  { induction in_vec as [|p in_vec IHv]; intros temp_sum Hr Hc; [right; by eexists|].
    cbn [sum_counts]. destruct (Hr p) as [c ->]; [apply elem_of_cons; by left|].
    cbn [mbind outcome_bind].
    assert (forall v' c', container pt (first p) = Some v' ->
              calculate_num_trials_helper fuel pt v' c' = OutOfFuel
              ∨ exists r, calculate_num_trials_helper fuel pt v' c' = Ok r) as Hrec.
    { intros v' c' Hv'. apply IH.
      - intros q Hq. apply (Hc p v'); [apply elem_of_cons; by left|done..].
      - intros q v'' Hq Hv'' q' Hq'. by apply (Hread (first q) v''). }
    assert (forall o : outcome Z,
              (o = OutOfFuel ∨ exists r, o = Ok r) ->
              (o ≫= fun temp_count' =>
                 sum_counts (calculate_num_trials_helper fuel pt) pt in_vec
                            (to_uint32 (temp_sum + temp_count'))) = OutOfFuel
              ∨ exists r,
                  (o ≫= fun temp_count' =>
                     sum_counts (calculate_num_trials_helper fuel pt) pt in_vec
                                (to_uint32 (temp_sum + temp_count'))) = Ok r) as Hstep.
    { intros o [->|[tc ->]]; [by left|]. cbn [mbind outcome_bind].
      apply IHv.
      - intros q Hq. apply Hr, elem_of_cons. by right.
      - intros q v' Hq. apply Hc, elem_of_cons. by right. }
    apply Hstep. unfold container in Hrec.
    destruct (session_map pt !! first p); [by apply Hrec|].
    destruct (block_map pt !! first p); [by apply Hrec|]. right. by eexists. }
  destruct (Hsum v 0%Z Hv Hchildren) as [->|[r ->]]; [by left|right; by eexists].
Qed.

End Cycles.

(** X18.  The count on a reference cycle.  On a set of lists each of which
    refers, through a session or block label, to a list of the set again,
    [calculate_num_trials_helper] never returns, whatever the counts are:
    a label is followed before its count is looked at.  When the experiment
    is such a list and every count of the hierarchy is one [std::stoi]
    reads, the count of the file recurses without end, and so does
    [translate_parsed_trials]. *)
Theorem calculate_num_trials_cycle (pt : parsed_trial_section) (P : list pair -> Prop) :
  trap pt P ->
  (forall fuel v acc r, P v -> calculate_num_trials_helper fuel pt v acc ≠ Ok r)
  ∧ (counts_readable pt -> P (experiment pt) ->
     forall fuel,
       calculate_num_trials fuel pt = OutOfFuel
       ∧ forall vars td,
           translate_parsed_trials fuel (ParsedExptFile vars pt) td = OutOfFuel).
Proof.
  intros Htrap.
  pose proof (calculate_num_trials_helper_trap pt P Htrap) as Hnever.
  split; [exact Hnever|].
  intros [Hexp Hread] HP fuel.
  assert (calculate_num_trials fuel pt = OutOfFuel) as Hc.
  { unfold calculate_num_trials.
    destruct (calculate_num_trials_helper_ends pt fuel Hread (experiment pt) 1%Z Hexp)
      as [H|[r H]]; [|done|].
    - intros p v' _ Hv' q Hq. by apply (Hread (first p) v').
    - by apply Hnever in H. }
  split; [done|]. intros vars td.
  unfold translate_parsed_trials. cbn [parsed_trial_info]. by rewrite Hc.
Qed.

Lemma calculate_num_trials_cycle_witness :
  calculate_num_trials 1000 self_reference = OutOfFuel.
Proof.
  destruct (calculate_num_trials_cycle self_reference (fun v => v = [Pair "b" "1"]))
    as [_ H].
  - intros v ->. exists (Pair "b" "1"), [Pair "b" "1"].
    split; [apply elem_of_cons; by left|]. split; reflexivity.
  - apply H; [|reflexivity]. split.
    + intros p Hp. apply elem_of_cons in Hp as [->|Hp]; [by eexists|].
      by apply elem_of_nil in Hp.
    + intros label v p Hv Hp. unfold container, self_reference in Hv.
      cbn [session_map block_map] in Hv. rewrite lookup_empty in Hv.
      apply lookup_singleton_Some in Hv as [_ <-].
      apply elem_of_cons in Hp as [->|Hp]; [by eexists|]. by apply elem_of_nil in Hp.
Defined.
